(** * Training helpers of the quantization-aware-training notebook

    Shallow embedding of the helper cell of
    [notebooks/302-pytorch-quantization-aware-training]:
    [AverageMeter], [ProgressMeter], [accuracy], and of the two epoch
    drivers [train] and [validate] that use them.

    Conventions.
    - The helpers are embedded twice. The first embedding takes every
      Python number for an exact rational [Q]: it carries the properties
      of control flow, of counts, of the order of calls and of the order
      between results, which rounding does not touch. The second, in
      [Machine], computes with Python's [int], Python's [float] (binary64)
      and [float32] tensor elements, rounded as the machine rounds them:
      it carries whatever is said of the value of a result.
    - A Python exception is a value of [exn]; a computation that mutates
      an object and may raise is a function from the object's state to an
      outcome and the state it leaves behind, also when it raises. *)

From Stdlib Require Import String Ascii ZArith QArith Qfield Qabs List Bool Arith Lia.
From Stdlib Require Import SpecFloat.
From Stdlib Require Import Sorted Permutation.
Import ListNotations.

Set Implicit Arguments.

(** ** Python exceptions and stateful computations *)

Inductive exn : Type :=
| ZeroDivisionError
| ValueError
| IndexError
| KeyError
| RuntimeError.

(** The exception that tells of an invalid argument: Python raises
    [ValueError] when a function receives an argument of the right type but
    an inappropriate value. *)
Definition invalid_argument (e : exn) : bool :=
  match e with
  | ValueError => true
  | _ => false
  end.

(** A computation over a mutable state [S]: the state that is left is
    returned on both outcomes, because an exception does not roll back
    the assignments made before it. *)
Definition Eff (S A : Type) : Type := S -> (exn + A) * S.

Definition ret {S A} (a : A) : Eff S A := fun s => (inr a, s).

Definition raise {S A} (e : exn) : Eff S A := fun s => (inl e, s).

Definition bind {S A B} (c : Eff S A) (k : A -> Eff S B) : Eff S B :=
  fun s =>
    match c s with
    | (inr a, s') => k a s'
    | (inl e, s') => (inl e, s')
    end.

Definition get {S} : Eff S S := fun s => (inr s, s).

Definition modify {S} (f : S -> S) : Eff S unit := fun s => (inr tt, f s).

Declare Scope eff_scope.
Delimit Scope eff_scope with eff.
Notation "x <- c ;; k" := (bind c (fun x => k))
  (at level 61, c at next level, right associativity) : eff_scope.
Notation "c ;; k" := (bind c (fun _ => k))
  (at level 61, right associativity) : eff_scope.
Local Open Scope eff_scope.

(** Run [c] on the part of the state selected by [proj], writing the part
    back with [inj]: a method call on an object held in a local variable. *)
Definition zoom {S T A} (proj : S -> T) (inj : T -> S -> S) (c : Eff T A) : Eff S A :=
  fun s => let (r, t) := c (proj s) in (r, inj t s).

(** [c] moves the state along [R] only, whatever its outcome. *)
Definition stable {S A} (R : S -> S -> Prop) (c : Eff S A) : Prop :=
  forall s, R s (snd (c s)).

(** From a state in [I], [c] returns a value in [Post] and a state in [I]. *)
Definition succeeds {S A} (I : S -> Prop) (Post : A -> Prop) (c : Eff S A) : Prop :=
  forall s, I s -> exists a s', c s = (inr a, s') /\ I s' /\ Post a.

(** [a / b] on Python numbers taken for rationals: true division, raising
    on a zero divisor. The division of the machine, which rounds and which
    does not raise on tensors, is [Machine.py_truediv]. *)
Definition py_truediv {S} (a b : Q) : Eff S Q :=
  if Qeq_bool b 0 then raise ZeroDivisionError else ret (a / b)%Q.

(** ** AverageMeter *)

Module AverageMeter.

Record t : Type := mk {
  name : string;
  fmt : string;
  val : Q;
  avg : Q;
  sum : Q;
  count : Q
}.

Definition set_val (x : Q) (m : t) : t :=
  mk (name m) (fmt m) x (avg m) (sum m) (count m).
Definition set_avg (x : Q) (m : t) : t :=
  mk (name m) (fmt m) (val m) x (sum m) (count m).
Definition set_sum (x : Q) (m : t) : t :=
  mk (name m) (fmt m) (val m) (avg m) x (count m).
Definition set_count (x : Q) (m : t) : t :=
  mk (name m) (fmt m) (val m) (avg m) (sum m) x.

(** [reset]: the four assignments, in the order of the source. *)
Definition reset : Eff t unit :=
  modify (set_val 0) ;;
  modify (set_avg 0) ;;
  modify (set_sum 0) ;;
  modify (set_count 0).

(** [__init__(name, fmt)]: the numeric attributes do not exist before
    [reset] creates them, so their value in [blank] is never read.
    [Machine.AverageMeter] has them absent until they are assigned. *)
Definition blank (name fmt : string) : t := mk name fmt 0 0 0 0.

Definition init (name fmt : string) : t := snd (reset (blank name fmt)).

(** [update(val, n)] *)
Definition update (v n : Q) : Eff t unit :=
  modify (set_val v) ;;
  modify (fun m => set_sum (sum m + v * n) m) ;;
  modify (fun m => set_count (count m + n) m) ;;
  m <- get ;;
  q <- py_truediv (sum m) (count m) ;;
  modify (set_avg q).

(** [update(val)]: the default weight. *)
Definition update1 (v : Q) : Eff t unit := update v 1.

End AverageMeter.

(** ** The fragment of Python's string formatting that the helpers use *)

Module PyStr.

Local Open Scope string_scope.

Definition digit_char (d : nat) : ascii := ascii_of_nat (48 + d).

Definition digit_val (c : ascii) : option nat :=
  let n := nat_of_ascii c in
  if (48 <=? n)%nat && (n <=? 57)%nat then Some (n - 48)%nat else None.

(** Decimal digits of [n], most significant first. [fuel] bounds the
    number of digits; [S n] is always enough. *)
Fixpoint digits (fuel n : nat) : list nat :=
  match fuel with
  | O => []
  | S f => if (n <? 10)%nat then [n] else digits f (n / 10) ++ [n mod 10]
  end.

Definition str_nat (n : nat) : string :=
  string_of_list_ascii (map digit_char (digits (S n) n)).

(** [str(z)] on an int. *)
Definition str (z : Z) : string :=
  match z with
  | Zneg p => "-" ++ str_nat (Pos.to_nat p)
  | _ => str_nat (Z.to_nat z)
  end.

(** [s.rjust(width, fill)] *)
Definition rjust (fill : ascii) (width : nat) (s : string) : string :=
  string_of_list_ascii (repeat fill (width - String.length s)) ++ s.

(** Sign-aware zero padding, what a width written with a leading [0]
    selects ([format(7, "03d")] is ["007"]). *)
Definition zero_fill (width : nat) (z : Z) : string :=
  match z with
  | Zneg p => "-" ++ rjust "0" (width - 1) (str_nat (Pos.to_nat p))
  | _ => rjust "0" width (str_nat (Z.to_nat z))
  end.

(** A width followed by the presentation type [d]. *)
Fixpoint parse_width_d (acc : nat) (s : string) : option nat :=
  match s with
  | EmptyString => None
  | String c s' =>
      if Ascii.eqb c "d" then
        match s' with EmptyString => Some acc | _ => None end
      else
        match digit_val c with
        | Some d => parse_width_d (10 * acc + d) s'
        | None => None
        end
  end.

(** [format(z, spec)] for the empty spec, ["<width>d"] and ["0<width>d"]:
    an int is right-aligned and filled with spaces unless the width is
    written with a leading zero. Other specs are outside the fragment
    and are reported as [ValueError]. *)
Definition format_int {S} (spec : string) (z : Z) : Eff S string :=
  match spec with
  | EmptyString => ret (str z)
  | String c rest =>
      if Ascii.eqb c "0" then
        match parse_width_d 0 rest with
        | Some w => ret (zero_fill w z)
        | None => raise ValueError
        end
      else
        match parse_width_d 0 spec with
        | Some w => ret (rjust " " w (str z))
        | None => raise ValueError
        end
  end.

(** One replacement field, the text between the braces: no text is
    [str], [":spec"] is [format(z, spec)]. Named and numbered fields are outside
    the fragment. *)
Definition format_field {S} (field : string) (z : Z) : Eff S string :=
  match field with
  | EmptyString => ret (str z)
  | String c spec => if Ascii.eqb c ":" then format_int spec z else raise ValueError
  end.

(** [s.format(a0, a1, ...)] with automatically numbered fields. [field] is
    [Some f] while the scan is inside a replacement field whose text so
    far is [f]. *)
Fixpoint format_from {S} (s : string) (field : option string) (args : list Z)
  : Eff S string :=
  match s with
  | EmptyString =>
      match field with
      | None => ret EmptyString
      | Some _ => raise ValueError
      end
  | String c s' =>
      match field with
      | None =>
          if Ascii.eqb c "{" then
            match s' with
            | String c' s'' =>
                if Ascii.eqb c' "{" then
                  (rest <- format_from s'' None args ;; ret (String "{" rest))%eff
                else format_from s' (Some EmptyString) args
            | EmptyString => raise ValueError
            end
          else if Ascii.eqb c "}" then
            match s' with
            | String c' s'' =>
                if Ascii.eqb c' "}" then
                  (rest <- format_from s'' None args ;; ret (String "}" rest))%eff
                else raise ValueError
            | EmptyString => raise ValueError
            end
          else (rest <- format_from s' None args ;; ret (String c rest))%eff
      | Some f =>
          if Ascii.eqb c "}" then
            match args with
            | [] => raise IndexError
            | a :: args' =>
                (piece <- format_field f a ;;
                 rest <- format_from s' None args' ;;
                 ret (piece ++ rest))%eff
            end
          else format_from s' (Some (f ++ String c EmptyString)) args
      end
  end.

Definition format {S} (s : string) (args : list Z) : Eff S string :=
  format_from s None args.

Definition tab : string := String (ascii_of_nat 9) EmptyString.

(** The number that a list of decimal digits denotes, read after [acc]. *)
Definition value (ds : list nat) (acc : nat) : nat :=
  fold_left (fun a d => (10 * a + d)%nat) ds acc.

(** The characters that [format] copies as they are. *)
Definition plain (c : ascii) : Prop :=
  Ascii.eqb c "{" = false /\ Ascii.eqb c "}" = false.

Definition plain_string (s : string) : Prop := Forall plain (list_ascii_of_string s).

End PyStr.

(** ** Tensors and [accuracy] *)

(** A two-dimensional float tensor of shape [(length rows, classes)]: one
    row of class scores per example. The shape is kept apart from the rows
    because an empty batch still has a class count. *)
Record Scores : Type := mkScores {
  classes : nat;
  rows : list (list Q)
}.

Definition wf_scores (output : Scores) : Prop :=
  Forall (fun r => length r = classes output) (rows output).

(** [Tensor.topk(k, 1, True, True)] on one row: the indices it returns.
    The selection is the tensor library's; the development only relies on
    the contract [topk_contract] below, which leaves the order among equal
    scores open. *)
Class TopK : Type := topk_row : nat -> list Q -> list nat.

(** [res = []; for a in l: res.append(f(a))] *)
Fixpoint for_each {S A B} (f : A -> Eff S B) (l : list A) : Eff S (list B) :=
  match l with
  | [] => ret []
  | a :: l' => b <- f a ;; bs <- for_each f l' ;; ret (b :: bs)
  end.

Section Accuracy.

Context {TK : TopK}.
Variable S : Type.

(** [max(topk)] *)
Definition py_max (l : list nat) : Eff S nat :=
  match l with
  | [] => raise ValueError
  | x :: l' => ret (fold_left Nat.max l' x)
  end.

(** [output.topk(k, 1, True, True)[1]]: shape [(N, k)]. *)
Definition tensor_topk (k : nat) (output : Scores) : Eff S (list (list nat)) :=
  if (k <=? classes output)%nat then ret (map (topk_row k) (rows output))
  else raise RuntimeError.

(** [m.t()] for [m] of shape [(N, cols)]: shape [(cols, N)]. *)
Definition transpose (cols : nat) (m : list (list nat)) : list (list nat) :=
  map (fun j => map (fun r => nth j r O) m) (seq 0 cols).

(** [target.view(1, -1).expand_as(pred)] for [pred] of shape
    [(nrows, ncols)]: the row of labels is repeated [nrows] times; a
    single label is also broadcast along the row. *)
Definition expand_as (target : list nat) (nrows ncols : nat)
  : Eff S (list (list nat)) :=
  if (length target =? ncols)%nat then ret (repeat target nrows)
  else if (length target =? 1)%nat then ret (repeat (repeat (hd O target) ncols) nrows)
  else raise RuntimeError.

(** [a.eq(b)] on tensors of one shape. *)
Definition tensor_eq (a b : list (list nat)) : list (list bool) :=
  map (fun '(ra, rb) => map (fun '(x, y) => Nat.eqb x y) (combine ra rb)) (combine a b).

(** [t.reshape(-1).float().sum(0, keepdim=True)] *)
Definition tensor_sum (t : list (list bool)) : Q :=
  fold_right Qplus 0 (map (fun b : bool => if b then 1 else 0) (concat t)).

(** [accuracy(output, target, topk)]. The enclosing [torch.no_grad()]
    switches the recording of gradients only, not a value computed here, and
    is left out. Labels and requested values are naturals. *)
Definition accuracy (output : Scores) (target : list nat) (topk : list nat)
  : Eff S (list Q) :=
  maxk <- py_max topk ;;
  let batch_size := length target in
  pred <- tensor_topk maxk output ;;
  let pred := transpose maxk pred in
  expanded <- expand_as target maxk (length (rows output)) ;;
  let correct := tensor_eq pred expanded in
  for_each
    (fun k =>
       let correct_k := tensor_sum (firstn k correct) in
       scale <- py_truediv 100 (inject_Z (Z.of_nat batch_size)) ;;
       ret (correct_k * scale)%Q)
    topk.

End Accuracy.

(** *** What the selection is relied on for *)

Definition score (row : list Q) (i : nat) : Q := nth i row 0.

(** [idx] holds [k] highest-scoring class indices of [row]: [k] distinct
    columns, none of which scores less than a column left out. *)
Definition is_top_k (row : list Q) (k : nat) (idx : list nat) : Prop :=
  length idx = k /\ NoDup idx /\
  (forall i, In i idx -> (i < length row)%nat) /\
  (forall i j, In i idx -> (j < length row)%nat -> ~ In j idx ->
               score row j <= score row i).

(** Best first. *)
Definition descending (row : list Q) (idx : list nat) : Prop :=
  forall a b, (a <= b)%nat -> (b < length idx)%nat ->
              score row (nth b idx O) <= score row (nth a idx O).

Definition topk_contract (TK : TopK) : Prop :=
  forall k row, (k <= length row)%nat ->
                is_top_k row k (topk_row k row) /\ descending row (topk_row k row).

(** The label of an example is among the first [k] entries of its ranking. *)
Definition hit {TK : TopK} (maxk k : nat) (example : list Q * nat) : bool :=
  existsb (Nat.eqb (snd example)) (firstn k (topk_row maxk (fst example))).

(** Number of examples whose label is among their [k] best classes. *)
Definition hits {TK : TopK} (maxk k : nat) (output : Scores) (target : list nat) : nat :=
  length (filter (hit maxk k) (combine (rows output) target)).

(** The local [correct] of [accuracy] when the labels are as many as the
    rows: entry [(j, i)] tells whether the class ranked [j] for example [i]
    is its label. *)
Definition correct {TK : TopK} (output : Scores) (target : list nat) (maxk : nat)
  : list (list bool) :=
  tensor_eq (transpose maxk (map (topk_row maxk) (rows output))) (repeat target maxk).

(** [max(topk)] when the tuple is not empty. *)
Definition requested_max (topk : list nat) : nat :=
  fold_left Nat.max (tl topk) (hd O topk).

(** The accuracy in the words of the specification: 100 times the number
    of examples whose label is among their [k] best classes, over the
    number of examples. *)
Definition topk_rate {TK : TopK} (maxk k : nat) (output : Scores) (target : list nat) : Q :=
  100 * inject_Z (Z.of_nat (hits maxk k output target))
  / inject_Z (Z.of_nat (length (rows output))).

(** *** A reference selection: stable, lower index first among equals *)

(** Class [i] may stand before class [j] in a ranking of [row]. *)
Definition ranks_before (row : list Q) (i j : nat) : Prop := score row j <= score row i.

Fixpoint insert_desc (row : list Q) (i : nat) (l : list nat) : list nat :=
  match l with
  | [] => [i]
  | j :: l' =>
      if Qle_bool (score row i) (score row j) then j :: insert_desc row i l'
      else i :: l
  end.

Definition argsort_desc (row : list Q) : list nat :=
  fold_left (fun acc i => insert_desc row i acc) (seq 0 (length row)) [].

#[local] Instance topk_stable : TopK :=
  fun k row => firstn k (argsort_desc row).

(** ** ProgressMeter *)

Module ProgressMeter.

Local Open Scope string_scope.

(** [meters] holds references: the meters are the caller's objects and
    are read, in their current state, each time a line is displayed.
    [R] is the type of references. *)
Record t (R : Type) : Type := mk {
  batch_fmtstr : string;
  meters : list R;
  prefix : string
}.

Definition _get_batch_fmtstr {S} (num_batches : Z) : Eff S string :=
  let num_digits := String.length (PyStr.str (num_batches / 1)) in
  let fmt := "{:" ++ PyStr.str (Z.of_nat num_digits) ++ "d}" in
  total <- PyStr.format fmt [num_batches] ;;
  ret ("[" ++ fmt ++ "/" ++ total ++ "]").

Definition init {S R} (num_batches : Z) (meters : list R) (prefix : string)
  : Eff S (t R) :=
  f <- _get_batch_fmtstr num_batches ;;
  ret (mk f meters prefix).

(** [self.batch_fmtstr.format(batch)]: the counter of a displayed line. *)
Definition counter {S R} (self : t R) (batch : Z) : Eff S string :=
  PyStr.format (batch_fmtstr self) [batch].

(** [display(batch)]; [to_str] is [str(meter)] on a reference and
    [print] the output channel. *)
Definition display {S R} (to_str : R -> Eff S string) (print : string -> Eff S unit)
    (self : t R) (batch : Z) : Eff S unit :=
  c <- counter self batch ;;
  let entries := [prefix self ++ c] in
  strs <- for_each to_str (meters self) ;;
  let entries := (entries ++ strs)%list in
  print (String.concat PyStr.tab entries).

End ProgressMeter.

(** ** The epoch drivers *)

(** What the drivers call and do not define: the model, the loss, the
    optimizer, the clock and the number formatter. [World] is everything
    these calls can read and write (parameters, buffers, gradients,
    optimizer state, the autograd switch, the clock); [parameters] takes
    the snapshot of the model's parameters. *)
Class Env : Type := {
  World : Type;
  Params : Type;
  Images : Type;
  Loss : Type;
  parameters : World -> Params;
  images_size0 : Images -> nat;
  model_call : Images -> Eff World Scores;
  model_train : Eff World unit;
  model_eval : Eff World unit;
  criterion_call : Scores -> list nat -> Eff World Loss;
  loss_item : Loss -> Q;
  loss_backward : Loss -> Eff World unit;
  optimizer_zero_grad : Eff World unit;
  optimizer_step : Eff World unit;
  time_time : Eff World Q;
  no_grad_enter : Eff World bool;
  no_grad_exit : bool -> Eff World unit;
  format_number : string -> Q -> string
}.

(** The calls into the environment, as they are logged. *)
Inductive Event : Type :=
| CallModelTrain
| CallModelEval
| CallModel
| CallCriterion
| CallZeroGrad
| CallBackward
| CallStep
| CallTime
| EnterNoGrad
| ExitNoGrad.

(** What a driver returns: [train] falls off its end. *)
Inductive pyval : Type :=
| PyNone
| PyNum (q : Q).

Inductive meter_ref : Type := BatchTime | Losses | Top1 | Top5.

Section Drivers.

Context {E : Env} {TK : TopK}.

Local Open Scope string_scope.

(** The state of one run: the environment, the log of the calls made
    into it, the printed lines (latest first), and the locals that are
    mutated. *)
Record Driver : Type := mkDriver {
  world : World;
  events : list Event;
  stdout : list string;
  batch_time : AverageMeter.t;
  losses : AverageMeter.t;
  top1 : AverageMeter.t;
  top5 : AverageMeter.t;
  end_ : Q
}.

Definition set_world (w : World) (d : Driver) : Driver :=
  mkDriver w (events d) (stdout d) (batch_time d) (losses d) (top1 d) (top5 d) (end_ d).
Definition log (e : Event) (d : Driver) : Driver :=
  mkDriver (world d) (events d ++ [e]) (stdout d) (batch_time d) (losses d) (top1 d)
    (top5 d) (end_ d).
Definition set_end (x : Q) (d : Driver) : Driver :=
  mkDriver (world d) (events d) (stdout d) (batch_time d) (losses d) (top1 d) (top5 d) x.

Definition deref (r : meter_ref) (d : Driver) : AverageMeter.t :=
  match r with
  | BatchTime => batch_time d
  | Losses => losses d
  | Top1 => top1 d
  | Top5 => top5 d
  end.

Definition assign (r : meter_ref) (m : AverageMeter.t) (d : Driver) : Driver :=
  match r with
  | BatchTime =>
      mkDriver (world d) (events d) (stdout d) m (losses d) (top1 d) (top5 d) (end_ d)
  | Losses =>
      mkDriver (world d) (events d) (stdout d) (batch_time d) m (top1 d) (top5 d) (end_ d)
  | Top1 =>
      mkDriver (world d) (events d) (stdout d) (batch_time d) (losses d) m (top5 d) (end_ d)
  | Top5 =>
      mkDriver (world d) (events d) (stdout d) (batch_time d) (losses d) (top1 d) m (end_ d)
  end.

(** A method call on the meter behind a reference. *)
Definition on (r : meter_ref) {A} (c : Eff AverageMeter.t A) : Eff Driver A :=
  zoom (deref r) (assign r) c.

(** A call into the environment: logged, then run on the world. *)
Definition call {A} (e : Event) (op : Eff World A) : Eff Driver A :=
  fun d => let (r, w) := op (world d) in (r, set_world w (log e d)).

Definition print (line : string) : Eff Driver unit :=
  modify (fun d =>
    mkDriver (world d) (events d) (line :: stdout d) (batch_time d) (losses d) (top1 d)
      (top5 d) (end_ d)).

(** [str(meter)]: the meter's [fmt] is spliced after the field names
    [val] and [avg], so it is the colon and the number spec. *)
Definition meter_str (r : meter_ref) : Eff Driver string :=
  d <- get ;;
  let m := deref r d in
  match AverageMeter.fmt m with
  | String c spec =>
      if Ascii.eqb c ":" then
        ret (AverageMeter.name m ++ " " ++ format_number spec (AverageMeter.val m)
             ++ " (" ++ format_number spec (AverageMeter.avg m) ++ ")")
      else raise KeyError
  | EmptyString =>
      ret (AverageMeter.name m ++ " " ++ format_number EmptyString (AverageMeter.val m)
           ++ " (" ++ format_number EmptyString (AverageMeter.avg m) ++ ")")
  end.

Definition display (progress : ProgressMeter.t meter_ref) (batch : Z) : Eff Driver unit :=
  ProgressMeter.display meter_str print progress batch.

(** [for i, x in enumerate(l): body(i, x)] *)
Fixpoint for_enumerate {A} (i : Z) (l : list A) (body : Z -> A -> Eff Driver unit)
  : Eff Driver unit :=
  match l with
  | [] => ret tt
  | x :: l' => body i x ;; for_enumerate (i + 1) l' body
  end.

(** [acc1, acc5 = res] *)
Definition unpack2 (res : list Q) : Eff Driver (Q * Q) :=
  match res with
  | [a; b] => ret (a, b)
  | _ => raise ValueError
  end.

(** [with torch.no_grad(): body]: the switch is restored on the way
    out, also when the body raises. *)
Definition with_no_grad {A} (body : Eff Driver A) : Eff Driver A :=
  prev <- call EnterNoGrad no_grad_enter ;;
  fun d =>
    match body d with
    | (r, d') =>
        match call ExitNoGrad (no_grad_exit prev) d' with
        | (inr _, d'') => (r, d'')
        | (inl e, d'') => (inl e, d'')
        end
    end.

Definition new_meters : Eff Driver unit :=
  modify (assign BatchTime (AverageMeter.init "Time" ":3.3f")) ;;
  modify (assign Losses (AverageMeter.init "Loss" ":2.3f")) ;;
  modify (assign Top1 (AverageMeter.init "Acc@1" ":2.2f")) ;;
  modify (assign Top5 (AverageMeter.init "Acc@5" ":2.2f")).

Definition len {A} (l : list A) : Z := Z.of_nat (length l).

(** The part of the loop body that [train] and [validate] share up to
    the meters: forward pass, loss, accuracy, bookkeeping. The move of
    the batch to the device keeps its contents and is not modelled. *)
Definition measure (images : Images) (target : list nat) : Eff Driver Loss :=
  output <- call CallModel (model_call images) ;;
  loss <- call CallCriterion (criterion_call output target) ;;
  res <- accuracy output target [1; 5]%nat ;;
  accs <- unpack2 res ;;
  let n := inject_Z (Z.of_nat (images_size0 images)) in
  on Losses (AverageMeter.update (loss_item loss) n) ;;
  on Top1 (AverageMeter.update (fst accs) n) ;;
  on Top5 (AverageMeter.update (snd accs) n) ;;
  ret loss.

(** [batch_time.update(time.time() - end); end = time.time()] *)
Definition measure_time : Eff Driver unit :=
  now <- call CallTime time_time ;;
  d <- get ;;
  on BatchTime (AverageMeter.update1 (now - end_ d)) ;;
  now' <- call CallTime time_time ;;
  modify (set_end now').

Definition maybe_display (progress : ProgressMeter.t meter_ref) (print_frequency i : Z)
  : Eff Driver unit :=
  if (i mod print_frequency =? 0)%Z then display progress i else ret tt.

Definition train (train_loader : list (Images * list nat)) (epoch : Z)
  : Eff Driver pyval :=
  new_meters ;;
  prefix <- PyStr.format "Epoch:[{}]" [epoch] ;;
  progress <- ProgressMeter.init (len train_loader) [BatchTime; Losses; Top1; Top5] prefix ;;
  call CallModelTrain model_train ;;
  now <- call CallTime time_time ;;
  modify (set_end now) ;;
  for_enumerate 0 train_loader
    (fun i batch =>
       loss <- measure (fst batch) (snd batch) ;;
       call CallZeroGrad optimizer_zero_grad ;;
       call CallBackward (loss_backward loss) ;;
       call CallStep optimizer_step ;;
       measure_time ;;
       maybe_display progress 50 i) ;;
  ret PyNone.

Definition validate (val_loader : list (Images * list nat)) : Eff Driver pyval :=
  new_meters ;;
  progress <- ProgressMeter.init (len val_loader) [BatchTime; Losses; Top1; Top5] "Test: " ;;
  call CallModelEval model_eval ;;
  with_no_grad
    (now <- call CallTime time_time ;;
     modify (set_end now) ;;
     for_enumerate 0 val_loader
       (fun i batch =>
          _ <- measure (fst batch) (snd batch) ;;
          measure_time ;;
          maybe_display progress 10 i) ;;
     d <- get ;;
     print (" * Acc@1 " ++ format_number ".3f" (AverageMeter.avg (top1 d))
            ++ " Acc@5 " ++ format_number ".3f" (AverageMeter.avg (top5 d)))) ;;
  d <- get ;;
  ret (PyNum (AverageMeter.avg (top1 d))).

(** *** What is assumed of the environment, and what is kept by a run *)

Definition optimizer_event (e : Event) : bool :=
  match e with
  | CallZeroGrad | CallBackward | CallStep => true
  | _ => false
  end.

(** [op] does not write the parameters. *)
Definition keeps_parameters {A} (op : Eff World A) : Prop :=
  forall w, parameters (snd (op w)) = parameters w.

(** The calls that [validate] makes do not write the parameters: the
    switch to evaluation mode, the forward pass, the loss, the clock and
    the autograd switch. Nothing is asked of the optimizer. *)
Definition readers_keep_parameters : Prop :=
  keeps_parameters model_eval /\
  (forall x, keeps_parameters (model_call x)) /\
  (forall o t, keeps_parameters (criterion_call o t)) /\
  keeps_parameters time_time /\
  keeps_parameters no_grad_enter /\
  (forall b, keeps_parameters (no_grad_exit b)).

(** From [d] to [d']: no call to the optimizer or to the backward pass
    has been logged and, the readers keeping the parameters, the
    parameters are the same. *)
Definition untouched (d d' : Driver) : Prop :=
  (exists tr, events d' = (events d ++ tr)%list /\
              Forall (fun e => optimizer_event e = false) tr) /\
  (readers_keep_parameters -> parameters (world d') = parameters (world d)).

(** [op] returns, in every world. *)
Definition returns {A} (op : Eff World A) : Prop :=
  forall w, exists a, fst (op w) = inr a.

(** An environment and a loader on which an epoch of validation runs
    through: the calls return, and each batch comes with as many labels
    as images, at least one, and is scored over five classes or more. *)
Definition well_behaved (loader : list (Images * list nat)) : Prop :=
  returns model_eval /\
  returns time_time /\
  returns no_grad_enter /\
  (forall b, returns (no_grad_exit b)) /\
  (forall o t, returns (criterion_call o t)) /\
  (forall x t, In (x, t) loader ->
     (0 < length t)%nat /\
     (0 < images_size0 x)%nat /\
     forall w, exists o, fst (model_call x w) = inr o /\
                         (5 <= classes o)%nat /\
                         length (rows o) = length t).

(** The calls that only [train] makes return. *)
Definition optimizer_returns : Prop :=
  returns model_train /\
  returns optimizer_zero_grad /\
  (forall l, returns (loss_backward l)) /\
  returns optimizer_step.

(** The meters as [new_meters] and the updates of a run keep them. *)
Definition meters_ready (d : Driver) : Prop :=
  forall r, 0 <= AverageMeter.count (deref r d) /\
            exists spec, AverageMeter.fmt (deref r d) = String ":" spec.

End Drivers.

(** ** A small environment to run the drivers in

    One weight, moved by the optimizer step only; a clock that advances by
    one at each reading; images that are their own scores over five
    classes. *)

Module Toy.

Record world : Type := mkWorld {
  weight : Q;
  clock : Q;
  grad_enabled : bool
}.

Definition tick : Eff world Q :=
  fun w => (inr (clock w), mkWorld (weight w) (clock w + 1) (grad_enabled w)).

Definition step : Eff world unit :=
  modify (fun w => mkWorld (weight w + 1) (clock w) (grad_enabled w)).

Definition enter : Eff world bool :=
  fun w => (inr (grad_enabled w), mkWorld (weight w) (clock w) false).

Definition leave (prev : bool) : Eff world unit :=
  modify (fun w => mkWorld (weight w) (clock w) prev).

#[local] Instance env : Env := {|
  World := world;
  Params := Q;
  Images := list (list Q);
  Loss := Q;
  parameters := weight;
  images_size0 := fun x => length x;
  model_call := fun x => ret (mkScores 5 x);
  model_train := ret tt;
  model_eval := ret tt;
  criterion_call := fun _ _ w => (inr (weight w), w);
  loss_item := fun l => l;
  loss_backward := fun _ => ret tt;
  optimizer_zero_grad := ret tt;
  optimizer_step := step;
  time_time := tick;
  no_grad_enter := enter;
  no_grad_exit := leave;
  format_number := fun _ _ => "#"%string
|}.

Definition start : Driver :=
  let m := AverageMeter.blank EmptyString EmptyString in
  mkDriver (mkWorld 0 0 true) [] [] m m m m 0.

(** Two batches: two examples, then one. *)
Definition loader : list (list (list Q) * list nat) :=
  [ ([[1; 5; 2; 4; 3]; [9; 1; 2; 3; 4]], [1; 2]%nat);
    ([[3; 1; 4; 1; 5]], [4]%nat) ].

End Toy.

(** The score matrix of the specification's test list: two examples over
    two classes. *)
Definition two_by_two : Scores := mkScores 2 [[1 # 10; 9 # 10]; [8 # 10; 2 # 10]].

(** * Further code of the notebook

    What follows embeds code that uses or surrounds the helpers above:
    the epoch drivers seen from their callers, the training loop of the
    floating-point model, and the preparation of the validation set. *)

(** ** The progress of a driver *)

(** From a state in [I], [c] returns and leaves a state in [I] that [Post]
    relates to the state it started from and to the value returned. *)
Definition runs_to {S A} (I : S -> Prop) (Post : S -> A -> S -> Prop) (c : Eff S A) : Prop :=
  forall s, I s -> exists a s', c s = (inr a, s') /\ I s' /\ Post s a s'.

(** How far a run has moved a driver: the calls it logged, the number of
    lines it printed, the weight it added to the count of each meter and
    the amount it added to the sum of each meter. *)
Record Progress : Type := mkProgress {
  calls : list Event;
  lines : nat;
  weights : meter_ref -> Q;
  gains : meter_ref -> Q
}.

Definition no_progress : Progress := mkProgress [] 0 (fun _ => 0) (fun _ => 0).

Definition and_then (p q : Progress) : Progress :=
  mkProgress (calls p ++ calls q) (lines p + lines q)
    (fun r => weights p r + weights q r) (fun r => gains p r + gains q r).

(** [d'] is [d] moved by [p]. The sums are followed for the meters in
    [tracked] only: what a batch adds to the loss and to the time depends
    on the state of the environment. *)
Definition advanced {E : Env} {TK : TopK} (tracked : meter_ref -> bool) (p : Progress)
    (d d' : Driver) : Prop :=
  events d' = events d ++ calls p /\
  length (stdout d') = (length (stdout d) + lines p)%nat /\
  (forall r, AverageMeter.count (deref r d') == AverageMeter.count (deref r d) + weights p r) /\
  (forall r, tracked r = true ->
             AverageMeter.sum (deref r d') == AverageMeter.sum (deref r d) + gains p r).

Definition accuracy_meter (r : meter_ref) : bool :=
  match r with
  | Top1 | Top5 => true
  | _ => false
  end.

Definition untracked (r : meter_ref) : bool := false.

(** The meters between two statements of a driver: ready, and the
    average of each, times its count, is its sum. *)
Definition meters_settled {E : Env} {TK : TopK} (d : Driver) : Prop :=
  meters_ready d /\
  forall r, AverageMeter.avg (deref r d) * AverageMeter.count (deref r d)
            == AverageMeter.sum (deref r d).

(** The entries and exits of [torch.no_grad()]. Those of [accuracy]
    around its own body are not in the log. *)
Definition autograd_switch (e : Event) : bool :=
  match e with
  | EnterNoGrad | ExitNoGrad => true
  | _ => false
  end.

(** The calls of one batch. *)
Definition validate_batch_calls : list Event :=
  [CallModel; CallCriterion; CallTime; CallTime].

Definition train_batch_calls : list Event :=
  [CallModel; CallCriterion; CallZeroGrad; CallBackward; CallStep; CallTime; CallTime].

(** The weight one batch adds: its size to the loss and accuracy meters,
    one to the time meter. *)
Definition batch_weights (size : nat) (r : meter_ref) : Q :=
  match r with
  | BatchTime => 1
  | _ => inject_Z (Z.of_nat size)
  end.

(** The batches among [n], counted from index [i], whose index is a
    multiple of [print_frequency]. *)
Fixpoint displayed (print_frequency i : Z) (n : nat) : nat :=
  match n with
  | O => O
  | S n' => ((if (i mod print_frequency =? 0)%Z then 1 else 0)
             + displayed print_frequency (i + 1) n')%nat
  end.

(** The progress of the batch of index [i]; [rate b r] is the value that
    the batch [b] feeds to the meter [r]. *)
Definition batch_progress {E : Env} (batch_calls : list Event) (print_frequency : Z)
    (rate : Images * list nat -> meter_ref -> Q) (i : Z) (b : Images * list nat) : Progress :=
  mkProgress batch_calls
    (if (i mod print_frequency =? 0)%Z then 1 else 0)
    (batch_weights (images_size0 (fst b)))
    (fun r => rate b r * inject_Z (Z.of_nat (images_size0 (fst b)))).

(** The progress of the loop over the batches. *)
Fixpoint loop_progress {E : Env} (batch_calls : list Event) (print_frequency : Z)
    (rate : Images * list nat -> meter_ref -> Q) (i : Z)
    (loader : list (Images * list nat)) : Progress :=
  match loader with
  | [] => no_progress
  | b :: rest =>
      and_then (batch_progress batch_calls print_frequency rate i b)
               (loop_progress batch_calls print_frequency rate (i + 1) rest)
  end.

(** The examples of a loader. *)
Definition examples {E : Env} (loader : list (Images * list nat)) : nat :=
  list_sum (map (fun b => images_size0 (fst b)) loader).

(** ** The failures of [accuracy] *)

(** The exception that [accuracy] ends with, if any, read off its
    statements in their order: [max] of an empty tuple, [topk] beyond the
    class count, [expand_as] of labels that are neither as many as the rows
    nor one, the division by a batch size of zero. [classes] and [nrows]
    are the shape of the scores, [nlabels] the number of labels. *)
Definition accuracy_failure (classes nrows nlabels : nat) (topk : list nat) : option exn :=
  match topk with
  | [] => Some ValueError
  | _ =>
      if (classes <? requested_max topk)%nat then Some RuntimeError
      else if negb (nlabels =? nrows)%nat && negb (nlabels =? 1)%nat then Some RuntimeError
      else if (nlabels =? 0)%nat then Some ZeroDivisionError
      else None
  end.

(** [c] runs through on settled meters, advances the driver by [p] and
    returns a value in [P]. *)
Definition progresses {E : Env} {TK : TopK} {A} (tracked : meter_ref -> bool) (p : Progress)
    (P : A -> Prop) (c : Eff Driver A) : Prop :=
  runs_to meters_settled (fun d a d' => advanced tracked p d d' /\ P a) c.

Definition same_progress (tracked : meter_ref -> bool) (p q : Progress) : Prop :=
  calls p = calls q /\ lines p = lines q /\
  (forall r, weights p r == weights q r) /\
  (forall r, tracked r = true -> gains p r == gains q r).

(** One call, one line, one update. *)
Definition one_call (e : Event) : Progress := mkProgress [e] 0 (fun _ => 0) (fun _ => 0).

Definition one_line : Progress := mkProgress [] 1 (fun _ => 0) (fun _ => 0).

Definition meter_ref_eqb (r r' : meter_ref) : bool :=
  match r, r' with
  | BatchTime, BatchTime | Losses, Losses | Top1, Top1 | Top5, Top5 => true
  | _, _ => false
  end.

Definition one_update (r : meter_ref) (v n : Q) : Progress :=
  mkProgress [] 0 (fun r' => if meter_ref_eqb r' r then n else 0)
    (fun r' => if meter_ref_eqb r' r then v * n else 0).

(** ** The training loop of the floating-point model *)

(** The variables of the cell that runs the loop, and the file behind
    [fp32_pth_path]: the state dict and the accuracy of the checkpoint
    last saved there, if any. The write of [torch.save] is taken to
    succeed. *)
Record Loop {E : Env} {TK : TopK} : Type := mkLoop {
  driver : Driver;
  acc1 : pyval;
  best_acc1 : Q;
  is_best : bool;
  checkpoint_file : option (Params * Q)
}.

Arguments mkLoop {E TK} driver acc1 best_acc1 is_best checkpoint_file.

(** How the loop can end early: with an exception of the drivers, or
    with the type error of comparing [None] with a number. *)
Inductive failure : Type :=
| Raised (e : exn)
| TypeError.

(** [a > b] *)
Definition py_gt (a b : Q) : bool := negb (Qle_bool a b).

(** [max(a, b)]: [b] when it is greater than [a], else [a]. *)
Definition py_max2 (a b : Q) : Q := if py_gt b a then b else a.

(** The body of [for epoch in range(0, epochs)]. *)
Definition epoch_body {E : Env} {TK : TopK} (train_loader val_loader : list (Images * list nat))
    (epoch : Z) (s : Loop) : (failure + unit) * Loop :=
  match train train_loader epoch (driver s) with
  | (inl e, d1) =>
      (inl (Raised e), mkLoop d1 (acc1 s) (best_acc1 s) (is_best s) (checkpoint_file s))
  | (inr _, d1) =>
      match validate val_loader d1 with
      | (inl e, d2) =>
          (inl (Raised e), mkLoop d2 (acc1 s) (best_acc1 s) (is_best s) (checkpoint_file s))
      | (inr PyNone, d2) =>
          (inl TypeError, mkLoop d2 PyNone (best_acc1 s) (is_best s) (checkpoint_file s))
      | (inr (PyNum a), d2) =>
          let b := py_gt a (best_acc1 s) in
          (inr tt,
           mkLoop d2 (PyNum a) (py_max2 a (best_acc1 s)) b
             (if b then Some (parameters (world d2), a) else checkpoint_file s))
      end
  end.

(** [n] turns of the loop, from [epoch] on. *)
Fixpoint epochs_from {E : Env} {TK : TopK} (n : nat) (epoch : Z)
    (body : Z -> Loop -> (failure + unit) * Loop) (s : Loop) : (failure + unit) * Loop :=
  match n with
  | O => (inr tt, s)
  | S n' =>
      match body epoch s with
      | (inl x, s') => (inl x, s')
      | (inr _, s') => epochs_from n' (epoch + 1) body s'
      end
  end.

(** [best_acc1 = 0], the loop over [range(0, epochs)], and
    [acc1_fp32 = best_acc1], which is returned. *)
Definition fp32_training_loop {E : Env} {TK : TopK} (epochs : Z)
    (train_loader val_loader : list (Images * list nat)) (s : Loop) : (failure + Q) * Loop :=
  let s0 := mkLoop (driver s) (acc1 s) 0 (is_best s) (checkpoint_file s) in
  match epochs_from (Z.to_nat epochs) 0 (epoch_body train_loader val_loader) s0 with
  | (inl x, s') => (inl x, s')
  | (inr _, s') => (inr (best_acc1 s'), s')
  end.

(** The loop has kept its word so far: the best accuracy is not
    negative, and either no checkpoint has been written since [s0] and the
    best accuracy is zero, or the file holds a checkpoint whose accuracy is
    the best accuracy, above zero. *)
Definition checkpoint_tracks_best {E : Env} {TK : TopK} (s0 s : Loop) : Prop :=
  0 <= best_acc1 s /\
  ((checkpoint_file s = checkpoint_file s0 /\ best_acc1 s == 0) \/
   (exists p a, checkpoint_file s = Some (p, a) /\ a == best_acc1 s /\ 0 < a)).

(** After a turn of the loop: the accuracy of the turn is at most the
    best, and when the turn was the best the file holds the parameters in
    memory with that accuracy. *)
Definition last_epoch_recorded {E : Env} {TK : TopK} (s : Loop) : Prop :=
  exists a, acc1 s = PyNum a /\ a <= best_acc1 s /\
            (is_best s = true ->
             a == best_acc1 s /\
             checkpoint_file s = Some (parameters (world (driver s)), a)).

(** ** The preparation of the validation set *)

(** A computation that can also end with an error of a type [X] of its
    own; the state that is left is returned on both outcomes. *)
Definition Run (X St A : Type) : Type := St -> (X + A) * St.

Definition run_ret {X St A} (a : A) : Run X St A := fun s => (inr a, s).

Definition run_raise {X St A} (x : X) : Run X St A := fun s => (inl x, s).

Definition run_bind {X St A B} (c : Run X St A) (k : A -> Run X St B) : Run X St B :=
  fun s =>
    match c s with
    | (inr a, s') => k a s'
    | (inl x, s') => (inl x, s')
    end.

Declare Scope run_scope.
Delimit Scope run_scope with run.
Notation "x <- c ;; k" := (run_bind c (fun x => k))
  (at level 61, c at next level, right associativity) : run_scope.
Notation "c ;; k" := (run_bind c (fun _ => k))
  (at level 61, right associativity) : run_scope.

(** What [prepare_tiny_imagenet_200] asks of [pathlib] and of the
    operating system, and does not define: the paths with their [/], and
    the calls that read and write the disk, each of which can fail with an
    error of the operating system. [fs_readlines] is
    [with open(p, 'r') as f: f.readlines()]. *)
Class FileSystem : Type := {
  Disk : Type;
  Path : Type;
  OSError : Type;
  joinpath : Path -> string -> Path;
  fs_readlines : Path -> Disk -> (OSError + list string) * Disk;
  fs_exists : Path -> Disk -> (OSError + bool) * Disk;
  fs_mkdir : Path -> Disk -> (OSError + unit) * Disk;
  fs_rename : Path -> Path -> Disk -> (OSError + unit) * Disk;
  fs_unlink : Path -> Disk -> (OSError + unit) * Disk;
  fs_rmdir : Path -> Disk -> (OSError + unit) * Disk
}.

(** The calls made to the file system, as they are logged. *)
Inductive FsCall {FS : FileSystem} : Type :=
| CallReadlines (p : Path)
| CallExists (p : Path)
| CallMkdir (p : Path)
| CallRename (p q : Path)
| CallUnlink (p : Path)
| CallRmdir (p : Path).

Inductive fs_failure {FS : FileSystem} : Type :=
| OsFailed (e : OSError)
| PyRaised (e : exn).

Definition tab_char : ascii := ascii_of_nat 9.

(** [s.split(sep)] for a separator of one character: the pieces between
    the separators, one more than there are separators. *)
Fixpoint str_split (sep : ascii) (s : string) : list string :=
  match s with
  | EmptyString => [EmptyString]
  | String c s' =>
      if Ascii.eqb c sep then EmptyString :: str_split sep s'
      else match str_split sep s' with
           | piece :: pieces => String c piece :: pieces
           | [] => [String c EmptyString]
           end
  end.

(** [lambda line: line.split('\t')[:2]] *)
Definition annotation_fields (line : string) : list string := firstn 2 (str_split tab_char line).

(** [image_filename, image_label = fields] *)
Definition unpack_fields (fields : list string) : exn + (string * string) :=
  match fields with
  | [a; b] => inr (a, b)
  | _ => inl ValueError
  end.

Definition occurs (c : ascii) (s : string) : bool :=
  existsb (Ascii.eqb c) (list_ascii_of_string s).

Section Prepare.

Context {FS : FileSystem}.

(** The disk and the log of the calls made to it. *)
Record Files : Type := mkFiles {
  disk : Disk;
  fs_calls : list FsCall
}.

(** A call to the file system: logged, then run on the disk. *)
Definition fs_call {A} (e : FsCall) (op : Disk -> (OSError + A) * Disk)
  : Run fs_failure Files A :=
  fun s =>
    let (r, k) := op (disk s) in
    (match r with
     | inl x => inl (OsFailed x)
     | inr a => inr a
     end, mkFiles k (fs_calls s ++ [e])).

(** [for x in l: body(x)] *)
Fixpoint for_in {A} (l : list A) (body : A -> Run fs_failure Files unit)
  : Run fs_failure Files unit :=
  match l with
  | [] => run_ret tt
  | x :: l' => (body x ;; for_in l' body)%run
  end.

(** The body of the loop over the annotations: the fields of a line are
    taken when the loop reaches it, [map] being lazy. *)
Definition move_image (val_data_dir val_images_dir : Path) (line : string)
  : Run fs_failure Files unit :=
  match unpack_fields (annotation_fields line) with
  | inl e => run_raise (PyRaised e)
  | inr (image_filename, image_label) =>
      let from_image_filepath := joinpath val_images_dir image_filename in
      let to_image_dir := joinpath val_data_dir image_label in
      (there <- fs_call (CallExists to_image_dir) (fs_exists to_image_dir) ;;
       (if negb there then fs_call (CallMkdir to_image_dir) (fs_mkdir to_image_dir)
        else run_ret tt) ;;
       let to_image_filepath := joinpath to_image_dir image_filename in
       fs_call (CallRename from_image_filepath to_image_filepath)
         (fs_rename from_image_filepath to_image_filepath))%run
  end.

Definition prepare_tiny_imagenet_200 (dataset_dir : Path) : Run fs_failure Files unit :=
  let val_data_dir := joinpath dataset_dir "val" in
  let val_annotations_file := joinpath val_data_dir "val_annotations.txt" in
  (val_annotation_data <-
     fs_call (CallReadlines val_annotations_file) (fs_readlines val_annotations_file) ;;
   let val_images_dir := joinpath val_data_dir "images" in
   for_in val_annotation_data (move_image val_data_dir val_images_dir) ;;
   fs_call (CallUnlink val_annotations_file) (fs_unlink val_annotations_file) ;;
   fs_call (CallRmdir val_images_dir) (fs_rmdir val_images_dir))%run.

(** The move that a well-formed line asks for. *)
Definition move_of (dataset_dir : Path) (fields : string * string) : FsCall :=
  let val_data_dir := joinpath dataset_dir "val" in
  CallRename (joinpath (joinpath val_data_dir "images") (fst fields))
         (joinpath (joinpath val_data_dir (snd fields)) (fst fields)).

Definition is_rename (e : FsCall) : bool :=
  match e with
  | CallRename _ _ => true
  | _ => false
  end.

Definition removes (e : FsCall) : bool :=
  match e with
  | CallUnlink _ | CallRmdir _ => true
  | _ => false
  end.

End Prepare.

(** The calls to the file system return, whatever the disk holds. *)
Definition fs_returns {FS : FileSystem} : Prop :=
  (forall p k, exists ls, fst (fs_readlines p k) = inr ls) /\
  (forall p k, exists b, fst (fs_exists p k) = inr b) /\
  (forall p k, fst (fs_mkdir p k) = inr tt) /\
  (forall p q k, fst (fs_rename p q k) = inr tt) /\
  (forall p k, fst (fs_unlink p k) = inr tt) /\
  (forall p k, fst (fs_rmdir p k) = inr tt).

(** ** A small file system

    A disk that holds the lines of the one file that is read, and lets
    every call through. *)

Module ToyFiles.

Local Open Scope string_scope.

#[local] Instance fs : FileSystem := {|
  Disk := list string;
  Path := list string;
  OSError := Empty_set;
  joinpath := fun p name => (p ++ [name])%list;
  fs_readlines := fun _ k => (inr k, k);
  fs_exists := fun _ k => (inr false, k);
  fs_mkdir := fun _ k => (inr tt, k);
  fs_rename := fun _ _ k => (inr tt, k);
  fs_unlink := fun _ k => (inr tt, k);
  fs_rmdir := fun _ k => (inr tt, k)
|}.

Definition newline : string := String (ascii_of_nat 10) EmptyString.

(** Two annotated images, and a third line that has lost its tabs. *)
Definition annotations : list string :=
  [ ("val_0.JPEG" ++ PyStr.tab ++ "n03444034" ++ PyStr.tab ++ "0" ++ newline)%string;
    ("val_1.JPEG" ++ PyStr.tab ++ "n04067472" ++ PyStr.tab ++ "52" ++ newline)%string;
    ("val_2.JPEG n04070727" ++ newline)%string ].

(** The disk with the annotations [lines] on it, before any call. *)
Definition start (lines : list string) : Files := @mkFiles fs lines [].

Definition dataset_dir : list string := ["data"; "tiny-imagenet-200"].

End ToyFiles.

(** * Machine numbers *)

(** The numbers of the program are Python's [int] (unbounded), Python's
    [float] (IEEE 754 binary64) and the elements of [torch] tensors of
    type [float32] (binary32), on the cpu device that the notebook's run
    uses. Their arithmetic rounds to nearest, ties to even; the operations
    are those of the standard library's [SpecFloat]. *)

(** Python's [float]. *)
Module Float64.

Definition prec : Z := 53.
Definition emax : Z := 1024.

Definition add : spec_float -> spec_float -> spec_float := SFadd prec emax.
Definition mul : spec_float -> spec_float -> spec_float := SFmul prec emax.
Definition div : spec_float -> spec_float -> spec_float := SFdiv prec emax.

(** The float nearest to an integer. *)
Definition of_int (z : Z) : spec_float := binary_normalize prec emax z 0 false.

Definition valid (x : spec_float) : bool := valid_binary prec emax x.

End Float64.

(** An element of a [float32] tensor. *)
Module Float32.

Definition prec : Z := 24.
Definition emax : Z := 128.

Definition add : spec_float -> spec_float -> spec_float := SFadd prec emax.
Definition mul : spec_float -> spec_float -> spec_float := SFmul prec emax.
Definition div : spec_float -> spec_float -> spec_float := SFdiv prec emax.

Definition of_int (z : Z) : spec_float := binary_normalize prec emax z 0 false.

(** The cast of a Python [float] to [float32]. *)
Definition of_float64 (x : spec_float) : spec_float :=
  match x with
  | S754_finite s m e => binary_round prec emax s m e
  | _ => x
  end.

Definition valid (x : spec_float) : bool := valid_binary prec emax x.

End Float32.

(** The rational that a finite float stands for. *)
Definition float_value (x : spec_float) : Q :=
  match x with
  | S754_finite s m e =>
      let z := if s then Zneg m else Zpos m in
      match e with
      | Z0 => inject_Z z
      | Zpos p => inject_Z (z * 2 ^ Zpos p)
      | Zneg p => z # (2 ^ p)
      end
  | _ => 0
  end.

Definition is_nan (x : spec_float) : bool :=
  match x with
  | S754_nan => true
  | _ => false
  end.

Definition is_infinity (x : spec_float) : bool :=
  match x with
  | S754_infinity _ => true
  | _ => false
  end.

Definition float_is_zero (x : spec_float) : bool :=
  match x with
  | S754_zero _ => true
  | _ => false
  end.

Module Machine.

(** A value that the helpers compute with: a Python [int], a Python
    [float], or a [float32] tensor of one element. *)
Inductive number : Type :=
| PyInt (z : Z)
| PyFloat (x : spec_float)
| Tensor (x : spec_float).

Definition is_tensor (a : number) : bool :=
  match a with
  | Tensor _ => true
  | _ => false
  end.

(** [a == 0] for a Python number. *)
Definition is_zero (a : number) : bool :=
  match a with
  | PyInt z => Z.eqb z 0
  | PyFloat x => float_is_zero x
  | Tensor x => float_is_zero x
  end.

(** The exceptions of the arithmetic, next to those of [exn]. *)
Inductive pyerror : Type :=
| Base (e : exn)
| OverflowError
| AttributeError.

(** The outcome of an expression: its value, or the exception it raises. *)
Definition outcome (A : Type) : Type := (pyerror + A)%type.

(** [float(z)] for an [int]: the nearest float, [OverflowError] when the
    integer is too large for one. *)
Definition float_of_int (z : Z) : outcome spec_float :=
  let x := Float64.of_int z in
  if is_infinity x then inl OverflowError else inr x.

(** The conversion of a Python number that an operation with a [float]
    starts with; the operations hand it no tensor. *)
Definition as_float (a : number) : outcome spec_float :=
  match a with
  | PyInt z => float_of_int z
  | PyFloat x => inr x
  | Tensor x => inr x
  end.

(** The conversion of an operand of an operation with a [float32]
    tensor: an [int] must fit 64 bits, or [torch] refuses it, and is
    rounded to [float32]; a [float] is cast. *)
Definition as_float32 (a : number) : outcome spec_float :=
  match a with
  | PyInt z =>
      if ((- 2 ^ 63 <=? z) && (z <? 2 ^ 63))%Z then inr (Float32.of_int z)
      else inl (Base RuntimeError)
  | PyFloat x => inr (Float32.of_float64 x)
  | Tensor x => inr x
  end.

(** Both operands converted, the left one first, and [k] applied. *)
Definition convert2 (conv : number -> outcome spec_float) (a b : number)
    (k : spec_float -> spec_float -> outcome number) : outcome number :=
  match conv a with
  | inl e => inl e
  | inr x =>
      match conv b with
      | inl e => inl e
      | inr y => k x y
      end
  end.

(** [a * b] and [a + b]: exact on two [int]s, in [float32] when a tensor
    takes part, in [float] otherwise. The operation on floats does not
    raise: a result too large is an infinity. *)
Definition binop (on_int : Z -> Z -> Z)
    (on_float on_float32 : spec_float -> spec_float -> spec_float)
    (a b : number) : outcome number :=
  match a, b with
  | PyInt x, PyInt y => inr (PyInt (on_int x y))
  | _, _ =>
      if is_tensor a || is_tensor b
      then convert2 as_float32 a b (fun x y => inr (Tensor (on_float32 x y)))
      else convert2 as_float a b (fun x y => inr (PyFloat (on_float x y)))
  end.

Definition py_mul : number -> number -> outcome number :=
  binop Z.mul Float64.mul Float32.mul.

Definition py_add : number -> number -> outcome number :=
  binop Z.add Float64.add Float32.add.

(** The integer [z] as an operand of the division, all its digits kept. *)
Definition exact_int (z : Z) : spec_float :=
  match z with
  | Z0 => S754_zero false
  | Zpos p => S754_finite false p 0
  | Zneg p => S754_finite true p 0
  end.

(** [a / b] on two [int]s: the float nearest to the quotient. *)
Definition int_truediv (x y : Z) : outcome number :=
  if (y =? 0)%Z then inl (Base ZeroDivisionError)
  else if (x =? 0)%Z then inr (PyFloat (S754_zero (y <? 0)%Z))
  else
    let q := Float64.div (exact_int x) (exact_int y) in
    if is_infinity q then inl OverflowError else inr (PyFloat q).

(** [a / b]. With a tensor the division is that of [float32], where a
    zero divisor gives an infinity or a NaN and nothing is raised. Python's
    own division raises on a zero divisor, once the operands are
    converted. *)
Definition py_truediv (a b : number) : outcome number :=
  match a, b with
  | PyInt x, PyInt y => int_truediv x y
  | _, _ =>
      if is_tensor a || is_tensor b
      then convert2 as_float32 a b (fun x y => inr (Tensor (Float32.div x y)))
      else convert2 as_float a b
             (fun x y => if float_is_zero y then inl (Base ZeroDivisionError)
                         else inr (PyFloat (Float64.div x y)))
  end.

(** An expression evaluated in a computation: the state stays. *)
Definition eval {St A} (r : outcome A) : Run pyerror St A := fun s => (r, s).

Local Open Scope run_scope.

(** [res = []; for a in l: res.append(f(a))] *)
Fixpoint for_each {X St A B} (f : A -> Run X St B) (l : list A) : Run X St (list B) :=
  match l with
  | [] => run_ret []
  | a :: l' => b <- f a ;; bs <- for_each f l' ;; run_ret (b :: bs)
  end.

(** A computation that raises the exceptions of [exn] only. *)
Definition lift {St A} (c : Eff St A) : Run pyerror St A :=
  fun s =>
    match c s with
    | (inr a, s') => (inr a, s')
    | (inl e, s') => (inl (Base e), s')
    end.

(** ** AverageMeter *)

Module AverageMeter.

(** The object's [__dict__]: an attribute is there once it has been
    assigned. *)
Record t : Type := mk {
  name : string;
  fmt : string;
  val : option number;
  avg : option number;
  sum : option number;
  count : option number
}.

Definition set_val (x : number) (m : t) : t :=
  mk (name m) (fmt m) (Some x) (avg m) (sum m) (count m).
Definition set_avg (x : number) (m : t) : t :=
  mk (name m) (fmt m) (val m) (Some x) (sum m) (count m).
Definition set_sum (x : number) (m : t) : t :=
  mk (name m) (fmt m) (val m) (avg m) (Some x) (count m).
Definition set_count (x : number) (m : t) : t :=
  mk (name m) (fmt m) (val m) (avg m) (sum m) (Some x).

(** [self.a = x] *)
Definition setattr (set : number -> t -> t) (x : number) : Run pyerror t unit :=
  fun m => (inr tt, set x m).

(** [self.a] *)
Definition getattr (a : t -> option number) : Run pyerror t number :=
  fun m =>
    match a m with
    | Some x => (inr x, m)
    | None => (inl AttributeError, m)
    end.

(** [reset]: the four assignments, in the order of the source. *)
Definition reset : Run pyerror t unit :=
  setattr set_val (PyInt 0) ;;
  setattr set_avg (PyInt 0) ;;
  setattr set_sum (PyInt 0) ;;
  setattr set_count (PyInt 0).

(** The object when [__init__(name, fmt)] has assigned [name] and [fmt]
    and not yet called [reset]. *)
Definition blank (name fmt : string) : t := mk name fmt None None None None.

Definition init (name fmt : string) : t := snd (reset (blank name fmt)).

(** [update(val, n)]. [self.sum += val * n] reads [self.sum] before it
    multiplies. *)
Definition update (v n : number) : Run pyerror t unit :=
  setattr set_val v ;;
  s <- getattr sum ;;
  p <- eval (py_mul v n) ;;
  s' <- eval (py_add s p) ;;
  setattr set_sum s' ;;
  c <- getattr count ;;
  c' <- eval (py_add c n) ;;
  setattr set_count c' ;;
  s <- getattr sum ;;
  c <- getattr count ;;
  q <- eval (py_truediv s c) ;;
  setattr set_avg q.

(** [update(val)]: the default weight. *)
Definition update1 (v : number) : Run pyerror t unit := update v (PyInt 1).

End AverageMeter.

(** ** accuracy *)

Section Accuracy.

Context {TK : TopK}.
Variable St : Type.

(** [t.reshape(-1).float().sum(0, keepdim=True)]: the elements become
    the floats 1 and 0 and are added up in [float32], here from left to
    right. *)
Definition tensor_sum (t : list (list bool)) : spec_float :=
  fold_left Float32.add
    (map (fun b : bool => if b then Float32.of_int 1 else Float32.of_int 0) (concat t))
    (Float32.of_int 0).

(** [accuracy(output, target, topk)] with the numbers of the machine:
    [100.0 / batch_size] is a division of Python, [correct_k.mul_] a
    multiplication of [float32] by a scalar. The result holds the element
    of each tensor of one element. The scores are only compared with each
    other, by [topk], and stay the rationals that finite floats are. *)
Definition accuracy (output : Scores) (target : list nat) (topk : list nat)
  : Run pyerror St (list number) :=
  maxk <- lift (py_max topk) ;;
  let batch_size := length target in
  pred <- lift (tensor_topk maxk output) ;;
  let pred := transpose maxk pred in
  expanded <- lift (expand_as target maxk (length (rows output))) ;;
  let correct := tensor_eq pred expanded in
  for_each
    (fun k =>
       let correct_k := tensor_sum (firstn k correct) in
       scale <- eval (py_truediv (PyFloat (Float64.of_int 100)) (PyInt (Z.of_nat batch_size))) ;;
       eval (py_mul (Tensor correct_k) scale))
    topk.

End Accuracy.

End Machine.

(** ** The accuracy as a function of the count *)

(** [float32(100.0 / n)]: the scalar that [mul_] multiplies by. *)
Definition float32_scale (n : nat) : spec_float :=
  Float32.of_float64 (Float64.div (Float64.of_int 100) (Float64.of_int (Z.of_nat n))).

(** The [float32] product of a count [h] and the scalar for [n] examples. *)
Definition float32_rate (h n : nat) : spec_float :=
  Float32.mul (Float32.of_int (Z.of_nat h)) (float32_scale n).

(** The same float, constructor by constructor. *)
Definition same_float (x y : spec_float) : bool :=
  match x, y with
  | S754_zero a, S754_zero b => Bool.eqb a b
  | S754_infinity a, S754_infinity b => Bool.eqb a b
  | S754_nan, S754_nan => true
  | S754_finite a m e, S754_finite b n f => Bool.eqb a b && Pos.eqb m n && Z.eqb e f
  | _, _ => false
  end.

(** [x] is within [2^-16] of [100 * h / n], the accuracy in the words of
    the specification. *)
Definition near_rate (x : spec_float) (h n : nat) : bool :=
  Qle_bool
    (Qabs (float_value x - 100 * inject_Z (Z.of_nat h) / inject_Z (Z.of_nat n)))
    (1 # 65536).

(** Every count up to [n], for every batch size from 1 to [nmax], gives
    a product that is near the exact rate. *)
Definition rates_near (nmax : nat) : bool :=
  forallb
    (fun n =>
       let s := float32_scale n in
       forallb (fun h => near_rate (Float32.mul (Float32.of_int (Z.of_nat h)) s) h n)
               (seq 0 (S n)))
    (seq 1 nmax).

(** The batch sizes up to 128 for which the product of [n] and the
    scalar for [n] is not 100. *)
Definition inexact_batches : list nat := [45; 85; 90; 91; 93; 97; 99]%nat.

Definition full_rates_settled (nmax : nat) : bool :=
  forallb
    (fun n => Bool.eqb (same_float (float32_rate n n) (Float32.of_int 100))
                       (negb (existsb (Nat.eqb n) inexact_batches)))
    (seq 1 nmax).

(** ** Floats that need no rounding *)

(** [m] with [k] zero bits appended. *)
Definition shl (m : positive) (k : nat) : positive := Nat.iter k xO m.

(** The number one, its mantissa written with [k] zero bits. *)
Definition float_one (k : nat) : spec_float := S754_finite false (shl 1 k) (- Z.of_nat k).

(** The float of the integer [p] of at most [prec] binary digits. *)
Definition normal (prec : Z) (s : bool) (p : positive) : spec_float :=
  S754_finite s (shl p (Z.to_nat (prec - Zpos (digits2_pos p))))
    (Zpos (digits2_pos p) - prec).

(** [0.0 + x]: [x] itself, but for the zero that loses its sign. *)
Definition plus_zero (x : spec_float) : spec_float :=
  match x with
  | S754_zero _ => S754_zero false
  | _ => x
  end.

(** 0.1, the float. *)
Definition tenth : spec_float := S754_finite false 7205759403792794 (-56).

(** Three examples over two classes that all score class 0 highest. *)
Definition three_rows : Scores := mkScores 2 [[1; 0]; [1; 0]; [1; 0]].

(** Forty-five examples over one class. *)
Definition one_class_batch : Scores := mkScores 1 (repeat [0] 45).

(** * Properties *)

(** ** AverageMeter *)

Module AverageMeterFacts.

Import AverageMeter.

Lemma reset_run (m : t) :
  reset m = (inr tt, mk (name m) (fmt m) 0 0 0 0).
Proof. destruct m; reflexivity. Qed.

Lemma init_fields (n f : string) : init n f = mk n f 0 0 0 0.
Proof. reflexivity. Qed.

(** What one [update] leaves behind, on both outcomes. *)
Lemma update_run (v n : Q) (m : t) :
  update v n m =
    if Qeq_bool (count m + n) 0
    then (inl ZeroDivisionError, mk (name m) (fmt m) v (avg m) (sum m + v * n) (count m + n))
    else (inr tt, mk (name m) (fmt m) v ((sum m + v * n) / (count m + n))
                    (sum m + v * n) (count m + n)).
Proof.
  destruct m as [nm f v0 a s c].
  unfold update, bind, modify, get, py_truediv; simpl.
  destruct (Qeq_bool (c + n) 0); reflexivity.
Qed.

(** The running mean of the specification's test list: 2 then 4, each
    with weight 1, average 3. *)
Example update_twice_average :
  avg (snd (update 4 1 (snd (update 2 1 (init "Loss" ":2.3f"))))) == 3.
Proof. reflexivity. Qed.

End AverageMeterFacts.

(** ** String formatting *)

Module PyStrFacts.

Import PyStr.
Local Open Scope string_scope.

Lemma append_assoc (a b c : string) : (a ++ b) ++ c = a ++ (b ++ c).
Proof. induction a as [| x a IH]; simpl; [reflexivity | now rewrite IH]. Qed.

Lemma append_empty_r (a : string) : a ++ EmptyString = a.
Proof. induction a as [| x a IH]; simpl; [reflexivity | now rewrite IH]. Qed.

Lemma length_append (a b : string) :
  String.length (a ++ b) = (String.length a + String.length b)%nat.
Proof. induction a as [| x a IH]; simpl; [reflexivity | now rewrite IH]. Qed.

Lemma of_list_app (l1 l2 : list ascii) :
  string_of_list_ascii (l1 ++ l2) = string_of_list_ascii l1 ++ string_of_list_ascii l2.
Proof. induction l1 as [| x l1 IH]; simpl; [reflexivity | now rewrite IH]. Qed.

Lemma length_of_list (l : list ascii) :
  String.length (string_of_list_ascii l) = length l.
Proof. induction l as [| x l IH]; simpl; [reflexivity | now rewrite IH]. Qed.

Lemma to_list_app (a b : string) :
  list_ascii_of_string (a ++ b) = (list_ascii_of_string a ++ list_ascii_of_string b)%list.
Proof. induction a as [| x a IH]; simpl; [reflexivity | now rewrite IH]. Qed.

(** *** Decimal digits *)

Ltac digit_cases d H :=
  do 10 (destruct d as [| d]; [try reflexivity; try (exfalso; lia) |]);
  exfalso; lia.

Lemma digit_val_char (d : nat) : (d < 10)%nat -> digit_val (digit_char d) = Some d.
Proof. intros H. digit_cases d H. Qed.

Lemma digit_char_not_d (d : nat) : (d < 10)%nat -> Ascii.eqb (digit_char d) "d" = false.
Proof. intros H. digit_cases d H. Qed.

Lemma digit_char_not_open (d : nat) : (d < 10)%nat -> Ascii.eqb (digit_char d) "{" = false.
Proof. intros H. digit_cases d H. Qed.

Lemma digit_char_not_close (d : nat) : (d < 10)%nat -> Ascii.eqb (digit_char d) "}" = false.
Proof. intros H. digit_cases d H. Qed.

Lemma digit_char_not_zero (d : nat) :
  (0 < d < 10)%nat -> Ascii.eqb (digit_char d) "0" = false.
Proof. intros H. digit_cases d H. Qed.

Lemma digits_S (f n : nat) :
  digits (S f) n = if (n <? 10)%nat then [n] else (digits f (n / 10) ++ [n mod 10])%list.
Proof. reflexivity. Qed.

(** With enough fuel the digits are decimal digits, denote [n], are not
    empty, and for a positive [n] start with a non-zero digit and are as
    many as the magnitude of [n] asks for. *)
Lemma digits_spec (f : nat) : forall n, (n < f)%nat ->
  Forall (fun d => (d < 10)%nat) (digits f n) /\
  value (digits f n) 0 = n /\
  digits f n <> [] /\
  ((0 < n)%nat ->
   (0 < hd O (digits f n))%nat /\
   (10 ^ (length (digits f n) - 1) <= n < 10 ^ length (digits f n))%nat).
Proof.
  induction f as [| f IH]; intros n Hn; [lia |].
  rewrite digits_S. destruct (Nat.ltb_spec n 10) as [Hlt | Hge].
  - repeat split; simpl; try lia; try discriminate.
    constructor; [exact Hlt | constructor].
  - assert (Hdm : n = (10 * (n / 10) + n mod 10)%nat) by apply Nat.div_mod_eq.
    assert (Hm : (n mod 10 < 10)%nat) by (apply Nat.mod_upper_bound; lia).
    assert (Hq : (0 < n / 10)%nat) by (apply Nat.div_str_pos; lia).
    assert (Hqf : (n / 10 < f)%nat) by lia.
    destruct (IH (n / 10)%nat Hqf) as (Hall & Hval & Hne & Hpos).
    destruct (Hpos Hq) as (Hhd & Hlo & Hhi).
    repeat split.
    + apply Forall_app. split; [exact Hall | constructor; [exact Hm | constructor]].
    + unfold value in *. rewrite fold_left_app. cbn [fold_left]. rewrite Hval. lia.
    + destruct (digits f (n / 10)); [contradiction | discriminate].
    + destruct (digits f (n / 10)); [contradiction | exact Hhd].
    + rewrite length_app. cbn [length].
      destruct (length (digits f (n / 10))) as [| k] eqn:Hk.
      * destruct (digits f (n / 10)); [contradiction | discriminate].
      * cbn [Nat.sub] in Hlo. rewrite Nat.sub_0_r in Hlo.
        replace (S k + 1 - 1)%nat with (S k) by lia.
        rewrite Nat.pow_succ_r'. lia.
    + rewrite length_app. cbn [length]. rewrite Nat.add_1_r, Nat.pow_succ_r'. lia.
Qed.

Lemma str_nat_length (n : nat) : (0 < n)%nat ->
  (10 ^ (String.length (str_nat n) - 1) <= n < 10 ^ String.length (str_nat n))%nat.
Proof.
  intros Hn. unfold str_nat. rewrite length_of_list, length_map.
  destruct (digits_spec (n := n) (f := S n)) as (_ & _ & _ & H); [lia |].
  apply H. exact Hn.
Qed.

Lemma str_nat_length_pos (n : nat) : (0 < String.length (str_nat n))%nat.
Proof.
  unfold str_nat. rewrite length_of_list, length_map.
  destruct (digits_spec (n := n) (f := S n)) as (_ & _ & H & _); [lia |].
  destruct (digits (S n) n); [contradiction | simpl; lia].
Qed.

Lemma str_of_nat (n : nat) : str (Z.of_nat n) = str_nat n.
Proof.
  unfold str. destruct (Z.of_nat n) eqn:E; try lia; rewrite <- E, Nat2Z.id; reflexivity.
Qed.

(** *** Characters that the scanner of [format] copies *)

Lemma plain_append (a b : string) :
  plain_string a -> plain_string b -> plain_string (a ++ b).
Proof. unfold plain_string. rewrite to_list_app. intros. apply Forall_app. now split. Qed.

Lemma plain_digits (ds : list nat) :
  Forall (fun d => (d < 10)%nat) ds ->
  plain_string (string_of_list_ascii (map digit_char ds)).
Proof.
  unfold plain_string. rewrite list_ascii_of_string_of_list_ascii.
  induction 1 as [| d ds Hd _ IH]; simpl; constructor; [| exact IH].
  split; [now apply digit_char_not_open | now apply digit_char_not_close].
Qed.

Lemma plain_str_nat (n : nat) : plain_string (str_nat n).
Proof.
  apply plain_digits.
  destruct (digits_spec (n := n) (f := S n)) as (H & _); [lia | exact H].
Qed.

Lemma plain_str (z : Z) : plain_string (str z).
Proof.
  destruct z; simpl; try apply plain_str_nat.
  apply (plain_append (a := "-")); [| apply plain_str_nat].
  repeat constructor.
Qed.

(** *** The scanner *)

Lemma format_from_plain {St} (lit : string) :
  plain_string lit -> forall s args (st : St),
  format_from (lit ++ s) None args st =
    match format_from s None args st with
    | (inr r, st') => (inr (lit ++ r), st')
    | (inl e, st') => (inl e, st')
    end.
Proof.
  unfold plain_string.
  induction lit as [| c lit IH]; intros Hp s args st.
  - cbn [append]. destruct (format_from s None args st) as [[e | r] st']; reflexivity.
  - cbn [list_ascii_of_string] in Hp. inversion Hp as [| ? ? [Ho Hc] Hp']; subst.
    cbn [append format_from]. rewrite Ho, Hc. unfold bind at 1.
    rewrite (IH Hp').
    destruct (format_from s None args st) as [[e | r] st']; reflexivity.
Qed.

Lemma format_from_field {St} (body : string) :
  Forall (fun c => Ascii.eqb c "}" = false) (list_ascii_of_string body) ->
  forall f s a args (st : St),
  format_from (body ++ String "}" s) (Some f) (a :: args) st =
    (piece <- format_field (f ++ body) a ;;
     rest <- format_from s None args ;;
     ret (piece ++ rest))%eff st.
Proof.
  induction body as [| c body IH]; intros Hp f s a args st.
  - cbn [append format_from]. rewrite Ascii.eqb_refl, append_empty_r. reflexivity.
  - cbn [list_ascii_of_string] in Hp. inversion Hp as [| ? ? Hc Hp']; subst.
    cbn [append format_from]. rewrite Hc. rewrite (IH Hp').
    rewrite append_assoc. reflexivity.
Qed.

Lemma parse_width_digits (ds : list nat) :
  Forall (fun d => (d < 10)%nat) ds -> forall acc,
  parse_width_d acc (string_of_list_ascii (map digit_char ds) ++ "d") = Some (value ds acc).
Proof.
  induction 1 as [| d ds Hd _ IH]; intros acc.
  - reflexivity.
  - cbn [map string_of_list_ascii append parse_width_d].
    rewrite (digit_char_not_d Hd), (digit_val_char Hd). apply IH.
Qed.

(** A width that [str] wrote is read back, and selects space filling. *)
Lemma format_int_width {St} (w : nat) (z : Z) (st : St) :
  (0 < w)%nat ->
  format_int (str_nat w ++ "d") z st = (inr (rjust " " w (str z)), st).
Proof.
  intros Hw. unfold str_nat.
  destruct (digits_spec (n := w) (f := S w)) as (Hall & Hval & Hne & Hpos); [lia |].
  destruct (Hpos Hw) as (Hhd & _).
  pose proof (parse_width_digits Hall 0) as Hparse.
  destruct (digits (S w) w) as [| d ds]; [contradiction |].
  cbn [hd] in Hhd. pose proof (Forall_inv Hall) as Hd.
  cbn [map string_of_list_ascii append] in *.
  unfold format_int. rewrite digit_char_not_zero by lia.
  rewrite Hparse, Hval. reflexivity.
Qed.

Lemma str_nat_no_close (n : nat) :
  Forall (fun c => Ascii.eqb c "}" = false) (list_ascii_of_string (str_nat n)).
Proof.
  pose proof (plain_str_nat n) as H. unfold plain_string in H.
  eapply Forall_impl; [| exact H]. intros c [_ Hc]. exact Hc.
Qed.

(** The replacement field that [_get_batch_fmtstr] writes. *)
Lemma format_width_field {St} (w : nat) (tail : string) (a : Z) (args : list Z) (st : St) :
  (0 < w)%nat ->
  format_from ("{:" ++ str_nat w ++ String "d" (String "}" tail)) None (a :: args) st =
    match format_from tail None args st with
    | (inr r, st') => (inr (rjust " " w (str a) ++ r), st')
    | (inl e, st') => (inl e, st')
    end.
Proof.
  intros Hw.
  assert (Hbody : Forall (fun c => Ascii.eqb c "}" = false)
                    (list_ascii_of_string (str_nat w ++ "d"))).
  { rewrite to_list_app. apply Forall_app. split; [apply str_nat_no_close |].
    repeat constructor. }
  change ("{:" ++ str_nat w ++ String "d" (String "}" tail))
    with (String "{" (String ":" (str_nat w ++ String "d" (String "}" tail)))).
  cbn [format_from].
  change (Ascii.eqb "{" "{") with true. change (Ascii.eqb ":" "{") with false.
  change (Ascii.eqb ":" "}") with false. cbv iota. cbn [append].
  replace (str_nat w ++ String "d" (String "}" tail))
    with ((str_nat w ++ "d") ++ String "}" tail)
    by (rewrite append_assoc; reflexivity).
  rewrite (format_from_field _ Hbody). cbn [append].
  unfold bind at 1. unfold format_field.
  change (Ascii.eqb ":" ":") with true. cbv iota.
  rewrite (format_int_width _ _ Hw). unfold bind.
  destruct (format_from tail None args st) as [[e | r] st']; reflexivity.
Qed.

End PyStrFacts.

(** ** ProgressMeter *)

Module ProgressMeterFacts.

Import PyStr PyStrFacts ProgressMeter.
Local Open Scope string_scope.

Lemma str_length_pos (z : Z) : (0 < String.length (str z))%nat.
Proof.
  destruct z; cbn [str]; try apply str_nat_length_pos.
  rewrite length_append. cbn [String.length]. lia.
Qed.

Lemma rjust_length (c : ascii) (w : nat) (s : string) :
  String.length (rjust c w s) = Nat.max w (String.length s).
Proof.
  unfold rjust. rewrite length_append, length_of_list, repeat_length. lia.
Qed.

Lemma rjust_exact (c : ascii) (s : string) : rjust c (String.length s) s = s.
Proof. unfold rjust. rewrite Nat.sub_diag. reflexivity. Qed.

(** The format string that the constructor stores. *)
Lemma get_batch_fmtstr_run {St} (total : Z) (st : St) :
  _get_batch_fmtstr total st =
    (inr ("[" ++ ("{:" ++ str_nat (String.length (str total)) ++ "d}")
              ++ "/" ++ str total ++ "]"), st).
Proof.
  unfold _get_batch_fmtstr. rewrite Z.div_1_r, str_of_nat.
  unfold bind, format.
  rewrite (format_width_field EmptyString total [] st (str_length_pos total)).
  cbn [format_from ret]. rewrite append_empty_r, rjust_exact. reflexivity.
Qed.

Lemma counter_run {St R} (total batch : Z) (ms : list R) (p : string) (st : St) :
  counter
    (mk ("[" ++ ("{:" ++ str_nat (String.length (str total)) ++ "d}")
             ++ "/" ++ str total ++ "]") ms p) batch st =
    (inr ("[" ++ rjust " " (String.length (str total)) (str batch)
              ++ "/" ++ str total ++ "]"), st).
Proof.
  unfold counter, format. cbn [batch_fmtstr].
  assert (Hopen : plain_string "[") by (repeat constructor).
  assert (Htail : plain_string ("/" ++ str total ++ "]")).
  { apply (plain_append (a := "/")); [repeat constructor |].
    apply plain_append; [apply plain_str | repeat constructor]. }
  rewrite (format_from_plain Hopen).
  replace (("{:" ++ str_nat (String.length (str total)) ++ "d}")
             ++ "/" ++ str total ++ "]")
    with ("{:" ++ str_nat (String.length (str total))
               ++ String "d" (String "}" ("/" ++ str total ++ "]")))
    by (rewrite !append_assoc; reflexivity).
  rewrite (format_width_field _ batch [] st (str_length_pos total)).
  rewrite <- (append_empty_r ("/" ++ str total ++ "]")) at 1.
  rewrite (format_from_plain Htail). cbn [format_from ret].
  rewrite append_empty_r. reflexivity.
Qed.

Lemma init_run {St R} (total : Z) (ms : list R) (p : string) (st : St) :
  init total ms p st =
    (inr (mk ("[" ++ ("{:" ++ str_nat (String.length (str total)) ++ "d}")
                  ++ "/" ++ str total ++ "]") ms p), st).
Proof. unfold init, bind. rewrite get_batch_fmtstr_run. reflexivity. Qed.

(** C3, as it stands, fails: the counter for 7 of 100 is not the
    zero-padded one. *)
Lemma progress_counter_not_zero_padded :
  fst ((pm <- init 100 (@nil meter_ref) "Test: " ;; counter pm 7)%eff tt) <>
    inr ("[" ++ zero_fill 3 7 ++ "/" ++ str 100 ++ "]").
Proof. vm_compute. discriminate. Qed.

(** C3, amended. For a total of at least 1 and any batch index the
    counter that [display] puts after the prefix, at the head of the line
    it prints, is [[batch_index/total]] with the index right-aligned and
    padded with spaces, not zeros, to the number of decimal digits of the
    total; for 7 of 100 it is exactly [[  7/100]]. *)
Theorem progress_counter_space_padded {St R} (total batch : Z) (ms : list R)
    (p : string) (st : St) :
  (1 <= total)%Z ->
  let w := String.length (str total) in
  (10 ^ (w - 1) <= Z.to_nat total < 10 ^ w)%nat /\
  (exists pm,
      init total ms p st = (inr pm, st) /\
      counter pm batch st =
        (inr ("[" ++ rjust " " w (str batch) ++ "/" ++ str total ++ "]"), st) /\
      forall (to_str : R -> Eff St string) (print : string -> Eff St unit),
        display to_str print pm batch st =
          (strs <- for_each to_str ms ;;
           print (String.concat tab
                    ((p ++ "[" ++ rjust " " w (str batch) ++ "/" ++ str total ++ "]")
                       :: strs)))%eff st) /\
  String.length (rjust " " w (str batch)) = Nat.max w (String.length (str batch)) /\
  fst ((pm <- init 100 ms p ;; counter pm 7)%eff st) = inr "[  7/100]".
Proof.
  intros Htotal w. split; [| split; [| split]].
  - subst w. destruct total as [| q |]; try lia. cbn [str].
    apply str_nat_length. lia.
  - eexists. split; [apply init_run | split; [apply counter_run |]].
    intros to_str print. unfold display. unfold bind at 1.
    rewrite counter_run. reflexivity.
  - apply rjust_length.
  - unfold bind. rewrite init_run, counter_run. reflexivity.
Qed.

Lemma progress_counter_space_padded_witness :
  exists pm,
    init 100 [Top1; Top5] "Test: " tt = (inr pm, tt) /\
    counter pm 7 tt = (inr "[  7/100]", tt).
Proof.
  destruct (@progress_counter_space_padded unit meter_ref 100 7 [Top1; Top5] "Test: " tt)
    as (_ & (pm & Hinit & Hcounter & _) & _); [lia |].
  exists pm. split; [exact Hinit | exact Hcounter].
Defined.

End ProgressMeterFacts.

(** ** accuracy *)

Module AccuracyFacts.

(** *** Counting in the transposed table of comparisons *)

Lemma list_sum_map_add {A} (g h : A -> nat) (l : list A) :
  list_sum (map (fun x => g x + h x)%nat l) = (list_sum (map g l) + list_sum (map h l))%nat.
Proof. induction l as [| x l IH]; simpl; [reflexivity | rewrite IH; lia]. Qed.

Lemma list_sum_cons (x : nat) (l : list nat) : list_sum (x :: l) = (x + list_sum l)%nat.
Proof. reflexivity. Qed.

Lemma list_sum_swap {A B} (f : A -> B -> nat) (la : list A) (lb : list B) :
  list_sum (map (fun a => list_sum (map (f a) lb)) la) =
  list_sum (map (fun b => list_sum (map (fun a => f a b) la)) lb).
Proof.
  induction la as [| a la IH]; simpl.
  - induction lb; simpl; auto.
  - rewrite IH, <- list_sum_map_add. reflexivity.
Qed.

Lemma filter_length_sum {A} (f : A -> bool) (l : list A) :
  length (filter f l) = list_sum (map (fun x => Nat.b2n (f x)) l).
Proof.
  induction l as [| x l IH]; simpl; [reflexivity |].
  destruct (f x); simpl; rewrite IH; reflexivity.
Qed.

Lemma filter_concat_length {A} (f : A -> bool) (ll : list (list A)) :
  length (filter f (concat ll)) = list_sum (map (fun l => length (filter f l)) ll).
Proof.
  induction ll as [| l ll IH]; simpl; [reflexivity |].
  rewrite filter_app, length_app, IH. reflexivity.
Qed.

Lemma firstn_seq_le (k n s : nat) : (k <= n)%nat -> firstn k (seq s n) = seq s k.
Proof.
  revert n s. induction k as [| k IH]; intros n s Hk; [reflexivity |].
  destruct n as [| n]; [lia |]. simpl. f_equal. apply IH. lia.
Qed.

Lemma NoDup_firstn {A} (k : nat) (l : list A) : NoDup l -> NoDup (firstn k l).
Proof.
  intros H. rewrite <- (firstn_skipn k l) in H.
  apply NoDup_app_remove_r in H. exact H.
Qed.

Lemma in_firstn {A} (k : nat) (l : list A) (x : A) : In x (firstn k l) -> In x l.
Proof.
  intros H. rewrite <- (firstn_skipn k l). apply in_or_app. left. exact H.
Qed.

(** A comparison row of the table, read off the examples. *)
Lemma tensor_eq_rows {A} (f : A -> list nat) (t : list nat) (l : list A) :
  tensor_eq (map f l) (repeat t (length l)) =
  map (fun a => map (fun '(x, y) => Nat.eqb x y) (combine (f a) t)) l.
Proof.
  unfold tensor_eq. induction l as [| a l IH]; simpl; [reflexivity |].
  f_equal. exact IH.
Qed.

Lemma eq_row_count (j : nat) (preds : list (list nat)) (target : list nat) :
  length (filter (fun b : bool => b)
            (map (fun '(x, y) => Nat.eqb x y)
                 (combine (map (fun r => nth j r O) preds) target))) =
  list_sum (map (fun pt => Nat.b2n (Nat.eqb (nth j (fst pt) O) (snd pt)))
                (combine preds target)).
Proof.
  revert target. induction preds as [| p preds IH]; intros target; [reflexivity |].
  destruct target as [| t target]; [reflexivity |]. simpl.
  destruct (Nat.eqb (nth j p O) t); simpl; rewrite IH; reflexivity.
Qed.

(** Along one ranking, the comparisons with the label that come out
    equal are the occurrences of the label. *)
Lemma count_row (t : nat) (p : list nat) : forall k, (k <= length p)%nat ->
  list_sum (map (fun j => Nat.b2n (Nat.eqb (nth j p O) t)) (seq 0 k)) =
  count_occ Nat.eq_dec (firstn k p) t.
Proof.
  induction p as [| x p IH]; intros k Hk.
  - simpl in Hk. replace k with O by lia. reflexivity.
  - destruct k as [| k]; [reflexivity |].
    simpl in Hk. cbn [seq]. rewrite <- seq_shift, map_cons, map_map.
    rewrite list_sum_cons. cbn [firstn nth]. rewrite (IH k) by lia.
    cbn [count_occ]. destruct (Nat.eq_dec x t) as [-> | Hne].
    + rewrite Nat.eqb_refl. reflexivity.
    + apply Nat.eqb_neq in Hne. rewrite Hne. reflexivity.
Qed.

Lemma count_occ_nodup (t : nat) (l : list nat) :
  NoDup l -> count_occ Nat.eq_dec l t = Nat.b2n (existsb (Nat.eqb t) l).
Proof.
  induction 1 as [| x l Hx _ IH]; [reflexivity |].
  cbn [count_occ existsb]. destruct (Nat.eq_dec x t) as [-> | Hne].
  - rewrite Nat.eqb_refl. cbn [orb Nat.b2n]. f_equal.
    apply count_occ_not_In. exact Hx.
  - rewrite IH. replace (Nat.eqb t x) with false; [reflexivity |].
    symmetry. apply Nat.eqb_neq. congruence.
Qed.


(** The trues in the first [k] rows of the table are, example by
    example, the occurrences of the label among the first [k] entries of
    the example's ranking. *)
Lemma correct_count (preds : list (list nat)) (target : list nat) (maxk k : nat) :
  (k <= maxk)%nat ->
  Forall (fun p => length p = maxk) preds ->
  length (filter (fun b : bool => b)
            (concat (firstn k (tensor_eq (transpose maxk preds) (repeat target maxk))))) =
  list_sum (map (fun pt => count_occ Nat.eq_dec (firstn k (fst pt)) (snd pt))
                (combine preds target)).
Proof.
  intros Hk Hlen. unfold transpose.
  rewrite <- (length_seq maxk 0) at 2. rewrite tensor_eq_rows.
  rewrite firstn_map, firstn_seq_le by exact Hk.
  rewrite filter_concat_length, map_map.
  rewrite (map_ext _ _ (fun j => eq_row_count j preds target)).
  rewrite list_sum_swap. f_equal.
  apply map_ext_in. intros [p t] Hin. cbn [fst snd].
  apply count_row. apply in_combine_l in Hin.
  rewrite Forall_forall in Hlen. rewrite (Hlen p Hin). exact Hk.
Qed.

(** *** Running [accuracy] *)

Lemma fold_max_ge (l : list nat) : forall a,
  (a <= fold_left Nat.max l a)%nat /\
  Forall (fun k => (k <= fold_left Nat.max l a)%nat) l.
Proof.
  induction l as [| x l IH]; intros a; simpl; [split; [lia | constructor] |].
  destruct (IH (Nat.max a x)) as [H1 H2]. split; [lia |].
  constructor; [lia | exact H2].
Qed.

Lemma fold_max_le (c : nat) (l : list nat) : forall a,
  (a <= c)%nat -> Forall (fun k => (k <= c)%nat) l -> (fold_left Nat.max l a <= c)%nat.
Proof.
  induction l as [| x l IH]; intros a Ha Hl; simpl; [exact Ha |].
  inversion Hl; subst. apply IH; [lia | assumption].
Qed.

Lemma requested_max_ge (ks : list nat) :
  Forall (fun k => (k <= requested_max ks)%nat) ks.
Proof.
  destruct ks as [| k ks]; [constructor |]. unfold requested_max. cbn [hd tl].
  destruct (fold_max_ge ks k) as [H1 H2]. constructor; assumption.
Qed.

Lemma requested_max_le (c : nat) (ks : list nat) :
  Forall (fun k => (k <= c)%nat) ks -> (requested_max ks <= c)%nat.
Proof.
  destruct ks as [| k ks]; intros H; [cbn; lia |].
  inversion H; subst. unfold requested_max. cbn [hd tl]. now apply fold_max_le.
Qed.

Lemma for_each_pure {St A B} (f : A -> B) (g : A -> Eff St B) (l : list A) (st : St) :
  (forall a, In a l -> g a st = (inr (f a), st)) ->
  for_each g l st = (inr (map f l), st).
Proof.
  induction l as [| a l IH]; intros H; [reflexivity |].
  cbn [for_each map]. unfold bind at 1. rewrite (H a (or_introl eq_refl)).
  unfold bind at 1. rewrite IH; [reflexivity |].
  intros b Hb. apply H. right. exact Hb.
Qed.

Lemma positive_not_zero (n : nat) : (0 < n)%nat -> ~ inject_Z (Z.of_nat n) == 0.
Proof. intros Hn. unfold Qeq, inject_Z. cbn [Qnum Qden]. lia. Qed.

Lemma combine_map_l {A B C} (f : A -> B) (l : list A) (l' : list C) :
  combine (map f l) l' = map (fun p => (f (fst p), snd p)) (combine l l').
Proof.
  revert l'. induction l as [| a l IH]; intros [| c l']; simpl; try reflexivity.
  f_equal. apply IH.
Qed.

Lemma filter_all {A} (f : A -> bool) (l : list A) :
  (forall x, In x l -> f x = true) -> filter f l = l.
Proof.
  induction l as [| x l IH]; intros H; [reflexivity |]. cbn [filter].
  rewrite (H x (or_introl eq_refl)). f_equal. apply IH. intros y Hy. apply H. now right.
Qed.



Lemma Forall2_map_r {A B} (R : A -> B -> Prop) (f : A -> B) (l : list A) :
  (forall a, In a l -> R a (f a)) -> Forall2 R l (map f l).
Proof.
  induction l as [| a l IH]; intros H; [constructor |].
  constructor; [apply H; now left | apply IH; intros b Hb; apply H; now right].
Qed.

Lemma Forall2_impl_in {A B} (R1 R2 : A -> B -> Prop) (l : list A) (l' : list B) :
  (forall a b, In a l -> R1 a b -> R2 a b) -> Forall2 R1 l l' -> Forall2 R2 l l'.
Proof.
  intros H H12. induction H12 as [| a b l l' Hab _ IH]; constructor.
  - apply H; [now left | exact Hab].
  - apply IH. intros a' b' Ha'. apply H. now right.
Qed.

(** In a ranking that is best first, an entry among the first [k]
    scores no less than an entry further down. *)
Lemma firstn_dominates (row : list Q) (l : list nat) (k : nat) :
  descending row l ->
  forall i j, In i (firstn k l) -> In j l -> ~ In j (firstn k l) ->
              score row j <= score row i.
Proof.
  intros Hdesc i j Hi Hj Hnj.
  destruct (In_nth _ _ O Hi) as (a & Ha & Hnth).
  rewrite length_firstn in Ha. rewrite nth_firstn in Hnth.
  assert (Hak : (a <? k)%nat = true) by (apply Nat.ltb_lt; lia).
  rewrite Hak in Hnth. subst i.
  rewrite <- (firstn_skipn k l) in Hj. apply in_app_or in Hj.
  destruct Hj as [Hj | Hj]; [contradiction |].
  destruct (In_nth _ _ O Hj) as (b & Hb & Hnthb).
  rewrite nth_skipn in Hnthb. rewrite length_skipn in Hb. subst j.
  apply Hdesc; lia.
Qed.

Lemma descending_firstn (row : list Q) (l : list nat) (k : nat) :
  descending row l -> descending row (firstn k l).
Proof.
  intros Hdesc a b Hab Hb. rewrite length_firstn in Hb. rewrite !nth_firstn.
  assert (Hak : (a <? k)%nat = true) by (apply Nat.ltb_lt; lia).
  assert (Hbk : (b <? k)%nat = true) by (apply Nat.ltb_lt; lia).
  rewrite Hak, Hbk. apply Hdesc; lia.
Qed.

Section Run.

Context {TK : TopK}.
Variable St : Type.

Lemma accuracy_run (output : Scores) (target ks : list nat) (st : St) :
  ks <> [] ->
  (requested_max ks <= classes output)%nat ->
  length target = length (rows output) ->
  (0 < length target)%nat ->
  accuracy output target ks st =
    (inr (map (fun k =>
                 tensor_sum (firstn k (correct output target (requested_max ks)))
                 * (100 / inject_Z (Z.of_nat (length target)))) ks), st).
Proof.
  intros Hks Hmax Hlen Hpos. unfold accuracy.
  destruct ks as [| k0 ks']; [contradiction |].
  unfold bind at 1. cbn [py_max ret].
  change (fold_left Nat.max ks' k0) with (requested_max (k0 :: ks')).
  set (maxk := requested_max (k0 :: ks')) in *.
  unfold bind at 1. unfold tensor_topk.
  apply Nat.leb_le in Hmax. rewrite Hmax. cbn [ret].
  unfold bind at 1. unfold expand_as.
  rewrite Hlen, Nat.eqb_refl. cbn [ret]. rewrite <- Hlen.
  apply for_each_pure. intros k _.
  unfold bind, py_truediv.
  destruct (Qeq_bool (inject_Z (Z.of_nat (length target))) 0) eqn:Hz; [| reflexivity].
  apply Qeq_bool_eq in Hz. exfalso. revert Hz. now apply positive_not_zero.
Qed.

Hypothesis contract : topk_contract TK.

Lemma correct_hits (output : Scores) (target : list nat) (maxk k : nat) :
  wf_scores output ->
  (maxk <= classes output)%nat ->
  (k <= maxk)%nat ->
  length (filter (fun b : bool => b) (concat (firstn k (correct output target maxk)))) =
  hits maxk k output target.
Proof.
  intros Hwf Hmax Hk. unfold correct, hits.
  assert (Htop : forall row, In row (rows output) -> is_top_k row maxk (topk_row maxk row)).
  { intros row Hin. apply contract.
    unfold wf_scores in Hwf. rewrite Forall_forall in Hwf. rewrite (Hwf row Hin).
    exact Hmax. }
  rewrite correct_count; [| exact Hk |].
  - rewrite combine_map_l, map_map, filter_length_sum. f_equal.
    apply map_ext_in. intros [row t] Hin. cbn [fst snd]. unfold hit. cbn [fst snd].
    apply count_occ_nodup. apply NoDup_firstn.
    apply in_combine_l in Hin. apply (Htop row Hin).
  - apply Forall_forall. intros p Hp. apply in_map_iff in Hp.
    destruct Hp as (row & <- & Hin). apply (Htop row Hin).
Qed.


(** The first [k] entries of a ranking of length [maxk] are [k]
    highest-scoring classes, whatever the order among equal scores. *)
Lemma firstn_is_top_k (row : list Q) (maxk k : nat) :
  (k <= maxk)%nat -> (maxk <= length row)%nat ->
  is_top_k row k (firstn k (topk_row maxk row)).
Proof.
  intros Hk Hmax.
  destruct (@contract maxk row Hmax) as ((Hlen & Hnd & Hrange & Hdom) & Hdesc).
  set (p := topk_row maxk row) in *.
  assert (Hlk : length (firstn k p) = k) by (rewrite length_firstn; lia).
  repeat split.
  - exact Hlk.
  - now apply NoDup_firstn.
  - intros i Hi. apply Hrange. eapply in_firstn. exact Hi.
  - intros i j Hi Hj Hnj.
    destruct (in_dec Nat.eq_dec j p) as [Hin | Hout].
    + now apply (firstn_dominates k Hdesc i j).
    + apply Hdom; try assumption. eapply in_firstn. exact Hi.
Qed.

(** With all the classes requested every valid label is found. *)
Lemma all_classes_hit (output : Scores) (target : list nat) :
  wf_scores output ->
  Forall (fun l => (l < classes output)%nat) target ->
  hits (classes output) (classes output) output target =
  length (combine (rows output) target).
Proof.
  intros Hwf Hvalid. unfold hits. f_equal. apply filter_all.
  intros [row t] Hin. unfold hit. cbn [fst snd].
  pose proof (in_combine_l _ _ _ _ Hin) as Hrow.
  pose proof (in_combine_r _ _ _ _ Hin) as Ht.
  unfold wf_scores in Hwf. rewrite Forall_forall in Hwf, Hvalid.
  specialize (Hwf row Hrow). specialize (Hvalid t Ht).
  assert (Hle : (classes output <= length row)%nat) by lia.
  destruct (@contract (classes output) row Hle) as ((Hlen & Hnd & Hrange & _) & _).
  rewrite firstn_all2 by lia.
  apply existsb_exists. exists t. split; [| apply Nat.eqb_refl].
  apply (NoDup_length_incl Hnd (l' := seq 0 (classes output))).
  - rewrite length_seq. lia.
  - intros i Hi. apply in_seq. specialize (Hrange i Hi). lia.
  - apply in_seq. lia.
Qed.




End Run.

(** C7, as it stands, fails: on an empty batch over five classes, top-1
    and top-5 requested, what [accuracy] raises is the division by zero,
    no invalid-argument exception. *)
Lemma accuracy_empty_batch_not_invalid_argument :
  ~ exists e,
      fst (accuracy (TK := topk_stable) (mkScores 5 []) [] [1; 5]%nat tt) = inl e /\
      invalid_argument e = true.
Proof. intros (e & He & Hinv). vm_compute in He. injection He as <-. discriminate Hinv. Qed.

(** C7, amended. With no examples (an empty label vector) [accuracy]
    raises instead of returning; when the scores are empty too and the
    requested values are within the class count, what it raises is the
    division by zero of [100.0 / batch_size]. *)
Theorem accuracy_empty_batch_raises {TK : TopK} {St} (output : Scores) (ks : list nat)
    (st : St) :
  (exists e, accuracy output [] ks st = (inl e, st)) /\
  (rows output = [] -> ks <> [] -> (requested_max ks <= classes output)%nat ->
   accuracy output [] ks st = (inl ZeroDivisionError, st)).
Proof.
  unfold accuracy. destruct ks as [| k0 ks'].
  - split; [exists ValueError; reflexivity | intros _ H; contradiction].
  - cbn [py_max]. change (fold_left Nat.max ks' k0) with (requested_max (k0 :: ks')).
    unfold tensor_topk, expand_as. cbn [length for_each].
    unfold bind, ret, raise, py_truediv.
    change (Qeq_bool (inject_Z (Z.of_nat 0)) 0) with true. cbv iota.
    destruct (Nat.leb_spec (requested_max (k0 :: ks')) (classes output)) as [Hle | Hgt].
    + destruct (rows output) as [| r rs]; cbn [length Nat.eqb].
      * split; [exists ZeroDivisionError; reflexivity | reflexivity].
      * split; [exists RuntimeError; reflexivity | intros H; discriminate H].
    + split; [exists RuntimeError; reflexivity | intros _ _ H; lia].
Qed.

Lemma accuracy_empty_batch_raises_witness :
  accuracy (TK := topk_stable) (mkScores 5 []) [] [1; 5]%nat tt = (inl ZeroDivisionError, tt).
Proof.
  apply (proj2 (accuracy_empty_batch_raises (TK := topk_stable) (mkScores 5 []) [1; 5]%nat tt)).
  - reflexivity.
  - discriminate.
  - cbn. lia.
Defined.

End AccuracyFacts.

(** ** The reference selection meets the contract *)

Module StableTopK.

Import AccuracyFacts.

Section Row.

Variable row : list Q.


Lemma insert_desc_perm (i : nat) (l : list nat) :
  Permutation (i :: l) (insert_desc row i l).
Proof.
  induction l as [| j l IH]; cbn [insert_desc]; [apply Permutation_refl |].
  destruct (Qle_bool (score row i) (score row j)); [| apply Permutation_refl].
  eapply perm_trans; [apply perm_swap | apply perm_skip; exact IH].
Qed.

Lemma insert_desc_hd (i j : nat) (l : list nat) :
  ranks_before row j i -> HdRel (ranks_before row) j l ->
  HdRel (ranks_before row) j (insert_desc row i l).
Proof.
  intros Hji Hl. destruct l as [| x l]; cbn [insert_desc]; [now constructor |].
  destruct (Qle_bool (score row i) (score row x)); constructor; [| exact Hji].
  inversion Hl; assumption.
Qed.

Lemma insert_desc_sorted (i : nat) (l : list nat) :
  Sorted (ranks_before row) l -> Sorted (ranks_before row) (insert_desc row i l).
Proof.
  induction 1 as [| j l Hs IH Hhd]; cbn [insert_desc]; [repeat constructor |].
  destruct (Qle_bool (score row i) (score row j)) eqn:Hle.
  - apply Qle_bool_iff in Hle. constructor; [exact IH |].
    now apply insert_desc_hd.
  - constructor; [now constructor |]. constructor. unfold ranks_before.
    destruct (Qlt_le_dec (score row j) (score row i)) as [Hlt | Hge].
    + now apply Qlt_le_weak.
    + apply Qle_bool_iff in Hge. congruence.
Qed.

Lemma fold_insert (l : list nat) : forall acc,
  Sorted (ranks_before row) acc ->
  Sorted (ranks_before row) (fold_left (fun acc i => insert_desc row i acc) l acc) /\
  Permutation (l ++ acc) (fold_left (fun acc i => insert_desc row i acc) l acc).
Proof.
  induction l as [| i l IH]; intros acc Hacc; cbn [fold_left app].
  - split; [exact Hacc | apply Permutation_refl].
  - destruct (IH (insert_desc row i acc) (insert_desc_sorted i Hacc)) as [Hs Hp].
    split; [exact Hs |]. eapply perm_trans; [| exact Hp].
    eapply perm_trans; [apply Permutation_middle |].
    apply Permutation_app_head. apply insert_desc_perm.
Qed.

Lemma argsort_desc_perm : Permutation (seq 0 (length row)) (argsort_desc row).
Proof.
  destruct (fold_insert (seq 0 (length row)) (Sorted_nil (ranks_before row))) as [_ Hp].
  rewrite app_nil_r in Hp. exact Hp.
Qed.

Lemma before_trans (i j k : nat) :
  ranks_before row i j -> ranks_before row j k -> ranks_before row i k.
Proof. unfold ranks_before. intros Hij Hjk. eapply Qle_trans; eassumption. Qed.

Lemma strongly_sorted_descending (l : list nat) :
  StronglySorted (ranks_before row) l -> descending row l.
Proof.
  induction 1 as [| x l _ IH Hall]; intros a b Hab Hb; [cbn in Hb; lia |].
  destruct b as [| b].
  - replace a with O by lia. apply Qle_refl.
  - cbn [length] in Hb. destruct a as [| a]; cbn [nth].
    + rewrite Forall_forall in Hall. apply Hall. apply nth_In. lia.
    + apply IH; lia.
Qed.

Lemma argsort_desc_descending : descending row (argsort_desc row).
Proof.
  apply strongly_sorted_descending. apply Sorted_StronglySorted.
  - intros i j k. apply before_trans.
  - apply (fold_insert (seq 0 (length row)) (Sorted_nil (ranks_before row))).
Qed.

End Row.

Theorem topk_stable_contract : topk_contract topk_stable.
Proof.
  intros k row Hk. unfold topk_row, topk_stable.
  pose proof (argsort_desc_perm row) as Hp.
  pose proof (argsort_desc_descending row) as Hd.
  assert (Hlen : length (argsort_desc row) = length row).
  { rewrite <- (Permutation_length Hp). apply length_seq. }
  assert (Hnd : NoDup (argsort_desc row)).
  { eapply Permutation_NoDup; [exact Hp | apply seq_NoDup]. }
  split; [| now apply descending_firstn].
  repeat split.
  - rewrite length_firstn. lia.
  - now apply NoDup_firstn.
  - intros i Hi. apply in_firstn in Hi.
    apply (Permutation_in _ (Permutation_sym Hp)) in Hi. apply in_seq in Hi. lia.
  - intros i j Hi Hj Hnj. apply (firstn_dominates k Hd i j); try assumption.
    apply (Permutation_in _ Hp). apply in_seq. lia.
Qed.

End StableTopK.

(** ** [accuracy] on concrete batches, with the reference selection *)

Module AccuracyExamples.

Import AccuracyFacts StableTopK.

(** The two batches of the specification's test list. *)
Example accuracy_all_right :
  exists r, accuracy two_by_two [1; 0]%nat [1]%nat tt = (inr [r], tt) /\ r == 100.
Proof. eexists. split; reflexivity. Qed.

Example accuracy_all_wrong :
  exists r, accuracy two_by_two [0; 1]%nat [1]%nat tt = (inr [r], tt) /\ r == 0.
Proof. eexists. split; reflexivity. Qed.

Lemma two_by_two_wf : wf_scores two_by_two.
Proof. repeat constructor. Qed.


End AccuracyExamples.

(** ** The epoch drivers *)

Module DriverFacts.

(** *** Computations that stay within a relation *)

Lemma stable_ret {S A} (R : S -> S -> Prop) (a : A) :
  (forall s, R s s) -> stable R (ret a).
Proof. intros Hrefl s. apply Hrefl. Qed.

Lemma stable_raise {S A} (R : S -> S -> Prop) (e : exn) :
  (forall s, R s s) -> stable R (raise (A := A) e).
Proof. intros Hrefl s. apply Hrefl. Qed.

Lemma stable_get {S} (R : S -> S -> Prop) :
  (forall s, R s s) -> stable R get.
Proof. intros Hrefl s. apply Hrefl. Qed.

Lemma stable_bind {S A B} (R : S -> S -> Prop) (c : Eff S A) (k : A -> Eff S B) :
  (forall s1 s2 s3, R s1 s2 -> R s2 s3 -> R s1 s3) ->
  stable R c -> (forall a, stable R (k a)) -> stable R (bind c k).
Proof.
  intros Htrans Hc Hk s. unfold bind. specialize (Hc s).
  destruct (c s) as [[e | a] s']; cbn [snd] in *; [exact Hc |].
  eapply Htrans; [exact Hc | apply Hk].
Qed.

Lemma stable_for_each {S A B} (R : S -> S -> Prop) (f : A -> Eff S B) (l : list A) :
  (forall s, R s s) ->
  (forall s1 s2 s3, R s1 s2 -> R s2 s3 -> R s1 s3) ->
  (forall a, stable R (f a)) -> stable R (for_each f l).
Proof.
  intros Hrefl Htrans Hf. induction l as [| a l IH]; cbn [for_each].
  - now apply stable_ret.
  - apply stable_bind; [exact Htrans | apply Hf | intros b].
    apply stable_bind; [exact Htrans | exact IH | intros bs]. now apply stable_ret.
Qed.

(** The helpers that only compute leave every state as it is. *)
Ltac pure_step :=
  first [ apply stable_ret; intros; reflexivity
        | apply stable_raise; intros; reflexivity
        | apply stable_get; intros; reflexivity
        | apply stable_bind; [intros ? ? ? -> ->; reflexivity | | intros ?]
        | apply stable_for_each;
          [intros; reflexivity | intros ? ? ? -> ->; reflexivity | intros ?] ].

Lemma pure_accuracy {TK : TopK} {S} (output : Scores) (target ks : list nat) :
  stable (@eq S) (accuracy output target ks).
Proof.
  unfold accuracy, py_max, tensor_topk, expand_as, py_truediv.
  repeat first [ pure_step
               | match goal with
                 | |- stable _ (match ?x with _ => _ end) => destruct x
                 | |- stable _ (if ?x then _ else _) => destruct x
                 end ].
Qed.

Lemma pure_format_int {S} (spec : string) (z : Z) : stable (@eq S) (PyStr.format_int spec z).
Proof.
  unfold PyStr.format_int.
  repeat first [ pure_step
               | match goal with
                 | |- stable _ (match ?x with _ => _ end) => destruct x
                 | |- stable _ (if ?x then _ else _) => destruct x
                 end ].
Qed.

Lemma pure_format_field {S} (f : string) (z : Z) : stable (@eq S) (PyStr.format_field f z).
Proof.
  unfold PyStr.format_field. destruct f as [| c spec]; [pure_step |].
  destruct (Ascii.eqb c ":"); [apply pure_format_int | pure_step].
Qed.

Lemma pure_format_from {S} (s : string) (field : option string) (args : list Z) :
  stable (@eq S) (PyStr.format_from s field args).
Proof.
  remember (String.length s) as n eqn:Hn.
  assert (Hle : (String.length s <= n)%nat) by lia. clear Hn.
  revert s field args Hle.
  induction n as [| n IH]; intros s field args Hle.
  - destruct s; [| cbn in Hle; lia]. cbn [PyStr.format_from].
    destruct field; pure_step.
  - destruct s as [| c s]; cbn [PyStr.format_from]; [destruct field; pure_step |].
    cbn [String.length] in Hle.
    destruct field as [f |].
    + destruct (Ascii.eqb c "}"); [| apply IH; lia].
      destruct args as [| a args]; [pure_step |].
      pure_step; [apply pure_format_field |].
      pure_step; [apply IH; lia | pure_step].
    + destruct (Ascii.eqb c "{").
      * destruct s as [| c' s']; [pure_step |]. cbn [String.length] in Hle.
        destruct (Ascii.eqb c' "{"); [| apply IH; cbn [String.length]; lia].
        pure_step; [apply IH; lia | pure_step].
      * destruct (Ascii.eqb c "}").
        -- destruct s as [| c' s']; [pure_step |]. cbn [String.length] in Hle.
           destruct (Ascii.eqb c' "}"); [| pure_step].
           pure_step; [apply IH; lia | pure_step].
        -- pure_step; [apply IH; lia | pure_step].
Qed.

Lemma pure_init {S R} (total : Z) (ms : list R) (p : string) :
  stable (@eq S) (ProgressMeter.init total ms p).
Proof.
  unfold ProgressMeter.init, ProgressMeter._get_batch_fmtstr, PyStr.format.
  pure_step; [| pure_step]. pure_step; [apply pure_format_from | pure_step].
Qed.

Lemma stable_of_pure {S A} (R : S -> S -> Prop) (c : Eff S A) :
  (forall s, R s s) -> stable eq c -> stable R c.
Proof. intros Hrefl Hc s. rewrite <- (Hc s). apply Hrefl. Qed.

Section Frame.

Context {E : Env} {TK : TopK}.

Lemma untouched_refl (d : Driver) : untouched d d.
Proof.
  split; [| reflexivity]. exists []. split; [symmetry; apply app_nil_r | constructor].
Qed.

Lemma untouched_trans (d1 d2 d3 : Driver) :
  untouched d1 d2 -> untouched d2 d3 -> untouched d1 d3.
Proof.
  intros [(tr1 & He1 & Hq1) Hp1] [(tr2 & He2 & Hq2) Hp2]. split.
  - exists (tr1 ++ tr2). split.
    + rewrite He2, He1, app_assoc. reflexivity.
    + apply Forall_app. now split.
  - intros H. rewrite (Hp2 H). now apply Hp1.
Qed.

(** A step that writes neither the world nor the log. *)
Lemma untouched_local (d d' : Driver) :
  world d' = world d -> events d' = events d -> untouched d d'.
Proof.
  intros Hw He. split.
  - exists []. rewrite He. split; [symmetry; apply app_nil_r | constructor].
  - intros _. rewrite Hw. reflexivity.
Qed.

Lemma stable_call {A} (e : Event) (op : Eff World A) :
  optimizer_event e = false ->
  (readers_keep_parameters -> keeps_parameters op) ->
  stable untouched (call e op).
Proof.
  intros He Hop d. unfold call. specialize (fun H => Hop H (world d)).
  destruct (op (world d)) as [r w]. cbn [snd] in *. split.
  - exists [e]. split; [reflexivity | now constructor].
  - exact Hop.
Qed.

Lemma stable_on {A} (r : meter_ref) (c : Eff AverageMeter.t A) :
  stable untouched (on r c).
Proof.
  intros d. unfold on, zoom. destruct (c (deref r d)) as [x m]. cbn [snd].
  apply untouched_local; destruct r; reflexivity.
Qed.

Lemma stable_print (line : string) : stable untouched (print line).
Proof. intros d. apply untouched_local; reflexivity. Qed.

Lemma stable_assign (r : meter_ref) (m : AverageMeter.t) :
  stable untouched (modify (assign r m)).
Proof. intros d. apply untouched_local; destruct r; reflexivity. Qed.

Lemma stable_set_end (x : Q) : stable untouched (modify (set_end x)).
Proof. intros d. apply untouched_local; reflexivity. Qed.

Ltac frame_step :=
  first [ apply stable_ret; exact untouched_refl
        | apply stable_raise; exact untouched_refl
        | apply stable_get; exact untouched_refl
        | apply stable_on
        | apply stable_print
        | apply stable_assign
        | apply stable_set_end
        | apply stable_bind; [exact untouched_trans | | intros ?] ].

Lemma stable_meter_str (r : meter_ref) : stable untouched (meter_str r).
Proof.
  unfold meter_str.
  apply stable_bind; [exact untouched_trans | frame_step | intros d].
  destruct (AverageMeter.fmt (deref r d)) as [| c spec]; [frame_step |].
  destruct (Ascii.eqb c ":"); frame_step.
Qed.

Lemma stable_display (progress : ProgressMeter.t meter_ref) (batch : Z) :
  stable untouched (display progress batch).
Proof.
  unfold display, ProgressMeter.display, ProgressMeter.counter, PyStr.format.
  frame_step.
  - apply stable_of_pure; [exact untouched_refl | apply pure_format_from].
  - frame_step; [| frame_step].
    apply stable_for_each;
      [exact untouched_refl | exact untouched_trans | apply stable_meter_str].
Qed.

Lemma stable_for_enumerate {A} (l : list A) (body : Z -> A -> Eff Driver unit) :
  (forall i x, stable untouched (body i x)) ->
  forall i, stable untouched (for_enumerate i l body).
Proof.
  intros Hbody. induction l as [| x l IH]; intros i; cbn [for_enumerate].
  - frame_step.
  - frame_step; [apply Hbody | apply IH].
Qed.

Lemma stable_with_no_grad {A} (body : Eff Driver A) :
  stable untouched body -> stable untouched (with_no_grad body).
Proof.
  intros Hbody. unfold with_no_grad.
  apply stable_bind; [exact untouched_trans | | intros prev].
  - apply stable_call; [reflexivity | intros H; apply H].
  - intros d. specialize (Hbody d). destruct (body d) as [r d'].
    cbn [snd] in Hbody.
    pose proof (@stable_call unit ExitNoGrad (no_grad_exit prev) eq_refl
                  (fun H => proj2 (proj2 (proj2 (proj2 (proj2 H)))) prev) d') as Hexit.
    destruct (call ExitNoGrad (no_grad_exit prev) d') as [[e | u] d''];
      cbn [snd] in *; eapply untouched_trans; eassumption.
Qed.

Lemma stable_measure (images : Images) (target : list nat) :
  stable untouched (measure images target).
Proof.
  unfold measure.
  frame_step; [apply stable_call; [reflexivity | intros H; apply H] |].
  frame_step; [apply stable_call; [reflexivity | intros H; apply H] |].
  apply stable_bind; [exact untouched_trans | | intros res].
  { apply stable_of_pure; [exact untouched_refl | apply pure_accuracy]. }
  frame_step; [unfold unpack2; destruct res as [| ? [| ? [| ? ?]]]; frame_step |].
  repeat frame_step.
Qed.

Lemma stable_measure_time : stable untouched measure_time.
Proof.
  unfold measure_time.
  frame_step; [apply stable_call; [reflexivity | intros H; apply H] |].
  frame_step; [frame_step |]. frame_step; [frame_step |].
  frame_step; [apply stable_call; [reflexivity | intros H; apply H] |].
  frame_step.
Qed.

Lemma stable_maybe_display (progress : ProgressMeter.t meter_ref) (f i : Z) :
  stable untouched (maybe_display progress f i).
Proof.
  unfold maybe_display. destruct (i mod f =? 0)%Z; [apply stable_display | frame_step].
Qed.

Lemma stable_new_meters : stable untouched new_meters.
Proof. unfold new_meters. repeat frame_step. Qed.

Lemma stable_validate (val_loader : list (Images * list nat)) :
  stable untouched (validate val_loader).
Proof.
  unfold validate.
  frame_step; [apply stable_new_meters |].
  frame_step; [apply stable_of_pure; [exact untouched_refl | apply pure_init] |].
  frame_step; [apply stable_call; [reflexivity | intros H; apply H] |].
  frame_step; [| repeat frame_step].
  apply stable_with_no_grad.
  frame_step; [apply stable_call; [reflexivity | intros H; apply H] |].
  frame_step; [frame_step |].
  frame_step; [| repeat frame_step].
  apply stable_for_enumerate. intros i x.
  frame_step; [apply stable_measure |].
  frame_step; [apply stable_measure_time | apply stable_maybe_display].
Qed.

(** C9. A run of [validate] logs no call to the optimizer's
    zero-gradient or step nor to the backward pass, whatever the model
    and the loader and however the run ends; and, the calls it does
    make not writing the parameters, the snapshot of the parameters
    after the run is the snapshot before it. *)
Theorem validate_keeps_parameters (val_loader : list (Images * list nat)) (d : Driver) :
  (exists tr,
      events (snd (validate val_loader d)) = (events d ++ tr)%list /\
      ~ In CallZeroGrad tr /\ ~ In CallBackward tr /\ ~ In CallStep tr) /\
  (readers_keep_parameters ->
   parameters (world (snd (validate val_loader d))) = parameters (world d)).
Proof.
  destruct (stable_validate val_loader d) as [(tr & He & Hq) Hp].
  split; [| exact Hp].
  exists tr. split; [exact He |]. rewrite Forall_forall in Hq.
  repeat split; intros H; apply Hq in H; discriminate H.
Qed.

End Frame.

End DriverFacts.

(** ** What the drivers return *)

Module DriverRuns.

Import AverageMeterFacts PyStrFacts ProgressMeterFacts AccuracyFacts DriverFacts.

(** *** Computations that run through *)

Lemma succeeds_ret {S A} (I : S -> Prop) (Post : A -> Prop) (a : A) :
  Post a -> succeeds I Post (ret a).
Proof. intros Ha s Hs. exists a, s. repeat split; assumption. Qed.

Lemma succeeds_get {S} (I : S -> Prop) : succeeds I I get.
Proof. intros s Hs. exists s, s. repeat split; assumption. Qed.

Lemma succeeds_modify {S} (I : S -> Prop) (f : S -> S) :
  (forall s, I s -> I (f s)) -> succeeds I (fun _ => True) (modify f).
Proof. intros Hf s Hs. exists tt, (f s). repeat split. now apply Hf. Qed.

Lemma succeeds_bind {S A B} (I : S -> Prop) (P : A -> Prop) (Q : B -> Prop)
    (c : Eff S A) (k : A -> Eff S B) :
  succeeds I P c -> (forall a, P a -> succeeds I Q (k a)) -> succeeds I Q (bind c k).
Proof.
  intros Hc Hk s Hs. destruct (Hc s Hs) as (a & s' & Hrun & Hs' & Ha).
  unfold bind. rewrite Hrun. now apply (Hk a Ha).
Qed.

Lemma succeeds_for_each {S A B} (I : S -> Prop) (f : A -> Eff S B) (l : list A) :
  (forall a, succeeds I (fun _ => True) (f a)) ->
  succeeds I (fun _ => True) (for_each f l).
Proof.
  intros Hf. induction l as [| a l IH]; cbn [for_each].
  - now apply succeeds_ret.
  - eapply succeeds_bind; [apply Hf | intros b _].
    eapply succeeds_bind; [exact IH | intros bs _]. now apply succeeds_ret.
Qed.

(** The value of a computation that ends in [d <- get ;; ret (f d)] or
    in [ret v]. *)
Lemma bind_returns_via {S A B} (f : S -> B) (c : Eff S A) (k : A -> Eff S B) :
  (forall a s v, fst (k a s) = inr v -> v = f (snd (k a s))) ->
  forall s v, fst (bind c k s) = inr v -> v = f (snd (bind c k s)).
Proof.
  intros Hk s v. unfold bind. destruct (c s) as [[e | a] s']; cbn [fst snd].
  - discriminate.
  - apply Hk.
Qed.

Section Runs.

Context {E : Env} {TK : TopK}.

Lemma meters_ready_ext (d d' : Driver) :
  (forall r, deref r d' = deref r d) -> meters_ready d -> meters_ready d'.
Proof. intros Heq Hd r. rewrite Heq. apply Hd. Qed.

Lemma succeeds_call {A} (Post : A -> Prop) (e : Event) (op : Eff World A) :
  (forall w, exists a, fst (op w) = inr a /\ Post a) ->
  succeeds meters_ready Post (call e op).
Proof.
  intros Hop d Hd. unfold call. destruct (Hop (world d)) as (a & Ha & HP).
  destruct (op (world d)) as [r w]. cbn [fst] in Ha. subst r.
  eexists a, _. split; [reflexivity | split; [| exact HP]].
  eapply meters_ready_ext; [| exact Hd]. intros r; destruct r; reflexivity.
Qed.

Lemma succeeds_call_returns {A} (e : Event) (op : Eff World A) :
  returns op -> succeeds meters_ready (fun _ => True) (call e op).
Proof.
  intros Hop. apply succeeds_call. intros w. destruct (Hop w) as [a Ha].
  exists a. split; [exact Ha | exact I].
Qed.

Lemma succeeds_update (r : meter_ref) (v n : Q) :
  0 < n -> succeeds meters_ready (fun _ => True) (on r (AverageMeter.update v n)).
Proof.
  intros Hn d Hd. unfold on, zoom. rewrite update_run.
  destruct (Hd r) as [Hc Hf].
  assert (Hpos : 0 < AverageMeter.count (deref r d) + n).
  { apply Qlt_le_trans with (0 + n); [rewrite Qplus_0_l; exact Hn |].
    apply Qplus_le_compat; [exact Hc | apply Qle_refl]. }
  destruct (Qeq_bool (AverageMeter.count (deref r d) + n) 0) eqn:Hz.
  - apply Qeq_bool_eq in Hz. rewrite Hz in Hpos. discriminate Hpos.
  - eexists tt, _. split; [reflexivity | split; [| exact I]].
    intros r'. destruct (Hd r') as [Hc' Hf'].
    destruct r, r'; cbn [deref assign AverageMeter.count AverageMeter.fmt] in *;
      (split; [first [exact Hc' | apply Qlt_le_weak; exact Hpos]
              | first [exact Hf' | exact Hf]]).
Qed.

Lemma succeeds_print (line : string) :
  succeeds meters_ready (fun _ => True) (print line).
Proof.
  apply succeeds_modify. intros d Hd.
  eapply meters_ready_ext; [| exact Hd]. intros r; destruct r; reflexivity.
Qed.

Lemma succeeds_set_end (x : Q) :
  succeeds meters_ready (fun _ => True) (modify (set_end x)).
Proof.
  apply succeeds_modify. intros d Hd.
  eapply meters_ready_ext; [| exact Hd]. intros r; destruct r; reflexivity.
Qed.

Lemma succeeds_meter_str (r : meter_ref) :
  succeeds meters_ready (fun _ => True) (meter_str r).
Proof.
  intros d Hd. unfold meter_str, bind, get. destruct (Hd r) as [_ [spec Hf]].
  rewrite Hf. change (Ascii.eqb ":" ":") with true. cbv iota.
  eexists _, d. split; [reflexivity | split; [exact Hd | exact I]].
Qed.

(** A line is displayed whatever the batch index. *)
Lemma succeeds_display (total : Z) (ms : list meter_ref) (p : string)
    (progress : ProgressMeter.t meter_ref) (d0 : Driver) (i : Z) :
  ProgressMeter.init total ms p d0 = (inr progress, d0) ->
  succeeds meters_ready (fun _ => True) (display progress i).
Proof.
  intros Hinit. rewrite init_run in Hinit.
  apply (f_equal (fun x => match fst x with inr y => y | inl _ => progress end)) in Hinit.
  cbv beta iota in Hinit. cbn [fst] in Hinit. cbv iota in Hinit. subst progress.
  unfold display, ProgressMeter.display.
  eapply succeeds_bind with (P := fun _ => True).
  - intros d Hd. rewrite counter_run. eexists _, d.
    split; [reflexivity | split; [exact Hd | exact I]].
  - intros c _. eapply succeeds_bind.
    + apply succeeds_for_each. apply succeeds_meter_str.
    + intros strs _. apply succeeds_print.
Qed.

Lemma succeeds_maybe_display (total : Z) (ms : list meter_ref) (p : string)
    (progress : ProgressMeter.t meter_ref) (d0 : Driver) (f i : Z) :
  ProgressMeter.init total ms p d0 = (inr progress, d0) ->
  succeeds meters_ready (fun _ => True) (maybe_display progress f i).
Proof.
  intros Hinit. unfold maybe_display. destruct (i mod f =? 0)%Z.
  - eapply succeeds_display. exact Hinit.
  - now apply succeeds_ret.
Qed.

Lemma succeeds_accuracy (o : Scores) (t : list nat) :
  (5 <= classes o)%nat -> length (rows o) = length t -> (0 < length t)%nat ->
  succeeds meters_ready (fun res => length res = 2%nat) (accuracy o t [1; 5]%nat).
Proof.
  intros Hc Hlen Hpos d Hd. rewrite accuracy_run.
  - eexists _, d. split; [reflexivity | split; [exact Hd | reflexivity]].
  - discriminate.
  - exact Hc.
  - symmetry. exact Hlen.
  - exact Hpos.
Qed.

Lemma succeeds_unpack2 (res : list Q) :
  length res = 2%nat -> succeeds meters_ready (fun _ => True) (unpack2 res).
Proof.
  intros Hlen. destruct res as [| a [| b [| c res]]]; try discriminate Hlen.
  now apply succeeds_ret.
Qed.

Lemma size_positive (n : nat) : (0 < n)%nat -> 0 < inject_Z (Z.of_nat n).
Proof. intros Hn. unfold Qlt, inject_Z. cbn [Qnum Qden]. lia. Qed.

Lemma succeeds_measure (loader : list (Images * list nat)) (x : Images) (t : list nat) :
  well_behaved loader -> In (x, t) loader ->
  succeeds meters_ready (fun _ => True) (measure x t).
Proof.
  intros (_ & _ & _ & _ & Hcrit & Hmodel) Hin. unfold measure.
  destruct (Hmodel x t Hin) as (Hpos & Hsize & Hcall).
  eapply succeeds_bind
    with (P := fun o => (5 <= classes o)%nat /\ length (rows o) = length t /\
                        (0 < length t)%nat).
  - apply succeeds_call. intros w.
    destruct (Hcall w) as (o & Ho & H5 & Hlen).
    exists o. auto.
  - intros o (H5 & Hlen & _).
    eapply succeeds_bind; [apply succeeds_call_returns; apply Hcrit | intros loss _].
    eapply succeeds_bind; [now apply succeeds_accuracy | intros res Hres].
    eapply succeeds_bind; [now apply succeeds_unpack2 | intros accs _].
    assert (Hn : 0 < inject_Z (Z.of_nat (images_size0 x)))
      by now apply size_positive.
    eapply succeeds_bind; [now apply succeeds_update | intros _ _].
    eapply succeeds_bind; [now apply succeeds_update | intros _ _].
    eapply succeeds_bind; [now apply succeeds_update | intros _ _].
    now apply succeeds_ret.
Qed.

Lemma succeeds_measure_time :
  returns time_time -> succeeds meters_ready (fun _ => True) measure_time.
Proof.
  intros Htime. unfold measure_time.
  eapply succeeds_bind; [now apply succeeds_call_returns | intros now _].
  eapply succeeds_bind; [apply succeeds_get | intros d _].
  eapply succeeds_bind;
    [unfold AverageMeter.update1; apply (succeeds_update BatchTime); reflexivity
    | intros _ _].
  eapply succeeds_bind; [now apply succeeds_call_returns | intros now' _].
  apply succeeds_set_end.
Qed.

Lemma succeeds_for_enumerate {A} (l : list A) (body : Z -> A -> Eff Driver unit) :
  (forall i x, In x l -> succeeds meters_ready (fun _ => True) (body i x)) ->
  forall i, succeeds meters_ready (fun _ => True) (for_enumerate i l body).
Proof.
  induction l as [| x l IH]; intros Hbody i; cbn [for_enumerate].
  - now apply succeeds_ret.
  - eapply succeeds_bind; [apply Hbody; now left | intros _ _].
    apply IH. intros j y Hy. apply Hbody. now right.
Qed.

Lemma succeeds_with_no_grad {A} (Post : A -> Prop) (body : Eff Driver A) :
  returns no_grad_enter -> (forall b, returns (no_grad_exit b)) ->
  succeeds meters_ready Post body -> succeeds meters_ready Post (with_no_grad body).
Proof.
  intros Henter Hexit Hbody. unfold with_no_grad.
  eapply succeeds_bind; [now apply succeeds_call_returns | intros prev _].
  intros d Hd. destruct (Hbody d Hd) as (a & d' & Hrun & Hd' & Ha). rewrite Hrun.
  destruct (succeeds_call_returns ExitNoGrad (Hexit prev) Hd')
    as (u & d'' & Hrun' & Hd'' & _).
  rewrite Hrun'. exists a, d''. split; [reflexivity | split; assumption].
Qed.

Lemma new_meters_run (d : Driver) :
  exists d', new_meters d = (inr tt, d') /\ meters_ready d'.
Proof.
  eexists. split; [reflexivity |].
  intros r. destruct r; cbn; (split; [discriminate | eexists; reflexivity]).
Qed.

Lemma epoch_prefix {St} (epoch : Z) (st : St) :
  PyStr.format "Epoch:[{}]" [epoch] st = (inr ("Epoch:[" ++ PyStr.str epoch ++ "]")%string, st).
Proof.
  unfold PyStr.format.
  assert (Hlit : PyStr.plain_string "Epoch:[") by (repeat constructor).
  change "Epoch:[{}]"%string with ("Epoch:[" ++ "{}]")%string.
  rewrite (format_from_plain Hlit). reflexivity.
Qed.

(** *** [validate] *)

Lemma validate_returns (val_loader : list (Images * list nat)) (d : Driver) :
  well_behaved val_loader -> exists v, fst (validate val_loader d) = inr v.
Proof.
  intros Hwb. pose proof Hwb as (Heval & Htime & Henter & Hexit & Hcrit & Hmodel).
  unfold validate.
  destruct (new_meters_run d) as (d1 & Hnew & Hd1).
  unfold bind at 1. rewrite Hnew.
  unfold bind at 1. rewrite init_run.
  assert (Hrest : succeeds meters_ready (fun _ : pyval => True)
    (call CallModelEval model_eval ;;
     with_no_grad
       (now <- call CallTime time_time ;;
        modify (set_end now) ;;
        for_enumerate 0 val_loader
          (fun i batch =>
             _ <- measure (fst batch) (snd batch) ;;
             measure_time ;;
             maybe_display
               (ProgressMeter.mk
                  ("[" ++ ("{:" ++ PyStr.str_nat (String.length (PyStr.str (len val_loader)))
                                ++ "d}") ++ "/" ++ PyStr.str (len val_loader) ++ "]")%string
                  [BatchTime; Losses; Top1; Top5] "Test: ") 10 i) ;;
        d <- get ;;
        print (" * Acc@1 " ++ format_number ".3f" (AverageMeter.avg (top1 d))
               ++ " Acc@5 " ++ format_number ".3f" (AverageMeter.avg (top5 d)))%string) ;;
     d <- get ;;
     ret (PyNum (AverageMeter.avg (top1 d))))%eff).
  { eapply succeeds_bind; [now apply succeeds_call_returns | intros _ _].
    eapply succeeds_bind with (P := fun _ => True).
    - apply succeeds_with_no_grad; try assumption.
      eapply succeeds_bind; [now apply succeeds_call_returns | intros now _].
      eapply succeeds_bind; [apply succeeds_set_end | intros _ _].
      eapply succeeds_bind with (P := fun _ => True).
      + apply succeeds_for_enumerate. intros i [x t] Hin. cbn [fst snd].
        eapply succeeds_bind; [now apply (@succeeds_measure val_loader x t Hwb) | intros _ _].
        eapply succeeds_bind; [now apply succeeds_measure_time | intros _ _].
        eapply succeeds_maybe_display. apply (init_run _ _ _ d1).
      + intros _ _. eapply succeeds_bind; [apply succeeds_get | intros d' _].
        apply succeeds_print.
    - intros _ _. eapply succeeds_bind; [apply succeeds_get | intros d' _].
      now apply succeeds_ret. }
  destruct (Hrest d1 Hd1) as (v & d' & Hrun & _).
  exists v. rewrite Hrun. reflexivity.
Qed.

Lemma validate_value (val_loader : list (Images * list nat)) (d : Driver) (v : pyval) :
  fst (validate val_loader d) = inr v ->
  v = PyNum (AverageMeter.avg (top1 (snd (validate val_loader d)))).
Proof.
  unfold validate. revert d v.
  pose (f := fun d : Driver => PyNum (AverageMeter.avg (top1 d))).
  apply (bind_returns_via f). intros _.
  apply (bind_returns_via f). intros progress.
  apply (bind_returns_via f). intros _.
  apply (bind_returns_via f). intros _.
  intros d v H. cbn in H. injection H as <-. reflexivity.
Qed.

(** *** [train] *)

Lemma train_returns (train_loader : list (Images * list nat)) (epoch : Z) (d : Driver) :
  well_behaved train_loader -> optimizer_returns ->
  exists v, fst (train train_loader epoch d) = inr v.
Proof.
  intros Hwb (Htrain & Hzero & Hback & Hstep).
  pose proof Hwb as (_ & Htime & _ & _ & _ & _).
  unfold train.
  destruct (new_meters_run d) as (d1 & Hnew & Hd1).
  unfold bind at 1. rewrite Hnew.
  unfold bind at 1. rewrite epoch_prefix.
  unfold bind at 1. rewrite init_run.
  assert (Hrest : succeeds meters_ready (fun _ : pyval => True)
    (call CallModelTrain model_train ;;
     now <- call CallTime time_time ;;
     modify (set_end now) ;;
     for_enumerate 0 train_loader
       (fun i batch =>
          loss <- measure (fst batch) (snd batch) ;;
          call CallZeroGrad optimizer_zero_grad ;;
          call CallBackward (loss_backward loss) ;;
          call CallStep optimizer_step ;;
          measure_time ;;
          maybe_display
            (ProgressMeter.mk
               ("[" ++ ("{:" ++ PyStr.str_nat (String.length (PyStr.str (len train_loader)))
                             ++ "d}") ++ "/" ++ PyStr.str (len train_loader) ++ "]")%string
               [BatchTime; Losses; Top1; Top5]
               ("Epoch:[" ++ PyStr.str epoch ++ "]")%string) 50 i) ;;
     ret PyNone)%eff).
  { eapply succeeds_bind; [now apply succeeds_call_returns | intros _ _].
    eapply succeeds_bind; [now apply succeeds_call_returns | intros now _].
    eapply succeeds_bind; [apply succeeds_set_end | intros _ _].
    eapply succeeds_bind with (P := fun _ => True); [| intros _ _; now apply succeeds_ret].
    apply succeeds_for_enumerate. intros i [x t] Hin. cbn [fst snd].
    eapply succeeds_bind;
      [now apply (@succeeds_measure train_loader x t Hwb) | intros loss _].
    eapply succeeds_bind; [now apply succeeds_call_returns | intros _ _].
    eapply succeeds_bind; [now apply succeeds_call_returns | intros _ _].
    eapply succeeds_bind; [now apply succeeds_call_returns | intros _ _].
    eapply succeeds_bind; [now apply succeeds_measure_time | intros _ _].
    eapply succeeds_maybe_display. apply (init_run _ _ _ d1). }
  destruct (Hrest d1 Hd1) as (v & d' & Hrun & _).
  exists v. rewrite Hrun. reflexivity.
Qed.

Lemma train_value (train_loader : list (Images * list nat)) (epoch : Z) (d : Driver)
    (v : pyval) :
  fst (train train_loader epoch d) = inr v -> v = PyNone.
Proof.
  unfold train. revert d v.
  pose (f := fun _ : Driver => PyNone).
  apply (bind_returns_via f). intros _.
  apply (bind_returns_via f). intros prefix.
  apply (bind_returns_via f). intros progress.
  apply (bind_returns_via f). intros _.
  apply (bind_returns_via f). intros now.
  apply (bind_returns_via f). intros _.
  apply (bind_returns_via f). intros _.
  intros d v H. cbn in H. injection H as <-. reflexivity.
Qed.

(** C4, amended. A run of [validate] returns the average that its
    top-1 meter holds after the last batch, and does return it on a
    well-behaved environment and loader; a run of [train] returns no
    value (None). *)
Theorem validate_returns_top1_average (loader : list (Images * list nat)) (epoch : Z)
    (d : Driver) :
  (well_behaved loader ->
   fst (validate loader d) =
     inr (PyNum (AverageMeter.avg (top1 (snd (validate loader d)))))) /\
  (forall v, fst (validate loader d) = inr v ->
             v = PyNum (AverageMeter.avg (top1 (snd (validate loader d))))) /\
  (well_behaved loader -> optimizer_returns ->
   fst (train loader epoch d) = inr PyNone) /\
  (forall v, fst (train loader epoch d) = inr v -> v = PyNone).
Proof.
  split; [| split; [| split]].
  - intros Hwb. destruct (validate_returns d Hwb) as [v Hv].
    rewrite Hv. f_equal. now apply validate_value.
  - intros v. apply validate_value.
  - intros Hwb Hopt. destruct (train_returns epoch d Hwb Hopt) as [v Hv].
    rewrite Hv. f_equal. eapply train_value. exact Hv.
  - intros v. apply train_value.
Qed.

End Runs.

(** *** On the small environment *)

Lemma toy_well_behaved : well_behaved (E := Toy.env) Toy.loader.
Proof.
  unfold well_behaved.
  repeat (split; [intros; eexists; reflexivity |]).
  intros x t [H | [H | []]]; injection H as <- <-.
  - repeat split; [cbn; lia | cbn; lia |].
    intros w. eexists. split; [reflexivity | cbn; lia].
  - repeat split; [cbn; lia | cbn; lia |].
    intros w. eexists. split; [reflexivity | cbn; lia].
Qed.

Lemma toy_optimizer_returns : optimizer_returns (E := Toy.env).
Proof. repeat split; intros; eexists; reflexivity. Qed.

Lemma toy_readers_keep_parameters : readers_keep_parameters (E := Toy.env).
Proof. repeat split. Qed.

(** C4, as it stands, fails for [train]: it returns None, not the
    average of its top-1 meter. *)
Lemma train_returns_none :
  fst (train (E := Toy.env) (TK := topk_stable) Toy.loader 0 Toy.start) = inr PyNone /\
  fst (train (E := Toy.env) (TK := topk_stable) Toy.loader 0 Toy.start) <>
    inr (PyNum (AverageMeter.avg
                  (top1 (snd (train (E := Toy.env) (TK := topk_stable)
                                Toy.loader 0 Toy.start))))).
Proof. split; [vm_compute; reflexivity | vm_compute; discriminate]. Qed.

Lemma validate_returns_top1_average_witness :
  fst (validate (E := Toy.env) (TK := topk_stable) Toy.loader Toy.start) = inr (PyNum (400 # 6)) /\
  fst (train (E := Toy.env) (TK := topk_stable) Toy.loader 0 Toy.start) = inr PyNone.
Proof.
  destruct (validate_returns_top1_average (E := Toy.env) (TK := topk_stable)
              Toy.loader 0 Toy.start) as (Hv & _ & Ht & _).
  split.
  - rewrite (Hv toy_well_behaved). vm_compute. reflexivity.
  - exact (Ht toy_well_behaved toy_optimizer_returns).
Defined.

Lemma validate_keeps_parameters_witness :
  parameters (world (snd (validate (E := Toy.env) (TK := topk_stable) Toy.loader Toy.start)))
  = parameters (world Toy.start).
Proof.
  apply (proj2 (validate_keeps_parameters (E := Toy.env) (TK := topk_stable)
                  Toy.loader Toy.start)).
  exact toy_readers_keep_parameters.
Defined.

(** [train], for contrast, does move the parameters. *)
Example train_moves_parameters :
  parameters (world (snd (train (E := Toy.env) (TK := topk_stable) Toy.loader 0 Toy.start)))
  <> parameters (world Toy.start).
Proof. vm_compute. discriminate. Qed.

End DriverRuns.

(** * Properties of the machine numbers *)

(** ** Rounding of values that need none *)

Module FloatFacts.

Local Open Scope Z_scope.

Lemma iter_pos_nat (A : Type) (f : A -> A) (n : positive) (x : A) :
  iter_pos f n x = Nat.iter (Pos.to_nat n) f x.
Proof.
  revert x. induction n as [n IH | n IH |]; intros x; cbn [iter_pos].
  - rewrite !IH, Pos2Nat.inj_xI, <- Nat.iter_add, <- Nat.iter_succ_r.
    f_equal. lia.
  - rewrite !IH, Pos2Nat.inj_xO, <- Nat.iter_add. f_equal. lia.
  - reflexivity.
Qed.

Lemma pos_iter_shl (m k : positive) : Pos.iter xO m k = shl m (Pos.to_nat k).
Proof.
  unfold shl. rewrite Pos2Nat.inj_iter. reflexivity.
Qed.

Lemma shl_add (m : positive) (a b : nat) : shl (shl m a) b = shl m (b + a).
Proof. unfold shl. now rewrite Nat.iter_add. Qed.

Lemma shl_pow (m : positive) (k : nat) : Zpos (shl m k) = Zpos m * 2 ^ Z.of_nat k.
Proof.
  induction k as [| k IH].
  - cbn. lia.
  - change (shl m (S k)) with (xO (shl m k)).
    rewrite (Pos2Z.inj_xO (shl m k)), IH, Nat2Z.inj_succ, Z.pow_succ_r by lia. lia.
Qed.

Lemma shl_mul (m : positive) (k : nat) : (m * shl 1 k)%positive = shl m k.
Proof.
  apply Pos2Z.inj. rewrite Pos2Z.inj_mul, !shl_pow. lia.
Qed.

Lemma digits_shl (m : positive) (k : nat) :
  Zpos (digits2_pos (shl m k)) = Zpos (digits2_pos m) + Z.of_nat k.
Proof.
  induction k as [| k IH].
  - cbn. lia.
  - change (shl m (S k)) with (xO (shl m k)). cbn [digits2_pos].
    rewrite Pos2Z.inj_succ, IH. lia.
Qed.

(** The number of binary digits of [m]. *)
Lemma digits_bounds (m : positive) :
  2 ^ (Zpos (digits2_pos m) - 1) <= Zpos m < 2 ^ Zpos (digits2_pos m).
Proof.
  induction m as [m IH | m IH |]; cbn [digits2_pos].
  - rewrite Pos2Z.inj_succ, (Pos2Z.inj_xI m).
    replace (Z.succ (Zpos (digits2_pos m)) - 1) with (Z.succ (Zpos (digits2_pos m) - 1)) by lia.
    rewrite !Z.pow_succ_r by lia.
    generalize dependent (2 ^ (Zpos (digits2_pos m) - 1)).
    generalize (2 ^ Zpos (digits2_pos m)). lia.
  - rewrite Pos2Z.inj_succ, (Pos2Z.inj_xO m).
    replace (Z.succ (Zpos (digits2_pos m)) - 1) with (Z.succ (Zpos (digits2_pos m) - 1)) by lia.
    rewrite !Z.pow_succ_r by lia.
    generalize dependent (2 ^ (Zpos (digits2_pos m) - 1)).
    generalize (2 ^ Zpos (digits2_pos m)). lia.
  - cbn. lia.
Qed.

Lemma digits_le (m : positive) (n : Z) :
  0 <= n -> Zpos m < 2 ^ n -> Zpos (digits2_pos m) <= n.
Proof.
  intros Hn Hm. destruct (digits_bounds m) as [Hlo _].
  destruct (Z_le_gt_dec (Zpos (digits2_pos m)) n) as [Hle | Hgt]; [exact Hle | exfalso].
  assert (2 ^ n <= 2 ^ (Zpos (digits2_pos m) - 1)) by (apply Z.pow_le_mono_r; lia).
  lia.
Qed.

(** Dropping the [k] zero bits again is exact. *)
Lemma shr_shl (m : positive) (a k : nat) :
  Nat.iter k shr_1 (Build_shr_record (Zpos (shl m (k + a))) false false) =
  Build_shr_record (Zpos (shl m a)) false false.
Proof.
  induction k as [| k IH].
  - reflexivity.
  - rewrite Nat.iter_succ_r. exact IH.
Qed.

Lemma shr_exact (m : positive) (k : nat) (e : Z) :
  shr (Build_shr_record (Zpos (shl m k)) false false) e (Z.of_nat k) =
  (Build_shr_record (Zpos m) false false, e + Z.of_nat k).
Proof.
  destruct k as [| k].
  - cbn. f_equal. lia.
  - cbn [Z.of_nat shr]. rewrite iter_pos_nat, SuccNat2Pos.id_succ.
    pose proof (shr_shl m 0 (S k)) as Hs. rewrite Nat.add_0_r in Hs.
    now rewrite Hs.
Qed.

(** Dropping fewer bits than a mantissa has leaves a mantissa. *)
Lemma shr_positive (k : nat) (p : positive) (r s : bool) :
  Z.of_nat k < Zpos (digits2_pos p) ->
  exists p' r' s',
    Nat.iter k shr_1 (Build_shr_record (Zpos p) r s) = Build_shr_record (Zpos p') r' s' /\
    Zpos (digits2_pos p') = Zpos (digits2_pos p) - Z.of_nat k.
Proof.
  revert p r s. induction k as [| k IH]; intros p r s Hk.
  - exists p, r, s. split; [reflexivity | lia].
  - rewrite Nat.iter_succ_r.
    destruct p as [p | p |]; cbn [digits2_pos] in Hk; try (cbn in Hk; lia).
    + destruct (IH p true (r || s)%bool ltac:(lia)) as (p' & r' & s' & Hrun & Hd).
      exists p', r', s'. split; [exact Hrun |]. cbn [digits2_pos]. lia.
    + destruct (IH p false (r || s)%bool ltac:(lia)) as (p' & r' & s' & Hrun & Hd).
      exists p', r', s'. split; [exact Hrun |]. cbn [digits2_pos]. lia.
Qed.

Lemma digits_succ (p : positive) :
  Zpos (digits2_pos p) <= Zpos (digits2_pos (p + 1)) <= Zpos (digits2_pos p) + 1.
Proof.
  pose proof (digits_bounds p) as [Hlo Hhi].
  pose proof (digits_bounds (p + 1)) as [Hlo' Hhi'].
  split.
  - destruct (Z_le_gt_dec (Zpos (digits2_pos p)) (Zpos (digits2_pos (p + 1)))) as [H | H];
      [exact H | exfalso].
    assert (2 ^ Zpos (digits2_pos (p + 1)) <= 2 ^ (Zpos (digits2_pos p) - 1))
      by (apply Z.pow_le_mono_r; lia).
    lia.
  - apply digits_le; [lia |].
    rewrite Z.pow_add_r by lia. change (2 ^ 1) with 2. lia.
Qed.

Lemma round_nearest_even_positive (p : positive) (l : location) :
  round_nearest_even (Zpos p) l = Zpos p \/ round_nearest_even (Zpos p) l = Zpos (p + 1).
Proof.
  destruct l as [| []]; cbn [round_nearest_even]; auto.
  destruct (Z.even (Zpos p)); auto.
Qed.

Section Format.

Variables prec emax : Z.

(** A mantissa with trailing zero bits at a lower exponent rounds to the
    number it stands for. *)
Lemma round_shifted (s : bool) (m : positive) (e : Z) (k : nat) :
  bounded prec emax m e = true ->
  binary_round_aux prec emax s (Zpos (shl m k)) (e - Z.of_nat k) loc_Exact =
  S754_finite s m e.
Proof.
  intros Hb. unfold bounded, canonical_mantissa in Hb.
  apply andb_true_iff in Hb. destruct Hb as [Hc He].
  apply Z.eqb_eq in Hc.
  assert (Hfirst : shr_fexp prec emax (Zpos (shl m k)) (e - Z.of_nat k) loc_Exact =
                   (Build_shr_record (Zpos m) false false, e)).
  { unfold shr_fexp. cbn [Zdigits2 shr_record_of_loc]. rewrite digits_shl.
    replace (Zpos (digits2_pos m) + Z.of_nat k + (e - Z.of_nat k))
      with (Zpos (digits2_pos m) + e) by lia.
    rewrite Hc. replace (e - (e - Z.of_nat k)) with (Z.of_nat k) by lia.
    rewrite shr_exact. f_equal. lia. }
  assert (Hsecond : shr_fexp prec emax (Zpos m) e loc_Exact =
                    (Build_shr_record (Zpos m) false false, e)).
  { unfold shr_fexp. cbn [Zdigits2 shr_record_of_loc]. rewrite Hc, Z.sub_diag.
    reflexivity. }
  unfold binary_round_aux. rewrite Hfirst. cbn [shr_m loc_of_shr_record round_nearest_even].
  rewrite Hsecond. cbn [shr_m]. rewrite He. reflexivity.
Qed.

Lemma round_canonical (s : bool) (m : positive) (e : Z) :
  bounded prec emax m e = true ->
  binary_round_aux prec emax s (Zpos m) e loc_Exact = S754_finite s m e.
Proof.
  intros Hb. pose proof (@round_shifted s m e 0%nat Hb) as H.
  cbn in H. now rewrite Z.sub_0_r in H.
Qed.

Lemma mul_one (x : spec_float) (k : nat) :
  valid_binary prec emax x = true -> SFmul prec emax x (float_one k) = x.
Proof.
  destruct x as [s | s | | s m e]; intros Hv; cbn [SFmul float_one].
  - now rewrite xorb_false_r.
  - now rewrite xorb_false_r.
  - reflexivity.
  - rewrite xorb_false_r, shl_mul.
    replace (e + - Z.of_nat k) with (e - Z.of_nat k) by lia.
    now apply round_shifted.
Qed.

Lemma pow_shl_one (k : nat) : Zpos (shl 1 k) = 2 ^ Z.of_nat k.
Proof. rewrite shl_pow. lia. Qed.

Lemma div_eucl_exact (a b : Z) : 0 < b -> Z.div_eucl (a * b) b = (a, 0).
Proof.
  intros Hb. pose proof (Z.div_mul a b ltac:(lia)) as Hq.
  pose proof (Z.mod_mul a b ltac:(lia)) as Hr.
  unfold Z.div, Z.modulo in Hq, Hr.
  destruct (Z.div_eucl (a * b) b) as [q r]. now subst.
Qed.

Lemma new_location_exact (n : Z) : new_location n 0 = loc_Exact.
Proof.
  unfold new_location, new_location_even, new_location_odd.
  now destruct (Z.even n).
Qed.

Lemma div_one (x : spec_float) (k : nat) :
  valid_binary prec emax x = true -> SFdiv prec emax x (float_one k) = x.
Proof.
  destruct x as [s | s | | s m e]; intros Hv; cbn [SFdiv float_one].
  - now rewrite xorb_false_r.
  - now rewrite xorb_false_r.
  - reflexivity.
  - rewrite xorb_false_r. cbn [valid_binary] in Hv.
    pose proof Hv as Hb. unfold bounded, canonical_mantissa in Hb.
    apply andb_true_iff in Hb. destruct Hb as [Hc He]. apply Z.eqb_eq in Hc.
    unfold SFdiv_core_binary. cbn [Zdigits2].
    rewrite (digits_shl 1 k). cbn [digits2_pos].
    set (d := Zpos (digits2_pos m)) in *.
    replace (d + e - (1 + Z.of_nat k + - Z.of_nat k)) with (d + e - 1) by lia.
    replace (e - - Z.of_nat k) with (e + Z.of_nat k) by lia.
    assert (Hcase : fexp prec emax (d + e - 1) = e \/ fexp prec emax (d + e - 1) = e - 1).
    { unfold fexp in *. lia. }
    destruct Hcase as [Hf | Hf]; rewrite Hf.
    + rewrite Z.min_l by lia.
      replace (e + Z.of_nat k - e) with (Z.of_nat k) by lia.
      assert (Hm : match Z.of_nat k with
                   | 0 => Zpos m
                   | Zpos _ => Z.shiftl (Zpos m) (Z.of_nat k)
                   | Zneg _ => 0
                   end = Zpos m * Zpos (shl 1 k)).
      { rewrite pow_shl_one. destruct k as [| k].
        - cbn. lia.
        - rewrite <- Z.shiftl_mul_pow2 by lia.
          now destruct (Z.of_nat (S k)) eqn:E; try lia. }
      rewrite Hm, div_eucl_exact by lia. rewrite new_location_exact.
      now apply round_canonical.
    + rewrite Z.min_l by lia.
      replace (e + Z.of_nat k - (e - 1)) with (Z.of_nat (S k)) by lia.
      assert (Hm : match Z.of_nat (S k) with
                   | 0 => Zpos m
                   | Zpos _ => Z.shiftl (Zpos m) (Z.of_nat (S k))
                   | Zneg _ => 0
                   end = Zpos (shl m 1) * Zpos (shl 1 k)).
      { rewrite pow_shl_one, (shl_pow m 1).
        rewrite <- (Z.shiftl_mul_pow2 _ (Z.of_nat 1)), <- Z.shiftl_mul_pow2 by lia.
        rewrite Z.shiftl_shiftl by lia.
        replace (Z.of_nat 1 + Z.of_nat k) with (Z.of_nat (S k)) by lia.
        now destruct (Z.of_nat (S k)) eqn:E; try lia. }
      rewrite Hm, div_eucl_exact by lia. rewrite new_location_exact.
      replace (e - 1) with (e - Z.of_nat 1) by lia.
      now apply round_shifted.
Qed.

(** ** The float of a small integer *)

Hypothesis prec_gt_1 : 1 < prec.
Hypothesis prec_emax : prec <= emax.

Lemma normal_bounded (s : bool) (p : positive) :
  Zpos (digits2_pos p) <= prec ->
  bounded prec emax (shl p (Z.to_nat (prec - Zpos (digits2_pos p))))
    (Zpos (digits2_pos p) - prec) = true.
Proof.
  intros Hd. unfold bounded, canonical_mantissa. apply andb_true_iff. split.
  - apply Z.eqb_eq. rewrite digits_shl. unfold fexp, emin. lia.
  - apply Z.leb_le. lia.
Qed.

Lemma round_int_normal (s : bool) (p : positive) :
  Zpos (digits2_pos p) <= prec ->
  binary_round prec emax s p 0 = normal prec s p.
Proof.
  intros Hd. pose proof (normal_bounded s p Hd) as Hb.
  unfold binary_round, shl_align.
  rewrite Z.add_0_r, Z.sub_0_r.
  assert (Hf : fexp prec emax (Zpos (digits2_pos p)) = Zpos (digits2_pos p) - prec).
  { unfold fexp, emin. lia. }
  rewrite Hf. unfold normal in *.
  destruct (Zpos (digits2_pos p) - prec) as [| q | q] eqn:E; try lia.
  - replace (prec - Zpos (digits2_pos p)) with 0 in * by lia. cbn in *.
    now apply round_canonical.
  - rewrite pos_iter_shl.
    replace (Z.to_nat (prec - Zpos (digits2_pos p))) with (Pos.to_nat q) in * by lia.
    now apply round_canonical.
Qed.

Lemma of_int_normal (p : positive) :
  Zpos p < 2 ^ prec ->
  binary_normalize prec emax (Zpos p) 0 false = normal prec false p.
Proof.
  intros Hp. cbn [binary_normalize]. apply round_int_normal.
  apply digits_le; lia.
Qed.

(** Counting up by one is exact as long as the digits fit. *)
Lemma add_one (p : positive) :
  Zpos (p + 1) < 2 ^ prec ->
  SFadd prec emax (normal prec false p) (normal prec false 1) = normal prec false (p + 1).
Proof.
  intros Hp.
  assert (Hd' : Zpos (digits2_pos (p + 1)) <= prec) by (apply digits_le; lia).
  assert (Hd : Zpos (digits2_pos p) <= prec) by (apply digits_le; lia).
  set (d := Zpos (digits2_pos p)) in *.
  set (d' := Zpos (digits2_pos (p + 1))) in *.
  assert (Hd1 : 1 <= d) by (subst d; lia).
  assert (Hd2 : 2 <= d').
  { subst d'. destruct (Z_le_gt_dec 2 (Zpos (digits2_pos (p + 1)))) as [H | H]; [exact H |].
    pose proof (digits_bounds (p + 1)) as [_ Hhi].
    assert (H1 : Zpos (digits2_pos (p + 1)) = 1) by lia.
    rewrite H1 in Hhi. cbn in Hhi. lia. }
  unfold normal at 1 2. fold d. cbn [digits2_pos]. cbn [SFadd].
  replace (Z.min (d - prec) (1 - prec)) with (1 - prec) by lia.
  set (k := Z.to_nat (prec - 1)).
  assert (Hx : fst (shl_align (shl p (Z.to_nat (prec - d))) (d - prec) (1 - prec)) = shl p k).
  { unfold shl_align. destruct (1 - prec - (d - prec)) as [| q | q] eqn:E; try lia.
    - cbn [fst]. f_equal. lia.
    - cbn [fst]. rewrite pos_iter_shl, shl_add. f_equal. lia. }
  assert (Hy : fst (shl_align (shl 1 k) (1 - prec) (1 - prec)) = shl 1 k).
  { unfold shl_align. now rewrite Z.sub_diag. }
  rewrite Hx, Hy. cbn [cond_Zopp].
  assert (Hsum : Zpos (shl p k) + Zpos (shl 1 k) = Zpos (shl (p + 1) k)).
  { rewrite !shl_pow. lia. }
  rewrite Hsum. unfold binary_normalize, binary_round, shl_align.
  rewrite digits_shl. fold d'.
  assert (Hf : fexp prec emax (d' + Z.of_nat k + (1 - prec)) = d' - prec).
  { unfold fexp, emin. lia. }
  rewrite Hf.
  destruct (d' - prec - (1 - prec)) as [| q | q] eqn:E; try lia.
  pose proof (@round_shifted false _ _ (Z.to_nat (d' - 1)) (normal_bounded false (p + 1) Hd')) as Hr.
  fold d' in Hr. rewrite shl_add in Hr.
  replace (Z.to_nat (d' - 1) + Z.to_nat (prec - d'))%nat with k in Hr by lia.
  replace (d' - prec - Z.of_nat (Z.to_nat (d' - 1))) with (1 - prec) in Hr by lia.
  rewrite Hr. unfold normal. fold d'. reflexivity.
Qed.

(** The float of an integer that is not zero is not zero. *)
Lemma round_int_not_zero (s : bool) (p : positive) :
  float_is_zero (binary_round prec emax s p 0) = false.
Proof.
  destruct (Z_le_gt_dec (Zpos (digits2_pos p)) prec) as [Hd | Hd].
  - now rewrite round_int_normal.
  - set (d := Zpos (digits2_pos p)) in *.
    unfold binary_round, shl_align. rewrite Z.add_0_r, Z.sub_0_r. fold d.
    assert (Hf : fexp prec emax d = d - prec) by (unfold fexp, emin; lia).
    rewrite Hf. destruct (d - prec) as [| q | q] eqn:E; try lia.
    unfold binary_round_aux, shr_fexp at 1. cbn [Zdigits2 shr_record_of_loc].
    fold d. rewrite Z.add_0_r, Hf, Z.sub_0_r. cbn [shr].
    rewrite iter_pos_nat.
    destruct (@shr_positive (Pos.to_nat q) p false false ltac:(fold d; lia))
      as (p1 & r1 & s1 & Hrun & Hd1).
    rewrite Hrun. cbn [shr_m]. fold d in Hd1.
    set (l := loc_of_shr_record _).
    assert (Hp2 : exists p2, round_nearest_even (Zpos p1) l = Zpos p2 /\
                             prec <= Zpos (digits2_pos p2) <= prec + 1).
    { pose proof (digits_succ p1).
      destruct (round_nearest_even_positive p1 l) as [-> | ->]; eexists; split;
        try reflexivity; lia. }
    destruct Hp2 as (p2 & -> & Hd2).
    unfold shr_fexp. cbn [Zdigits2 shr_record_of_loc].
    set (d2 := Zpos (digits2_pos p2)) in *.
    assert (Hf2 : fexp prec emax (d2 + (0 + Zpos q)) - (0 + Zpos q) = d2 - prec)
      by (unfold fexp, emin; lia).
    rewrite Hf2.
    destruct (d2 - prec) as [| q2 | q2] eqn:E2; try lia.
    + cbn [shr shr_m]. now destruct (Z.leb _ _).
    + assert (q2 = 1%positive) by lia. subst q2. cbn [shr iter_pos].
      destruct p2 as [p2 | p2 |]; cbn [shr_1 shr_m].
      * now destruct (Z.leb _ _).
      * now destruct (Z.leb _ _).
      * subst d2. cbn in Hd2. lia.
Qed.

Lemma of_int_not_zero (z : Z) :
  float_is_zero (binary_normalize prec emax z 0 false) = true -> z = 0.
Proof.
  destruct z as [| p | p]; cbn [binary_normalize]; [reflexivity | |];
    now rewrite round_int_not_zero.
Qed.

End Format.

End FloatFacts.

(** ** The arithmetic of Python and of the tensors *)

Module NumberFacts.

Import FloatFacts Machine.

Local Open Scope Z_scope.

Lemma float64_one : Float64.of_int 1 = float_one 52.
Proof. reflexivity. Qed.

Lemma float32_one : Float32.of_int 1 = float_one 23.
Proof. reflexivity. Qed.

Lemma float64_mul_one (x : spec_float) :
  Float64.valid x = true -> Float64.mul x (Float64.of_int 1) = x.
Proof. intros Hv. rewrite float64_one. now apply mul_one. Qed.

Lemma float64_div_one (x : spec_float) :
  Float64.valid x = true -> Float64.div x (Float64.of_int 1) = x.
Proof. intros Hv. rewrite float64_one. now apply div_one. Qed.

Lemma float32_mul_one (x : spec_float) :
  Float32.valid x = true -> Float32.mul x (Float32.of_int 1) = x.
Proof. intros Hv. rewrite float32_one. now apply mul_one. Qed.

Lemma float32_div_one (x : spec_float) :
  Float32.valid x = true -> Float32.div x (Float32.of_int 1) = x.
Proof. intros Hv. rewrite float32_one. now apply div_one. Qed.

Lemma add_zero_l (prec emax : Z) (x : spec_float) :
  SFadd prec emax (S754_zero false) x = plus_zero x.
Proof. destruct x as [[] | | |]; reflexivity. Qed.

Lemma plus_zero_valid (prec emax : Z) (x : spec_float) :
  valid_binary prec emax x = true -> valid_binary prec emax (plus_zero x) = true.
Proof. destruct x; auto. Qed.

Lemma SFcompare_refl (x : spec_float) : is_nan x = false -> SFcompare x x = Some Eq.
Proof.
  destruct x as [s | s | | s m e]; intros Hn; try discriminate Hn; cbn [SFcompare].
  - reflexivity.
  - now destruct s.
  - destruct s; rewrite Z.compare_refl;
      change (Pos.compare_cont Eq m m) with (Pos.compare m m);
      now rewrite Pos.compare_refl.
Qed.

Lemma plus_zero_eqb (x : spec_float) : is_nan x = false -> SFeqb (plus_zero x) x = true.
Proof.
  intros Hn. unfold SFeqb. destruct x as [s | s | | s m e]; try discriminate Hn.
  - reflexivity.
  - cbn [plus_zero]. now rewrite SFcompare_refl.
  - cbn [plus_zero]. now rewrite SFcompare_refl.
Qed.

(** Neither the product nor the sum raises a division by zero. *)
Lemma convert2_error (conv : number -> outcome spec_float) (a b : number)
    (k : spec_float -> spec_float -> outcome number) (e : pyerror) :
  convert2 conv a b k = inl e ->
  conv a = inl e \/ conv b = inl e \/
  exists x y, conv a = inr x /\ conv b = inr y /\ k x y = inl e.
Proof.
  unfold convert2. destruct (conv a) as [ea | x]; [intros [= ->]; auto |].
  destruct (conv b) as [eb | y]; [intros [= ->]; auto |].
  intros Hk. right. right. now exists x, y.
Qed.

Lemma as_float_error (a : number) (e : pyerror) : as_float a = inl e -> e = OverflowError.
Proof.
  destruct a as [z | x | x]; cbn [as_float]; try discriminate.
  unfold float_of_int. destruct (is_infinity _); [now intros [= <-] | discriminate].
Qed.

Lemma as_float32_error (a : number) (e : pyerror) :
  as_float32 a = inl e -> e = Base RuntimeError.
Proof.
  destruct a as [z | x | x]; cbn [as_float32]; try discriminate.
  destruct (_ && _)%bool; [discriminate | now intros [= <-]].
Qed.

Lemma binop_error (on_int : Z -> Z -> Z)
    (on_float on_float32 : spec_float -> spec_float -> spec_float) (a b : number) (e : pyerror) :
  binop on_int on_float on_float32 a b = inl e ->
  e = OverflowError \/ e = Base RuntimeError.
Proof.
  unfold binop. intros H.
  assert (Hgen : (if (is_tensor a || is_tensor b)%bool
                  then convert2 as_float32 a b (fun x y => inr (Tensor (on_float32 x y)))
                  else convert2 as_float a b (fun x y => inr (PyFloat (on_float x y)))) = inl e ->
                 e = OverflowError \/ e = Base RuntimeError).
  { destruct (is_tensor a || is_tensor b)%bool; intros Hc;
      apply convert2_error in Hc; destruct Hc as [Hc | [Hc | (x & y & _ & _ & Hc)]];
      try discriminate Hc;
      first [ apply as_float32_error in Hc; now right
            | apply as_float_error in Hc; now left ]. }
  destruct a as [x | x | x], b as [y | y | y]; first [discriminate H | now apply Hgen].
Qed.

(** What a division by zero tells of the operands of [/]. *)
Lemma truediv_zero_division (a b : number) :
  py_truediv a b = inl (Base ZeroDivisionError) ->
  is_tensor a = false /\ is_tensor b = false /\ is_zero b = true.
Proof.
  assert (Hfloat : forall a b,
             convert2 as_float a b
               (fun x y => if float_is_zero y then inl (Base ZeroDivisionError)
                           else inr (PyFloat (Float64.div x y))) = inl (Base ZeroDivisionError) ->
             is_zero b = true).
  { intros a' b' Hc. apply convert2_error in Hc.
    destruct Hc as [Hc | [Hc | (x & y & _ & Hb & Hc)]].
    - apply as_float_error in Hc. discriminate Hc.
    - apply as_float_error in Hc. discriminate Hc.
    - destruct (float_is_zero y) eqn:Hz; [| discriminate Hc].
      destruct b' as [z | y' | y']; cbn [as_float is_zero] in *.
      + unfold float_of_int in Hb. destruct (is_infinity _); [discriminate Hb |].
        injection Hb as <-. apply Z.eqb_eq.
        apply (@of_int_not_zero Float64.prec Float64.emax); [reflexivity | discriminate | exact Hz].
      + now injection Hb as ->.
      + now injection Hb as ->. }
  assert (Htensor : forall a b,
             convert2 as_float32 a b (fun x y => inr (Tensor (Float32.div x y)))
             <> inl (Base ZeroDivisionError)).
  { intros a' b' Hc. apply convert2_error in Hc.
    destruct Hc as [Hc | [Hc | (x & y & _ & _ & Hc)]]; try discriminate Hc;
      apply as_float32_error in Hc; discriminate Hc. }
  unfold py_truediv. intros H.
  destruct a as [x | x | x], b as [y | y | y]; cbn [is_tensor orb] in H;
    try (exfalso; revert H; apply Htensor);
    try (repeat split; try reflexivity; now apply (Hfloat _ _ H)).
  unfold int_truediv in H. cbn [is_tensor is_zero].
  destruct (y =? 0) eqn:Hy; [auto |].
  destruct (x =? 0); [discriminate H |].
  destruct (is_infinity _); discriminate H.
Qed.

(** A zero divisor raises, between Python numbers, once the dividend is
    converted. *)
Lemma truediv_by_zero (a b : number) (x : spec_float) :
  is_tensor a = false -> is_tensor b = false -> as_float a = inr x -> is_zero b = true ->
  py_truediv a b = inl (Base ZeroDivisionError).
Proof.
  intros Ha Hb Hx Hz. unfold py_truediv.
  destruct a as [u | u | u], b as [y | y | y]; try discriminate Ha; try discriminate Hb;
    cbn [is_zero] in Hz; cbn [is_tensor orb].
  - unfold int_truediv. now rewrite Hz.
  - unfold convert2. rewrite Hx. cbn [as_float]. now rewrite Hz.
  - apply Z.eqb_eq in Hz. subst y. reflexivity.
  - unfold convert2. cbn [as_float]. now rewrite Hz.
Qed.

End NumberFacts.

(** ** AverageMeter with the numbers of the machine *)

Module MeterFacts.

Import Machine NumberFacts.
Import Machine.AverageMeter.

Local Open Scope Z_scope.

Lemma meter_reset_run (m : t) :
  reset m = (inr tt, mk (name m) (fmt m) (Some (PyInt 0)) (Some (PyInt 0))
                        (Some (PyInt 0)) (Some (PyInt 0))).
Proof. destruct m; reflexivity. Qed.

(** One [update] on an object that has its sum and its count, by the
    outcome of each of the four statements. *)
Lemma meter_update_run (v n s c : number) (m : t) :
  sum m = Some s -> count m = Some c ->
  update v n m =
    match py_mul v n with
    | inl e => (inl e, set_val v m)
    | inr p =>
        match py_add s p with
        | inl e => (inl e, set_val v m)
        | inr s' =>
            match py_add c n with
            | inl e => (inl e, mk (name m) (fmt m) (Some v) (avg m) (Some s') (count m))
            | inr c' =>
                match py_truediv s' c' with
                | inl e => (inl e, mk (name m) (fmt m) (Some v) (avg m) (Some s') (Some c'))
                | inr q => (inr tt, mk (name m) (fmt m) (Some v) (Some q) (Some s') (Some c'))
                end
            end
        end
    end.
Proof.
  intros Hs Hc. destruct m as [nm f v0 a s0 c0]. cbn [sum count] in Hs, Hc. subst s0 c0.
  unfold update, run_bind, setattr, getattr, eval, set_val, set_sum, set_count, set_avg.
  cbn [name fmt val avg sum count].
  destruct (py_mul v n) as [e | p]; [reflexivity |].
  destruct (py_add s p) as [e | s']; [reflexivity |].
  destruct (py_add c n) as [e | c']; [reflexivity |].
  destruct (py_truediv s' c') as [e | q]; reflexivity.
Qed.

(** C2. The constructor runs [reset], which assigns the integer 0 to
    val, avg, sum and count, whatever they were, and raises nothing; the
    avg read then, no update made, is 0. [update(value, weight)] on an
    object that has been reset assigns [value] to val, the sum of sum and
    [value * weight] to sum, the sum of count and [weight] to count, and
    the quotient of the two to avg: when the division returns, the update
    returns; when it raises, the update raises the same and avg is kept.
    On integers the product and the sums are exact. The default weight is
    1. *)
Theorem meter_contract (nm f : string) (m : t) (v n : number) :
  init nm f = mk nm f (Some (PyInt 0)) (Some (PyInt 0)) (Some (PyInt 0)) (Some (PyInt 0)) /\
  reset m = (inr tt, mk (name m) (fmt m) (Some (PyInt 0)) (Some (PyInt 0))
                        (Some (PyInt 0)) (Some (PyInt 0))) /\
  getattr avg (snd (reset m)) = (inr (PyInt 0), snd (reset m)) /\
  (forall s c p s' c',
      sum m = Some s -> count m = Some c ->
      py_mul v n = inr p -> py_add s p = inr s' -> py_add c n = inr c' ->
      match py_truediv s' c' with
      | inr q => update v n m =
                   (inr tt, mk (name m) (fmt m) (Some v) (Some q) (Some s') (Some c'))
      | inl e => update v n m =
                   (inl e, mk (name m) (fmt m) (Some v) (avg m) (Some s') (Some c'))
      end) /\
  (forall a k s c,
      v = PyInt a -> n = PyInt k -> sum m = Some (PyInt s) -> count m = Some (PyInt c) ->
      val (snd (update v n m)) = Some (PyInt a) /\
      sum (snd (update v n m)) = Some (PyInt (s + a * k)) /\
      count (snd (update v n m)) = Some (PyInt (c + k))) /\
  update1 v = update v (PyInt 1).
Proof.
  split; [reflexivity |]. split; [apply meter_reset_run |]. split; [now rewrite meter_reset_run |].
  split; [| split; [| reflexivity]].
  - intros s c p s' c' Hs Hc Hp Hs' Hc'.
    rewrite (meter_update_run v n m Hs Hc), Hp, Hs', Hc'.
    destruct (py_truediv s' c'); reflexivity.
  - intros a k s c -> -> Hs Hc.
    rewrite (meter_update_run (PyInt a) (PyInt k) m Hs Hc).
    cbn [py_mul py_add binop].
    destruct (py_truediv (PyInt (s + a * k)) (PyInt (c + k))); cbn [snd val sum count];
      repeat split; reflexivity.
Qed.

Lemma meter_contract_witness :
  update (PyInt 2) (PyInt 3) (init "Loss" ":.4e") =
    (inr tt, mk "Loss" ":.4e" (Some (PyInt 2)) (Some (PyFloat (Float64.of_int 2)))
                (Some (PyInt 6)) (Some (PyInt 3))).
Proof.
  exact (proj1 (proj2 (proj2 (proj2 (meter_contract "Loss" ":.4e" (init "Loss" ":.4e")
                                      (PyInt 2) (PyInt 3)))))
           (PyInt 0) (PyInt 0) (PyInt 6) (PyInt 6) (PyInt 3)
           eq_refl eq_refl eq_refl eq_refl eq_refl).
Defined.

(** The running mean of the specification's test list: 2 then 4, each
    with weight 1, average 3. *)
Example update_twice_machine :
  avg (snd (update1 (PyFloat (Float64.of_int 4))
              (snd (update1 (PyFloat (Float64.of_int 2)) (init "Loss" ":2.3f"))))) =
  Some (PyFloat (Float64.of_int 3)).
Proof. reflexivity. Qed.

(** An object that was not reset has no sum to add to. *)
Example update_before_reset :
  fst (update (PyInt 2) (PyInt 1) (blank "Loss" ":2.3f")) = inl AttributeError.
Proof. reflexivity. Qed.

(** C8, as it stands, fails for the weight 3: the average of the one
    value 0.1 is the float next above 0.1, and for the weight 0, where the
    update raises. *)
Lemma update_weight_three_average :
  (exists q,
      update (PyFloat tenth) (PyInt 3) (init "Loss" ":.4e") =
        (inr tt, mk "Loss" ":.4e" (Some (PyFloat tenth)) (Some (PyFloat q))
                    (Some (PyFloat (S754_finite false 5404319552844596 (-54))))
                    (Some (PyInt 3))) /\
      q = S754_finite false 7205759403792795 (-56) /\
      SFeqb q tenth = false /\ SFltb tenth q = true) /\
  update (PyFloat tenth) (PyInt 0) (init "Loss" ":.4e") =
    (inl (Base ZeroDivisionError),
     mk "Loss" ":.4e" (Some (PyFloat tenth)) (Some (PyInt 0))
        (Some (PyFloat (S754_zero false))) (Some (PyInt 0))).
Proof.
  split; [| reflexivity]. eexists. split; [reflexivity |]. repeat split.
Qed.

(** C8, amended. After one [update(v)] with the default weight on a
    freshly reset meter the update has raised nothing and avg equals [v]:
    for every Python float [v] and for every [float32] tensor element [v]
    that is not a NaN. *)
Theorem update_default_weight_average (nm f : string) (x : spec_float) :
  is_nan x = false ->
  (Float64.valid x = true ->
   exists q,
     update1 (PyFloat x) (init nm f) =
       (inr tt, mk nm f (Some (PyFloat x)) (Some (PyFloat q)) (Some (PyFloat q))
                   (Some (PyInt 1))) /\
     SFeqb q x = true) /\
  (Float32.valid x = true ->
   exists q,
     update1 (Tensor x) (init nm f) =
       (inr tt, mk nm f (Some (Tensor x)) (Some (Tensor q)) (Some (Tensor q))
                   (Some (PyInt 1))) /\
     SFeqb q x = true).
Proof.
  intros Hn. split; intros Hv; exists (plus_zero x); (split; [| now apply plus_zero_eqb]).
  - unfold update1.
    rewrite (@meter_update_run (PyFloat x) (PyInt 1) (PyInt 0) (PyInt 0) (init nm f) eq_refl eq_refl).
    assert (Hp : py_mul (PyFloat x) (PyInt 1) = inr (PyFloat x)).
    { unfold py_mul, binop, convert2. cbn [is_tensor orb as_float].
      change (float_of_int 1) with (@inr pyerror _ (Float64.of_int 1)). cbv beta iota.
      now rewrite float64_mul_one. }
    rewrite Hp.
    assert (Hs : py_add (PyInt 0) (PyFloat x) = inr (PyFloat (plus_zero x))).
    { unfold py_add, binop, convert2. cbn [is_tensor orb as_float].
      change (float_of_int 0) with (@inr pyerror _ (S754_zero false)). cbv beta iota.
      unfold Float64.add. now rewrite add_zero_l. }
    rewrite Hs. cbn [py_add binop].
    assert (Hq : py_truediv (PyFloat (plus_zero x)) (PyInt (0 + 1)) =
                 inr (PyFloat (plus_zero x))).
    { unfold py_truediv, convert2. cbn [is_tensor orb as_float].
      change (float_of_int (0 + 1)) with (@inr pyerror _ (Float64.of_int 1)). cbv beta iota.
      change (float_is_zero (Float64.of_int 1)) with false. cbv beta iota.
      rewrite float64_div_one; [reflexivity |]. now apply plus_zero_valid. }
    rewrite Hq. reflexivity.
  - unfold update1.
    rewrite (@meter_update_run (Tensor x) (PyInt 1) (PyInt 0) (PyInt 0) (init nm f) eq_refl eq_refl).
    assert (Hp : py_mul (Tensor x) (PyInt 1) = inr (Tensor x)).
    { unfold py_mul, binop, convert2. cbn [is_tensor orb as_float32].
      change ((- 2 ^ 63 <=? 1) && (1 <? 2 ^ 63))%bool with true. cbv beta iota.
      now rewrite float32_mul_one. }
    rewrite Hp.
    assert (Hs : py_add (PyInt 0) (Tensor x) = inr (Tensor (plus_zero x))).
    { unfold py_add, binop, convert2. cbn [is_tensor orb as_float32].
      change ((- 2 ^ 63 <=? 0) && (0 <? 2 ^ 63))%bool with true. cbv beta iota.
      change (Float32.of_int 0) with (S754_zero false).
      unfold Float32.add. now rewrite add_zero_l. }
    rewrite Hs. cbn [py_add binop].
    assert (Hq : py_truediv (Tensor (plus_zero x)) (PyInt (0 + 1)) =
                 inr (Tensor (plus_zero x))).
    { unfold py_truediv, convert2. cbn [is_tensor orb as_float32].
      change ((- 2 ^ 63 <=? 0 + 1) && (0 + 1 <? 2 ^ 63))%bool with true. cbv beta iota.
      change (Float32.of_int (0 + 1)) with (Float32.of_int 1).
      rewrite float32_div_one; [reflexivity |]. now apply plus_zero_valid. }
    rewrite Hq. reflexivity.
Qed.

Lemma update_default_weight_average_witness :
  exists q,
    update1 (PyFloat tenth) (init "Loss" ":.4e") =
      (inr tt, mk "Loss" ":.4e" (Some (PyFloat tenth)) (Some (PyFloat q)) (Some (PyFloat q))
                  (Some (PyInt 1))) /\
    SFeqb q tenth = true.
Proof.
  exact (proj1 (update_default_weight_average "Loss" ":.4e" tenth eq_refl) eq_refl).
Defined.

(** C10, as it stands, fails for a tensor value, which is what the
    accuracy meters are fed: with the weight 0 on a freshly reset meter
    the count is 0 after the update, nothing is raised and avg is
    overwritten, by a NaN. *)
Lemma update_tensor_zero_count :
  update (Tensor (Float32.of_int 50)) (PyInt 0) (init "Acc@1" ":6.2f") =
    (inr tt, mk "Acc@1" ":6.2f" (Some (Tensor (Float32.of_int 50))) (Some (Tensor S754_nan))
                (Some (Tensor (S754_zero false))) (Some (PyInt 0))).
Proof. reflexivity. Qed.

(** C10, amended. On an object that has been reset, [update(val, n)]
    raises a division by zero only when the product and the two sums
    were computed, the new sum and the new count are Python numbers, not
    tensors, and the new count is zero; and it does raise it then, provided
    the sum converts to a float. In both directions val, sum and count have
    been assigned when the error is raised, and avg keeps its old
    value. *)
Theorem update_zero_division_after_mutation (v n s c : number) (m : t) :
  sum m = Some s -> count m = Some c ->
  (forall m', update v n m = (inl (Base ZeroDivisionError), m') ->
      exists p s' c',
        py_mul v n = inr p /\ py_add s p = inr s' /\ py_add c n = inr c' /\
        is_tensor s' = false /\ is_tensor c' = false /\ is_zero c' = true /\
        m' = mk (name m) (fmt m) (Some v) (avg m) (Some s') (Some c')) /\
  (forall p s' c' x,
      py_mul v n = inr p -> py_add s p = inr s' -> py_add c n = inr c' ->
      is_tensor s' = false -> is_tensor c' = false -> as_float s' = inr x ->
      is_zero c' = true ->
      update v n m =
        (inl (Base ZeroDivisionError),
         mk (name m) (fmt m) (Some v) (avg m) (Some s') (Some c'))).
Proof.
  intros Hs Hc. rewrite (meter_update_run v n m Hs Hc). split.
  - intros m' H.
    destruct (py_mul v n) as [e | p] eqn:Hp.
    { injection H as He _. subst e. apply binop_error in Hp.
      destruct Hp as [Hp | Hp]; discriminate Hp. }
    destruct (py_add s p) as [e | s'] eqn:Hs'.
    { injection H as He _. subst e. apply binop_error in Hs'.
      destruct Hs' as [Hs' | Hs']; discriminate Hs'. }
    destruct (py_add c n) as [e | c'] eqn:Hc'.
    { injection H as He _. subst e. apply binop_error in Hc'.
      destruct Hc' as [Hc' | Hc']; discriminate Hc'. }
    destruct (py_truediv s' c') as [e | q] eqn:Hq; [| discriminate H].
    injection H as He Hm. subst e m'.
    apply truediv_zero_division in Hq. destruct Hq as (Hts & Htc & Hz).
    exists p, s', c'. repeat split; assumption.
  - intros p s' c' x Hp Hs' Hc' Hts Htc Hx Hz.
    rewrite Hp, Hs', Hc', (truediv_by_zero s' c' Hts Htc Hx Hz). reflexivity.
Qed.

Lemma update_zero_division_after_mutation_witness :
  update (PyFloat tenth) (PyInt 0) (init "Time" ":6.3f") =
    (inl (Base ZeroDivisionError),
     mk "Time" ":6.3f" (Some (PyFloat tenth)) (Some (PyInt 0))
        (Some (PyFloat (S754_zero false))) (Some (PyInt 0))).
Proof.
  exact (proj2 (@update_zero_division_after_mutation (PyFloat tenth) (PyInt 0) (PyInt 0) (PyInt 0)
                  (init "Time" ":6.3f") eq_refl eq_refl)
           (PyFloat (S754_zero false)) (PyFloat (S754_zero false)) (PyInt 0) (S754_zero false)
           eq_refl eq_refl eq_refl eq_refl eq_refl eq_refl eq_refl).
Defined.

End MeterFacts.

(** ** accuracy with the numbers of the machine *)

Module RoundedAccuracy.

Import FloatFacts NumberFacts AccuracyFacts.
Import Machine.

Lemma same_float_eq (x y : spec_float) : same_float x y = true <-> x = y.
Proof.
  split.
  - destruct x as [a | a | | a m e], y as [b | b | | b n f]; cbn [same_float];
      try discriminate; intros H.
    + now apply Bool.eqb_prop in H; subst.
    + now apply Bool.eqb_prop in H; subst.
    + reflexivity.
    + apply andb_true_iff in H. destruct H as [H He].
      apply andb_true_iff in H. destruct H as [Hs Hm].
      apply Bool.eqb_prop in Hs. apply Pos.eqb_eq in Hm. apply Z.eqb_eq in He.
      now subst.
  - intros <-. destruct x as [a | a | | a m e]; cbn [same_float];
      rewrite ?Bool.eqb_reflx, ?Pos.eqb_refl, ?Z.eqb_refl; reflexivity.
Qed.

(** *** The count of the hits as a [float32] *)

Lemma float32_of_nat (n : nat) :
  (0 < n)%nat -> (Z.of_nat n < 2 ^ 24)%Z ->
  Float32.of_int (Z.of_nat n) = normal 24 false (Pos.of_nat n).
Proof.
  intros Hpos Hn. unfold Float32.of_int.
  replace (Z.of_nat n) with (Zpos (Pos.of_nat n)) by lia.
  apply (@of_int_normal Float32.prec Float32.emax); [reflexivity | discriminate |].
  change Float32.prec with 24%Z. lia.
Qed.

Lemma float32_count_succ (n : nat) :
  (Z.of_nat (S n) < 2 ^ 24)%Z ->
  Float32.add (Float32.of_int (Z.of_nat n)) (Float32.of_int 1) =
  Float32.of_int (Z.of_nat (S n)).
Proof.
  intros Hn. destruct n as [| n]; [reflexivity |].
  rewrite !float32_of_nat by lia.
  change (Float32.of_int 1) with (normal 24 false 1).
  replace (Pos.of_nat (S (S n))) with (Pos.of_nat (S n) + 1)%positive by lia.
  apply (@add_one Float32.prec Float32.emax); [reflexivity | discriminate |].
  change Float32.prec with 24%Z. lia.
Qed.

Lemma float32_count_same (n : nat) :
  (Z.of_nat n < 2 ^ 24)%Z ->
  Float32.add (Float32.of_int (Z.of_nat n)) (Float32.of_int 0) = Float32.of_int (Z.of_nat n).
Proof.
  intros Hn. destruct n as [| n]; [reflexivity |].
  rewrite float32_of_nat by lia. reflexivity.
Qed.

Lemma fold_add_count (l : list bool) (a : nat) :
  (Z.of_nat (a + length (filter (fun b : bool => b) l)) < 2 ^ 24)%Z ->
  fold_left Float32.add
    (map (fun b : bool => if b then Float32.of_int 1 else Float32.of_int 0) l)
    (Float32.of_int (Z.of_nat a)) =
  Float32.of_int (Z.of_nat (a + length (filter (fun b : bool => b) l))).
Proof.
  revert a. induction l as [| b l IH]; intros a Ha; cbn [map fold_left filter length].
  - now rewrite Nat.add_0_r.
  - destruct b; cbn [filter length] in Ha |- *.
    + rewrite float32_count_succ by lia. rewrite IH by (rewrite <- Nat.add_succ_comm in Ha; exact Ha).
      f_equal. f_equal. lia.
    + rewrite float32_count_same by lia. now apply IH.
Qed.

(** The sum of fewer than [2^24] ones is their number: every partial
    sum is an integer that [float32] holds. *)
Lemma float32_sum_count (t : list (list bool)) :
  (Z.of_nat (length (filter (fun b : bool => b) (concat t))) < 2 ^ 24)%Z ->
  tensor_sum t = Float32.of_int (Z.of_nat (length (filter (fun b : bool => b) (concat t)))).
Proof.
  intros Hn. unfold tensor_sum.
  change (Float32.of_int 0) with (Float32.of_int (Z.of_nat 0)) at 2.
  now rewrite fold_add_count.
Qed.

(** *** The scalar *)

Lemma scale_run (n : nat) :
  (0 < n)%nat -> (Z.of_nat n < 2 ^ 24)%Z ->
  py_truediv (PyFloat (Float64.of_int 100)) (PyInt (Z.of_nat n)) =
  inr (PyFloat (Float64.div (Float64.of_int 100) (Float64.of_int (Z.of_nat n)))).
Proof.
  intros Hpos Hn. unfold py_truediv, convert2. cbn [is_tensor orb as_float].
  unfold float_of_int.
  assert (Hnorm : Float64.of_int (Z.of_nat n) = normal 53 false (Pos.of_nat n)).
  { unfold Float64.of_int. replace (Z.of_nat n) with (Zpos (Pos.of_nat n)) by lia.
    apply (@of_int_normal Float64.prec Float64.emax); [reflexivity | discriminate |].
    change Float64.prec with 53%Z.
    assert (2 ^ 24 < 2 ^ 53)%Z by reflexivity. lia. }
  rewrite Hnorm. reflexivity.
Qed.

Lemma run_for_each_pure {X St A B} (f : A -> B) (g : A -> Run X St B) (l : list A) (st : St) :
  (forall a, In a l -> g a st = (inr (f a), st)) ->
  Machine.for_each g l st = (inr (map f l), st).
Proof.
  induction l as [| a l IH]; intros H; [reflexivity |].
  cbn [Machine.for_each map]. unfold run_bind at 1. rewrite (H a (or_introl eq_refl)).
  unfold run_bind at 1. rewrite IH; [reflexivity |].
  intros b Hb. apply H. right. exact Hb.
Qed.

(** *** The products for the batches of the notebook *)

Lemma rates_near_spec (nmax h n : nat) :
  rates_near nmax = true ->
  (0 < n <= nmax)%nat -> (h <= n)%nat ->
  Qabs (float_value (float32_rate h n)
        - 100 * inject_Z (Z.of_nat h) / inject_Z (Z.of_nat n)) <= 1 # 65536.
Proof.
  intros H Hn Hh. unfold rates_near in H.
  rewrite forallb_forall in H.
  assert (Hin : In n (seq 1 nmax)) by (apply in_seq; lia).
  specialize (H n Hin). cbv zeta in H.
  rewrite forallb_forall in H.
  assert (Hinh : In h (seq 0 (S n))) by (apply in_seq; lia).
  specialize (H h Hinh). unfold near_rate in H. apply Qle_bool_iff in H. exact H.
Qed.

Lemma rates_near_256 : rates_near 256 = true.
Proof. vm_compute. reflexivity. Qed.

Lemma full_rates_spec (nmax n : nat) :
  full_rates_settled nmax = true ->
  (0 < n <= nmax)%nat ->
  (float32_rate n n = Float32.of_int 100 <-> ~ In n inexact_batches).
Proof.
  intros H Hn. unfold full_rates_settled in H.
  rewrite forallb_forall in H.
  assert (Hin : In n (seq 1 nmax)) by (apply in_seq; lia).
  specialize (H n Hin). apply Bool.eqb_prop in H.
  rewrite <- same_float_eq, H, negb_true_iff. split.
  - intros Hex Hmem. assert (Ht : existsb (Nat.eqb n) inexact_batches = true).
    { apply existsb_exists. exists n. split; [exact Hmem | apply Nat.eqb_refl]. }
    rewrite Ht in Hex. discriminate Hex.
  - intros Hmem. destruct (existsb (Nat.eqb n) inexact_batches) eqn:E; [| reflexivity].
    exfalso. apply Hmem. apply existsb_exists in E. destruct E as (x & Hx & Hnx).
    apply Nat.eqb_eq in Hnx. now subst.
Qed.

Lemma full_rates_settled_128 : full_rates_settled 128 = true.
Proof. vm_compute. reflexivity. Qed.

Section Run.

Context {TK : TopK}.
Variable St : Type.

Lemma rounded_accuracy_run (output : Scores) (target ks : list nat) (st : St) :
  ks <> [] ->
  (requested_max ks <= classes output)%nat ->
  length target = length (rows output) ->
  (0 < length target)%nat ->
  (Z.of_nat (length target) < 2 ^ 24)%Z ->
  Machine.accuracy output target ks st =
    (inr (map (fun k =>
                 Tensor (Float32.mul
                           (tensor_sum (firstn k (correct output target (requested_max ks))))
                           (float32_scale (length target)))) ks), st).
Proof.
  intros Hks Hmax Hlen Hpos Hsmall. unfold Machine.accuracy.
  destruct ks as [| k0 ks']; [contradiction |].
  unfold run_bind at 1. unfold lift at 1. cbn [py_max ret].
  change (fold_left Nat.max ks' k0) with (requested_max (k0 :: ks')).
  set (maxk := requested_max (k0 :: ks')) in *.
  unfold run_bind at 1. unfold lift at 1, tensor_topk.
  apply Nat.leb_le in Hmax. rewrite Hmax. cbn [ret].
  unfold run_bind at 1. unfold lift at 1, expand_as.
  rewrite Hlen, Nat.eqb_refl. cbn [ret]. rewrite <- Hlen.
  apply run_for_each_pure. intros k _.
  unfold run_bind, eval. rewrite (scale_run Hpos Hsmall). reflexivity.
Qed.

Hypothesis contract : topk_contract TK.

(** What [accuracy] returns for each requested value: the product of
    the count and the scalar. *)
Lemma rounded_accuracy_rates (output : Scores) (target ks : list nat) (st : St) :
  wf_scores output ->
  (0 < length (rows output))%nat ->
  (Z.of_nat (length (rows output)) < 2 ^ 24)%Z ->
  length target = length (rows output) ->
  ks <> [] ->
  Forall (fun k => (k <= classes output)%nat) ks ->
  Machine.accuracy output target ks st =
    (inr (map (fun k => Tensor (float32_rate (hits (requested_max ks) k output target)
                                             (length (rows output)))) ks), st).
Proof.
  intros Hwf Hpos Hsmall Hlen Hks Hle.
  pose proof (requested_max_le Hle) as Hmax.
  rewrite rounded_accuracy_run; try assumption; try (rewrite Hlen; assumption).
  f_equal. f_equal. apply map_ext_in. intros k Hk.
  assert (Hkmax : (k <= requested_max ks)%nat).
  { pose proof (requested_max_ge ks) as Hge. rewrite Forall_forall in Hge. now apply Hge. }
  pose proof (correct_hits contract target Hwf Hmax Hkmax) as Hcount.
  assert (Hhits : (hits (requested_max ks) k output target <= length (rows output))%nat).
  { unfold hits. eapply Nat.le_trans; [apply filter_length_le |].
    rewrite length_combine, Hlen, Nat.min_id. apply Nat.le_refl. }
  rewrite float32_sum_count; rewrite Hcount; [| lia].
  rewrite Hlen. reflexivity.
Qed.

(** C1, amended. For a score matrix of [N] rows, [0 < N < 2^24], and
    [C] columns, [N] labels and requested values [K <= C], [accuracy]
    returns for each [K] a [float32] tensor whose element is the product,
    rounded to [float32], of the number of examples whose label is among
    their [K] highest-scoring classes and the [float32] nearest to the
    float [100.0 / N]; up to 256 examples it is within [2^-16] of 100
    times that number over [N]. The [K] classes of an example are the
    first [K] of its ranking. *)
Theorem accuracy_is_rounded_topk_rate (output : Scores) (target ks : list nat) (st : St) :
  wf_scores output ->
  (0 < length (rows output))%nat ->
  (Z.of_nat (length (rows output)) < 2 ^ 24)%Z ->
  length target = length (rows output) ->
  ks <> [] ->
  Forall (fun k => (k <= classes output)%nat) ks ->
  exists res,
    Machine.accuracy output target ks st = (inr res, st) /\
    Forall2 (fun k r =>
               r = Tensor (float32_rate (hits (requested_max ks) k output target)
                                        (length (rows output))) /\
               ((length (rows output) <= 256)%nat ->
                Qabs (float_value (float32_rate (hits (requested_max ks) k output target)
                                                (length (rows output)))
                      - topk_rate (requested_max ks) k output target) <= 1 # 65536))
            ks res /\
    (forall k row, In k ks -> In row (rows output) ->
                   is_top_k row k (firstn k (topk_row (requested_max ks) row))).
Proof.
  intros Hwf Hpos Hsmall Hlen Hks Hle.
  eexists. split; [now apply rounded_accuracy_rates |]. split.
  - apply Forall2_map_r. intros k Hk. split; [reflexivity |].
    intros Hbatch. unfold topk_rate.
    apply (rates_near_spec rates_near_256); [lia |].
    unfold hits. eapply Nat.le_trans; [apply filter_length_le |].
    rewrite length_combine, Hlen, Nat.min_id. apply Nat.le_refl.
  - intros k row Hk Hrow. apply (firstn_is_top_k contract).
    + pose proof (requested_max_ge ks) as Hge. rewrite Forall_forall in Hge. now apply Hge.
    + unfold wf_scores in Hwf. rewrite Forall_forall in Hwf. rewrite (Hwf row Hrow).
      now apply requested_max_le.
Qed.

(** C5, amended. For a batch of [N] examples, [0 < N < 2^24], over [C]
    classes whose labels are valid column indices, the accuracy that
    [accuracy] returns for [K = C] is the [float32] product of [N] and
    the [float32] nearest to the float [100.0 / N]. Up to 128 examples
    the product is 100 for every [N] but 45, 85, 90, 91, 93, 97 and
    99. *)
Theorem accuracy_all_classes_rounded (output : Scores) (target ks : list nat) (st : St) :
  wf_scores output ->
  (0 < length (rows output))%nat ->
  (Z.of_nat (length (rows output)) < 2 ^ 24)%Z ->
  length target = length (rows output) ->
  Forall (fun l => (l < classes output)%nat) target ->
  ks <> [] ->
  Forall (fun k => (k <= classes output)%nat) ks ->
  exists res,
    Machine.accuracy output target ks st = (inr res, st) /\
    Forall2 (fun k r =>
               k = classes output ->
               r = Tensor (float32_rate (length (rows output)) (length (rows output))) /\
               ((length (rows output) <= 128)%nat ->
                (r = Tensor (Float32.of_int 100) <->
                 ~ In (length (rows output)) inexact_batches)))
            ks res.
Proof.
  intros Hwf Hpos Hsmall Hlen Hvalid Hks Hle.
  eexists. split; [now apply rounded_accuracy_rates |].
  apply Forall2_map_r. intros k Hk ->.
  assert (Hmax : requested_max ks = classes output).
  { apply Nat.le_antisymm; [now apply requested_max_le |].
    pose proof (requested_max_ge ks) as Hge. rewrite Forall_forall in Hge.
    now apply Hge. }
  rewrite Hmax, (all_classes_hit contract Hwf Hvalid).
  rewrite length_combine, Hlen, Nat.min_id.
  split; [reflexivity |]. intros Hbatch.
  rewrite <- (full_rates_spec full_rates_settled_128 (n := length (rows output))) by lia.
  split; [now intros [= ->] | now intros ->].
Qed.

End Run.

End RoundedAccuracy.

Module RoundedExamples.

Import AccuracyFacts StableTopK RoundedAccuracy Machine.

Lemma three_rows_wf : wf_scores three_rows.
Proof. repeat constructor. Qed.

(** C1, as it stands, fails for one example in three: the accuracy is
    33.33333206176758, not a third of 100. *)
Lemma accuracy_third_not_exact :
  exists x,
    Machine.accuracy (TK := topk_stable) three_rows [0; 1; 1]%nat [1]%nat tt = (inr [Tensor x], tt) /\
    x = S754_finite false 8738133 (-18) /\
    hits (TK := topk_stable) 1 1 three_rows [0; 1; 1]%nat = 1%nat /\
    ~ float_value x == topk_rate (TK := topk_stable) 1 1 three_rows [0; 1; 1]%nat.
Proof.
  eexists. split; [reflexivity |]. split; [reflexivity |]. split; [reflexivity |].
  intro H. vm_compute in H. discriminate H.
Qed.

Lemma accuracy_is_rounded_topk_rate_witness :
  exists res,
    Machine.accuracy (TK := topk_stable) three_rows [0; 1; 1]%nat [1; 2]%nat tt = (inr res, tt) /\
    Forall2 (fun k r => r = Tensor (float32_rate (hits (TK := topk_stable) 2 k three_rows [0; 1; 1]%nat) 3))
            [1; 2]%nat res.
Proof.
  destruct (accuracy_is_rounded_topk_rate (TK := topk_stable) topk_stable_contract
              (output := three_rows) [0; 1; 1]%nat (ks := [1; 2]%nat) tt)
    as (res & Hrun & Hres & _).
  - exact three_rows_wf.
  - cbn; lia.
  - reflexivity.
  - reflexivity.
  - discriminate.
  - repeat constructor.
  - exists res. split; [exact Hrun |].
    eapply Forall2_impl; [| exact Hres]. intros k r [Hr _]. exact Hr.
Defined.

(** C5, as it stands, fails for 45 examples: with the one class
    requested the accuracy is 100.00000762939453, the [float32] next
    above 100. *)
Lemma accuracy_all_classes_above_100 :
  exists x,
    Machine.accuracy (TK := topk_stable) one_class_batch (repeat 0%nat 45) [1]%nat tt = (inr [Tensor x], tt) /\
    x = S754_finite false 13107201 (-17) /\
    SFeqb x (Float32.of_int 100) = false /\
    SFltb (Float32.of_int 100) x = true.
Proof.
  eexists. split; [vm_compute; reflexivity |]. repeat split.
Qed.

Lemma accuracy_all_classes_rounded_witness :
  exists res,
    Machine.accuracy (TK := topk_stable) two_by_two [0; 0]%nat [1; 2]%nat tt = (inr res, tt) /\
    Forall2 (fun k r => k = 2%nat -> r = Tensor (Float32.of_int 100)) [1; 2]%nat res.
Proof.
  destruct (accuracy_all_classes_rounded (TK := topk_stable) topk_stable_contract
              (output := two_by_two) (target := [0; 0]%nat) (ks := [1; 2]%nat) tt)
    as (res & Hrun & Hres).
  - exact AccuracyExamples.two_by_two_wf.
  - cbn; lia.
  - reflexivity.
  - reflexivity.
  - repeat constructor.
  - discriminate.
  - repeat constructor.
  - exists res. split; [exact Hrun |].
    eapply Forall2_impl; [| exact Hres]. intros k r Hr Hk.
    destruct (Hr Hk) as [Hrate _]. rewrite Hrate. reflexivity.
Defined.

End RoundedExamples.

(** * Properties of the further code *)

(** ** An update with a positive weight *)

Module MeterRuns.

Import AverageMeter AverageMeterFacts.

(** One update with a positive weight on a meter whose count is not
    negative. *)
Lemma update_positive (v n : Q) (m : t) :
  0 <= count m -> 0 < n ->
  update v n m =
    (inr tt, mk (name m) (fmt m) v ((sum m + v * n) / (count m + n))
               (sum m + v * n) (count m + n)) /\
  0 < count m + n.
Proof.
  intros Hc Hn.
  assert (Hpos : 0 < count m + n).
  { apply Qlt_le_trans with (0 + n); [rewrite Qplus_0_l; exact Hn |].
    apply Qplus_le_compat; [exact Hc | apply Qle_refl]. }
  split; [| exact Hpos]. rewrite update_run.
  destruct (Qeq_bool (count m + n) 0) eqn:Hz; [| reflexivity].
  apply Qeq_bool_eq in Hz. rewrite Hz in Hpos. discriminate Hpos.
Qed.

End MeterRuns.

(** ** More on [accuracy] *)

Module AccuracyMore.

Import AccuracyFacts.

(** [accuracy] with its checks laid out. *)
Lemma accuracy_unfold {TK : TopK} {St} (output : Scores) (target : list nat)
    (k0 : nat) (ks' : list nat) (st : St) :
  accuracy output target (k0 :: ks') st =
    let maxk := requested_max (k0 :: ks') in
    let loop expanded :=
      for_each
        (fun k =>
           scale <- py_truediv 100 (inject_Z (Z.of_nat (length target))) ;;
           ret (tensor_sum
                  (firstn k (tensor_eq (transpose maxk (map (topk_row maxk) (rows output)))
                               expanded)) * scale)%Q)%eff
        (k0 :: ks') st in
    if (maxk <=? classes output)%nat then
      if (length target =? length (rows output))%nat then loop (repeat target maxk)
      else if (length target =? 1)%nat then
        loop (repeat (repeat (hd O target) (length (rows output))) maxk)
      else (inl RuntimeError, st)
    else (inl RuntimeError, st).
Proof.
  unfold accuracy. cbn [py_max].
  change (fold_left Nat.max ks' k0) with (requested_max (k0 :: ks')).
  cbv zeta. unfold tensor_topk, expand_as. unfold bind at 1 2 3. unfold ret at 1.
  destruct (requested_max (k0 :: ks') <=? classes output)%nat; [| reflexivity].
  unfold ret at 1.
  destruct (length target =? length (rows output))%nat; [reflexivity |].
  destruct (length target =? 1)%nat; reflexivity.
Qed.

Lemma scaled_loop {St} (n : nat) (f : nat -> Q) (ks : list nat) (st : St) :
  (0 < n)%nat ->
  for_each
    (fun k => scale <- py_truediv 100 (inject_Z (Z.of_nat n)) ;; ret (f k * scale)%Q)%eff
    ks st =
  (inr (map (fun k => f k * (100 / inject_Z (Z.of_nat n))) ks), st).
Proof.
  intros Hn. apply for_each_pure. intros k _. unfold bind, py_truediv.
  destruct (Qeq_bool (inject_Z (Z.of_nat n)) 0) eqn:Hq; [| reflexivity].
  apply Qeq_bool_eq in Hq. exfalso. revert Hq. now apply positive_not_zero.
Qed.

(** X4. The outcome of [accuracy] on any arguments: it raises
    [ValueError] for an empty [topk], [RuntimeError] when a requested value
    exceeds the class count or when the labels are neither as many as the
    rows nor a single one, [ZeroDivisionError] when there is no label, and
    otherwise returns one accuracy per requested value. *)
Theorem accuracy_outcome {TK : TopK} {St} (output : Scores) (target ks : list nat) (st : St) :
  match accuracy_failure (classes output) (length (rows output)) (length target) ks with
  | Some e => accuracy output target ks st = (inl e, st)
  | None => exists res, accuracy output target ks st = (inr res, st) /\ length res = length ks
  end.
Proof.
  unfold accuracy_failure. destruct ks as [| k0 ks']; [reflexivity |].
  rewrite accuracy_unfold. cbv zeta.
  destruct (Nat.ltb_spec (classes output) (requested_max (k0 :: ks'))) as [Hgt | Hle].
  - apply Nat.leb_gt in Hgt. rewrite Hgt. reflexivity.
  - apply Nat.leb_le in Hle. rewrite Hle.
    destruct (Nat.eqb_spec (length target) (length (rows output))) as [Heq | Hne];
      cbn [negb andb].
    + destruct (Nat.eqb_spec (length target) 0) as [Hz | Hnz].
      * cbn [for_each]. unfold bind, py_truediv. rewrite Hz.
        change (Qeq_bool (inject_Z (Z.of_nat 0)) 0) with true. reflexivity.
      * rewrite scaled_loop by lia. eexists. split; [reflexivity | apply length_map].
    + destruct (Nat.eqb_spec (length target) 1) as [H1 | Hn1]; cbn [negb].
      * rewrite H1. change (1 =? 0)%nat with false. cbv iota.
        rewrite scaled_loop by lia. eexists. split; [reflexivity | apply length_map].
      * reflexivity.
Qed.

Section Contracted.

Context {TK : TopK}.
Variable St : Type.
Hypothesis contract : topk_contract TK.


End Contracted.


End AccuracyMore.

(** ** The progress of the epoch drivers *)

Module DriverProgress.

Import AverageMeterFacts ProgressMeterFacts AccuracyFacts DriverFacts DriverRuns.

Lemma same_progress_refl (tracked : meter_ref -> bool) (p : Progress) :
  same_progress tracked p p.
Proof.
  split; [reflexivity |]. split; [reflexivity |].
  split; intros; reflexivity.
Qed.

Section Progress.

Context {E : Env} {TK : TopK}.

Variable tracked : meter_ref -> bool.

(** Only the sums of the accuracy meters are followed. *)
Hypothesis tracked_accuracy : forall r, tracked r = true -> accuracy_meter r = true.

Lemma advanced_refl (d : Driver) : advanced tracked no_progress d d.
Proof.
  split; [| split; [| split]]; cbn [calls lines weights gains no_progress].
  - now rewrite app_nil_r.
  - now rewrite Nat.add_0_r.
  - intros r. now rewrite Qplus_0_r.
  - intros r _. now rewrite Qplus_0_r.
Qed.

Lemma advanced_trans (p q : Progress) (d d' d'' : Driver) :
  advanced tracked p d d' -> advanced tracked q d' d'' ->
  advanced tracked (and_then p q) d d''.
Proof.
  intros (He & Hl & Hw & Hg) (He' & Hl' & Hw' & Hg').
  split; [| split; [| split]]; cbn [calls lines weights gains and_then].
  - rewrite He', He, app_assoc. reflexivity.
  - rewrite Hl', Hl. lia.
  - intros r. rewrite Hw', Hw. ring.
  - intros r Hr. rewrite (Hg' r Hr), (Hg r Hr). ring.
Qed.

Lemma advanced_same (p q : Progress) (d d' : Driver) :
  same_progress tracked p q -> advanced tracked p d d' -> advanced tracked q d d'.
Proof.
  intros (Hc & Hl & Hw & Hg) (He & Hl' & Hw' & Hg'). split; [| split; [| split]].
  - rewrite <- Hc. exact He.
  - rewrite <- Hl. exact Hl'.
  - intros r. rewrite <- Hw. apply Hw'.
  - intros r Hr. rewrite <- (Hg r Hr). now apply Hg'.
Qed.

Lemma progresses_same {A} (p q : Progress) (P : A -> Prop) (c : Eff Driver A) :
  same_progress tracked p q -> progresses tracked p P c -> progresses tracked q P c.
Proof.
  intros Hpq Hc d Hd. destruct (Hc d Hd) as (a & d' & Hrun & Hd' & Hadv & Ha).
  exists a, d'. split; [exact Hrun |]. split; [exact Hd' |]. split; [| exact Ha].
  eapply advanced_same; eassumption.
Qed.

Lemma progresses_ret {A} (P : A -> Prop) (a : A) :
  P a -> progresses tracked no_progress P (ret a).
Proof.
  intros Ha d Hd. exists a, d. split; [reflexivity |]. split; [exact Hd |].
  split; [apply advanced_refl | exact Ha].
Qed.

Lemma progresses_bind {A B} (p q : Progress) (P : A -> Prop) (Q : B -> Prop)
    (c : Eff Driver A) (k : A -> Eff Driver B) :
  progresses tracked p P c -> (forall a, P a -> progresses tracked q Q (k a)) ->
  progresses tracked (and_then p q) Q (bind c k).
Proof.
  intros Hc Hk d Hd. destruct (Hc d Hd) as (a & d' & Hrun & Hd' & Hadv & Ha).
  destruct (Hk a Ha d' Hd') as (b & d'' & Hrun' & Hd'' & Hadv' & Hb).
  exists b, d''. unfold bind. rewrite Hrun.
  split; [exact Hrun' |]. split; [exact Hd'' |]. split; [| exact Hb].
  eapply advanced_trans; eassumption.
Qed.

Lemma settled_ext (d d' : Driver) :
  (forall r, deref r d' = deref r d) -> meters_settled d -> meters_settled d'.
Proof.
  intros Heq [Hready Havg]. split.
  - eapply meters_ready_ext; eassumption.
  - intros r. rewrite Heq. apply Havg.
Qed.

(** A step that keeps the meters and adds [calls] to the log and [lines]
    lines to the output. *)
Lemma advanced_by (cs : list Event) (n : nat) (d d' : Driver) :
  events d' = (events d ++ cs)%list ->
  length (stdout d') = (length (stdout d) + n)%nat ->
  (forall r, deref r d' = deref r d) ->
  advanced tracked (mkProgress cs n (fun _ => 0) (fun _ => 0)) d d'.
Proof.
  intros He Hs Hm. split; [exact He |]. split; [exact Hs |].
  split; cbn [weights gains].
  - intros r. rewrite Hm. now rewrite Qplus_0_r.
  - intros r _. rewrite Hm. now rewrite Qplus_0_r.
Qed.

Lemma progresses_call {A} (P : A -> Prop) (e : Event) (op : Eff World A) :
  (forall w, exists a, fst (op w) = inr a /\ P a) ->
  progresses tracked (one_call e) P (call e op).
Proof.
  intros Hop d Hd. unfold call. destruct (Hop (world d)) as (a & Ha & HP).
  destruct (op (world d)) as [r w]. cbn [fst] in Ha. subst r.
  eexists a, _. split; [reflexivity |]. split; [| split; [| exact HP]].
  - eapply settled_ext; [| exact Hd]. intros r; destruct r; reflexivity.
  - apply advanced_by; [reflexivity | cbn; lia | intros r; destruct r; reflexivity].
Qed.

Lemma progresses_call_returns {A} (e : Event) (op : Eff World A) :
  returns op -> progresses tracked (one_call e) (fun _ => True) (call e op).
Proof.
  intros Hop. apply progresses_call. intros w. destruct (Hop w) as [a Ha].
  exists a. split; [exact Ha | exact I].
Qed.

Lemma deref_assign (r r' : meter_ref) (m : AverageMeter.t) (d : Driver) :
  deref r' (assign r m d) = if meter_ref_eqb r' r then m else deref r' d.
Proof. destruct r, r'; reflexivity. Qed.

Lemma meter_ref_eqb_eq (r r' : meter_ref) : meter_ref_eqb r r' = true -> r = r'.
Proof. destruct r, r'; (reflexivity || discriminate). Qed.

Lemma progresses_update (r : meter_ref) (v n : Q) :
  0 < n ->
  progresses tracked (one_update r v n) (fun _ => True) (on r (AverageMeter.update v n)).
Proof.
  intros Hn d [Hd Havg]. unfold on, zoom.
  destruct (Hd r) as [Hc Hf].
  destruct (MeterRuns.update_positive v (deref r d) Hc Hn) as [Hrun Hpos].
  rewrite Hrun. eexists tt, _. split; [reflexivity |]. split; [| split; [| exact I]].
  - split.
    + intros r'. rewrite deref_assign. destruct (meter_ref_eqb r' r); [| apply Hd].
      cbn [AverageMeter.count AverageMeter.fmt].
      split; [apply Qlt_le_weak; exact Hpos | exact Hf].
    + intros r'. rewrite deref_assign. destruct (meter_ref_eqb r' r); [| apply Havg].
      cbn [AverageMeter.count AverageMeter.avg AverageMeter.sum].
      field. intros Hz. rewrite Hz in Hpos. discriminate Hpos.
  - split; [| split; [| split]]; cbn [calls lines weights gains one_update].
    + destruct r; cbn; now rewrite app_nil_r.
    + destruct r; cbn; now rewrite Nat.add_0_r.
    + intros r'. rewrite deref_assign. destruct (meter_ref_eqb r' r) eqn:Hr;
        [apply meter_ref_eqb_eq in Hr; subst r'; reflexivity | now rewrite Qplus_0_r].
    + intros r' _. rewrite deref_assign. destruct (meter_ref_eqb r' r) eqn:Hr;
        [apply meter_ref_eqb_eq in Hr; subst r'; reflexivity | now rewrite Qplus_0_r].
Qed.

Lemma progresses_print (line : string) :
  progresses tracked one_line (fun _ => True) (print line).
Proof.
  intros d Hd. eexists tt, _. split; [reflexivity |]. split; [| split; [| exact I]].
  - eapply settled_ext; [| exact Hd]. intros r; destruct r; reflexivity.
  - apply advanced_by;
      [cbn; now rewrite app_nil_r | cbn; lia | intros r; destruct r; reflexivity].
Qed.

Lemma progresses_set_end (x : Q) :
  progresses tracked no_progress (fun _ => True) (modify (set_end x)).
Proof.
  intros d Hd. eexists tt, _. split; [reflexivity |]. split; [| split; [| exact I]].
  - eapply settled_ext; [| exact Hd]. intros r; destruct r; reflexivity.
  - apply advanced_by;
      [cbn; now rewrite app_nil_r | cbn; lia | intros r; destruct r; reflexivity].
Qed.

(** A computation that [succeeds] and leaves the state as it is. *)
Lemma progresses_pure {A} (P : A -> Prop) (c : Eff Driver A) :
  succeeds meters_ready P c -> stable eq c -> progresses tracked no_progress P c.
Proof.
  intros Hc Hpure d Hd.
  destruct (Hc d (proj1 Hd)) as (a & d' & Hrun & Hd' & Ha).
  pose proof (Hpure d) as Heq. rewrite Hrun in Heq. cbn [snd] in Heq. subst d'.
  exists a, d. split; [exact Hrun |]. split; [exact Hd |].
  split; [apply advanced_refl | exact Ha].
Qed.

Lemma progresses_update_as (r : meter_ref) (v v' n : Q) :
  0 < n -> (tracked r = true -> v == v') ->
  progresses tracked (one_update r v' n) (fun _ => True) (on r (AverageMeter.update v n)).
Proof.
  intros Hn Hv. apply progresses_same with (p := one_update r v n);
    [| now apply progresses_update].
  split; [reflexivity |]. split; [reflexivity |]. split; [intros r'; reflexivity |].
  intros r' Hr'. cbn [gains one_update].
  destruct (meter_ref_eqb r' r) eqn:Hr; [| reflexivity].
  apply meter_ref_eqb_eq in Hr. subst r'. now rewrite (Hv Hr').
Qed.

Lemma pure_meter_str (r : meter_ref) : stable eq (meter_str r).
Proof.
  unfold meter_str. pure_step; [pure_step |].
  destruct (AverageMeter.fmt (deref r a)) as [| c spec]; [pure_step |].
  destruct (Ascii.eqb c ":"); pure_step.
Qed.

(** A displayed line is one line, whatever the batch index. *)
Lemma progresses_display (total : Z) (ms : list meter_ref) (p : string)
    (progress : ProgressMeter.t meter_ref) (d0 : Driver) (i : Z) :
  ProgressMeter.init total ms p d0 = (inr progress, d0) ->
  progresses tracked one_line (fun _ => True) (display progress i).
Proof.
  intros Hinit. rewrite init_run in Hinit.
  apply (f_equal (fun x => match fst x with inr y => y | inl _ => progress end)) in Hinit.
  cbv beta iota in Hinit. cbn [fst] in Hinit. cbv iota in Hinit. subst progress.
  unfold display, ProgressMeter.display.
  apply progresses_same with (p := and_then no_progress (and_then no_progress one_line)).
  { split; [reflexivity |]. split; [reflexivity |].
    split; intros; cbn; ring. }
  eapply progresses_bind with (P := fun _ => True).
  - apply progresses_pure.
    + intros d Hd. rewrite counter_run. eexists _, d.
      split; [reflexivity | split; [exact Hd | exact I]].
    + unfold ProgressMeter.counter, PyStr.format. apply pure_format_from.
  - intros c _. eapply progresses_bind with (P := fun _ => True).
    + apply progresses_pure.
      * apply succeeds_for_each. apply succeeds_meter_str.
      * apply stable_for_each;
          [intros; reflexivity | intros ? ? ? -> ->; reflexivity | apply pure_meter_str].
    + intros strs _. apply progresses_print.
Qed.

Lemma progresses_maybe_display (total : Z) (ms : list meter_ref) (p : string)
    (progress : ProgressMeter.t meter_ref) (d0 : Driver) (f i : Z) :
  ProgressMeter.init total ms p d0 = (inr progress, d0) ->
  progresses tracked
    (mkProgress [] (if (i mod f =? 0)%Z then 1 else 0) (fun _ => 0) (fun _ => 0))
    (fun _ => True) (maybe_display progress f i).
Proof.
  intros Hinit. unfold maybe_display. destruct (i mod f =? 0)%Z.
  - eapply progresses_display. exact Hinit.
  - now apply progresses_ret.
Qed.

(** [batch_time.update(time.time() - end); end = time.time()]: two
    readings of the clock, one more batch timed. *)
Lemma progresses_measure_time :
  returns time_time ->
  progresses tracked
    (mkProgress [CallTime; CallTime] 0 (fun r => if meter_ref_eqb r BatchTime then 1 else 0)
       (fun _ => 0))
    (fun _ => True) measure_time.
Proof.
  intros Htime. unfold measure_time.
  apply progresses_same
    with (p := and_then (one_call CallTime)
                 (and_then no_progress
                    (and_then (one_update BatchTime 0 1)
                       (and_then (one_call CallTime) no_progress)))).
  { split; [reflexivity |]. split; [reflexivity |].
    split; [intros r; destruct r; cbn; ring |].
    intros r _. destruct r; cbn; ring. }
  eapply progresses_bind; [now apply progresses_call_returns | intros now _].
  eapply progresses_bind;
    [apply progresses_pure; [apply succeeds_get | intros d; reflexivity] | intros d _].
  eapply progresses_bind.
  { unfold AverageMeter.update1. apply progresses_update_as; [reflexivity |].
    intros Hr. apply tracked_accuracy in Hr. discriminate Hr. }
  intros _ _.
  eapply progresses_bind; [now apply progresses_call_returns | intros now' _].
  apply progresses_set_end.
Qed.

Variable rate : Images * list nat -> meter_ref -> Q.

(** The forward pass, the loss and the three updates of one batch. *)
Lemma progresses_measure (loader : list (Images * list nat)) (x : Images) (t : list nat) :
  well_behaved loader -> In (x, t) loader ->
  (forall w o (d : Driver) a1 a5,
     fst (model_call x w) = inr o ->
     accuracy o t [1; 5]%nat d = (inr [a1; a5], d) ->
     (tracked Top1 = true -> a1 == rate (x, t) Top1) /\
     (tracked Top5 = true -> a5 == rate (x, t) Top5)) ->
  progresses tracked
    (mkProgress [CallModel; CallCriterion] 0
       (fun r => if meter_ref_eqb r BatchTime then 0
                 else inject_Z (Z.of_nat (images_size0 x)))
       (fun r => rate (x, t) r * inject_Z (Z.of_nat (images_size0 x))))
    (fun _ => True) (measure x t).
Proof.
  intros (_ & _ & _ & _ & Hcrit & Hmodel) Hin Hrate. unfold measure.
  destruct (Hmodel x t Hin) as (Hpos & Hsize & Hcall).
  set (n := inject_Z (Z.of_nat (images_size0 x))).
  assert (Hn : 0 < n) by now apply size_positive.
  apply progresses_same
    with (p := and_then (one_call CallModel)
                 (and_then (one_call CallCriterion)
                    (and_then no_progress
                       (and_then no_progress
                          (and_then (one_update Losses 0 n)
                             (and_then (one_update Top1 (rate (x, t) Top1) n)
                                (and_then (one_update Top5 (rate (x, t) Top5) n)
                                   no_progress))))))).
  { split; [reflexivity |]. split; [reflexivity |].
    split; [intros r; destruct r; cbn; ring |].
    intros r Hr. apply tracked_accuracy in Hr. destruct r; cbn; try ring; discriminate Hr. }
  eapply progresses_bind
    with (P := fun o => (5 <= classes o)%nat /\ length (rows o) = length t /\
                        exists w, fst (model_call x w) = inr o).
  { apply progresses_call. intros w.
    destruct (Hcall w) as (o & Ho & H5 & Hlen).
    exists o. split; [exact Ho |]. split; [exact H5 |]. split; [exact Hlen |].
    exists w. exact Ho. }
  intros o (H5 & Hlen & w & Ho).
  eapply progresses_bind; [apply progresses_call_returns; apply Hcrit | intros loss _].
  eapply progresses_bind
    with (P := fun res => exists a1 a5 (d : Driver),
                 res = [a1; a5] /\ accuracy o t [1; 5]%nat d = (inr res, d)).
  { apply progresses_pure; [| apply pure_accuracy].
    intros d Hd.
    assert (Hrun : exists a1 a5, accuracy o t [1; 5]%nat d = (inr [a1; a5], d)).
    { rewrite accuracy_run;
        [eexists _, _; reflexivity | discriminate | exact H5 | now symmetry | exact Hpos]. }
    destruct Hrun as (a1 & a5 & Hrun). rewrite Hrun.
    exists [a1; a5], d. split; [reflexivity |]. split; [exact Hd |].
    exists a1, a5, d. split; [reflexivity | exact Hrun]. }
  intros res (a1 & a5 & d & -> & Hacc).
  destruct (Hrate w o d a1 a5 Ho Hacc) as [H1 H5'].
  eapply progresses_bind with (P := fun accs => accs = (a1, a5)).
  { now apply progresses_ret. }
  intros accs ->. cbn [fst snd].
  eapply progresses_bind.
  { apply progresses_update_as; [exact Hn |].
    intros Hr. apply tracked_accuracy in Hr. discriminate Hr. }
  intros _ _.
  eapply progresses_bind; [now apply progresses_update_as | intros _ _].
  eapply progresses_bind; [now apply progresses_update_as | intros _ _].
  now apply progresses_ret.
Qed.

Lemma progresses_for_enumerate (batch_calls : list Event) (f : Z)
    (loader : list (Images * list nat))
    (body : Z -> Images * list nat -> Eff Driver unit) :
  (forall i b, In b loader ->
     progresses tracked (batch_progress batch_calls f rate i b) (fun _ => True) (body i b)) ->
  forall i,
    progresses tracked (loop_progress batch_calls f rate i loader) (fun _ => True)
      (for_enumerate i loader body).
Proof.
  induction loader as [| b rest IH]; intros Hbody i; cbn [for_enumerate loop_progress].
  - now apply progresses_ret.
  - eapply progresses_bind; [apply Hbody; now left | intros _ _].
    apply IH. intros j y Hy. apply Hbody. now right.
Qed.

(** [with torch.no_grad(): body], when the body and the switch return. *)
Lemma progresses_with_no_grad {A} (p : Progress) (P : A -> Prop) (body : Eff Driver A) :
  returns no_grad_enter -> (forall b, returns (no_grad_exit b)) ->
  progresses tracked p P body ->
  progresses tracked (and_then (one_call EnterNoGrad) (and_then p (one_call ExitNoGrad))) P
    (with_no_grad body).
Proof.
  intros Henter Hexit Hbody. unfold with_no_grad.
  eapply progresses_bind; [now apply progresses_call_returns | intros prev _].
  intros d Hd. destruct (Hbody d Hd) as (a & d' & Hrun & Hd' & Hadv & Ha). rewrite Hrun.
  destruct (progresses_call_returns ExitNoGrad (Hexit prev) Hd')
    as (u & d'' & Hrun' & Hd'' & Hadv' & _).
  rewrite Hrun'. exists a, d''. split; [reflexivity |]. split; [exact Hd'' |].
  split; [| exact Ha]. eapply advanced_trans; eassumption.
Qed.

(** What the loop adds up to. *)
Lemma loop_calls (batch_calls : list Event) (f i : Z) (loader : list (Images * list nat)) :
  calls (loop_progress batch_calls f rate i loader) = flat_map (fun _ => batch_calls) loader.
Proof.
  revert i. induction loader as [| b rest IH]; intros i; [reflexivity |].
  cbn [loop_progress and_then calls batch_progress flat_map]. now rewrite IH.
Qed.

Lemma loop_lines (batch_calls : list Event) (f i : Z) (loader : list (Images * list nat)) :
  lines (loop_progress batch_calls f rate i loader) = displayed f i (length loader).
Proof.
  revert i. induction loader as [| b rest IH]; intros i; [reflexivity |].
  cbn [loop_progress and_then lines batch_progress displayed length]. now rewrite IH.
Qed.

Lemma loop_weights (batch_calls : list Event) (f i : Z) (loader : list (Images * list nat))
    (r : meter_ref) :
  weights (loop_progress batch_calls f rate i loader) r ==
    if meter_ref_eqb r BatchTime then inject_Z (Z.of_nat (length loader))
    else inject_Z (Z.of_nat (examples loader)).
Proof.
  revert i. induction loader as [| b rest IH]; intros i.
  - destruct r; reflexivity.
  - cbn [loop_progress and_then weights batch_progress]. rewrite IH.
    unfold examples. cbn [map length]. rewrite list_sum_cons.
    rewrite Nat2Z.inj_succ, Nat2Z.inj_add. unfold Z.succ.
    rewrite !inject_Z_plus. destruct r; cbn [meter_ref_eqb batch_weights]; ring.
Qed.

(** The meters as [train] and [validate] make them anew. *)
Lemma new_meters_fresh (d : Driver) :
  exists d1, new_meters d = (inr tt, d1) /\ meters_settled d1 /\
             events d1 = events d /\ stdout d1 = stdout d /\
             forall r, AverageMeter.count (deref r d1) = 0 /\
                       AverageMeter.sum (deref r d1) = 0.
Proof.
  eexists. split; [reflexivity |]. split; [split |].
  - intros r. destruct r; cbn; (split; [discriminate | eexists; reflexivity]).
  - intros r. destruct r; reflexivity.
  - split; [reflexivity |]. split; [reflexivity |].
    intros r. destruct r; split; reflexivity.
Qed.

Lemma validate_batch (loader : list (Images * list nat))
    (progress : ProgressMeter.t meter_ref) (total : Z) (ms : list meter_ref) (p : string)
    (d0 : Driver) (i : Z) (b : Images * list nat) :
  well_behaved loader ->
  (forall x t w o (d : Driver) a1 a5,
     In (x, t) loader ->
     fst (model_call x w) = inr o ->
     accuracy o t [1; 5]%nat d = (inr [a1; a5], d) ->
     (tracked Top1 = true -> a1 == rate (x, t) Top1) /\
     (tracked Top5 = true -> a5 == rate (x, t) Top5)) ->
  ProgressMeter.init total ms p d0 = (inr progress, d0) ->
  In b loader ->
  progresses tracked (batch_progress validate_batch_calls 10 rate i b) (fun _ => True)
    (_ <- measure (fst b) (snd b) ;; measure_time ;; maybe_display progress 10 i).
Proof.
  intros Hwb Hrate Hinit Hin. destruct b as [x t]. cbn [fst snd].
  pose proof Hwb as (_ & Htime & _).
  eapply progresses_same;
    [| eapply progresses_bind;
       [apply (progresses_measure Hwb Hin); intros w o d a1 a5; now apply Hrate
       | intros _ _; eapply progresses_bind;
         [now apply progresses_measure_time
         | intros _ _; eapply progresses_maybe_display; exact Hinit]]].
  split; [reflexivity |]. split; [reflexivity |].
  split; [intros r; destruct r; cbn; ring | intros r _; cbn; ring].
Qed.

Lemma train_batch (loader : list (Images * list nat))
    (progress : ProgressMeter.t meter_ref) (total : Z) (ms : list meter_ref) (p : string)
    (d0 : Driver) (i : Z) (b : Images * list nat) :
  well_behaved loader -> optimizer_returns ->
  (forall x t w o (d : Driver) a1 a5,
     In (x, t) loader ->
     fst (model_call x w) = inr o ->
     accuracy o t [1; 5]%nat d = (inr [a1; a5], d) ->
     (tracked Top1 = true -> a1 == rate (x, t) Top1) /\
     (tracked Top5 = true -> a5 == rate (x, t) Top5)) ->
  ProgressMeter.init total ms p d0 = (inr progress, d0) ->
  In b loader ->
  progresses tracked (batch_progress train_batch_calls 50 rate i b) (fun _ => True)
    (loss <- measure (fst b) (snd b) ;;
     call CallZeroGrad optimizer_zero_grad ;;
     call CallBackward (loss_backward loss) ;;
     call CallStep optimizer_step ;;
     measure_time ;;
     maybe_display progress 50 i).
Proof.
  intros Hwb (_ & Hzero & Hback & Hstep) Hrate Hinit Hin. destruct b as [x t]. cbn [fst snd].
  pose proof Hwb as (_ & Htime & _).
  eapply progresses_same;
    [| eapply progresses_bind;
       [apply (progresses_measure Hwb Hin); intros w o d a1 a5; now apply Hrate
       | intros loss _; eapply progresses_bind;
         [now apply progresses_call_returns
         | intros _ _; eapply progresses_bind;
           [now apply progresses_call_returns
           | intros _ _; eapply progresses_bind;
             [now apply progresses_call_returns
             | intros _ _; eapply progresses_bind;
               [now apply progresses_measure_time
               | intros _ _; eapply progresses_maybe_display; exact Hinit]]]]]].
  split; [reflexivity |]. split; [reflexivity |].
  split; [intros r; destruct r; cbn; ring | intros r _; cbn; ring].
Qed.

(** An epoch of [validate], from any state of the driver. *)
Lemma validate_run (loader : list (Images * list nat)) (d : Driver) :
  well_behaved loader ->
  (forall x t w o (d : Driver) a1 a5,
     In (x, t) loader ->
     fst (model_call x w) = inr o ->
     accuracy o t [1; 5]%nat d = (inr [a1; a5], d) ->
     (tracked Top1 = true -> a1 == rate (x, t) Top1) /\
     (tracked Top5 = true -> a5 == rate (x, t) Top5)) ->
  exists d',
    validate loader d = (inr (PyNum (AverageMeter.avg (top1 d'))), d') /\
    meters_settled d' /\
    events d' =
      (events d ++ [CallModelEval; EnterNoGrad; CallTime]
       ++ flat_map (fun _ => validate_batch_calls) loader ++ [ExitNoGrad])%list /\
    length (stdout d') = (length (stdout d) + (displayed 10 0 (length loader) + 1))%nat /\
    (forall r, AverageMeter.count (deref r d') ==
               if meter_ref_eqb r BatchTime then inject_Z (Z.of_nat (length loader))
               else inject_Z (Z.of_nat (examples loader))) /\
    (forall r, tracked r = true ->
               AverageMeter.sum (deref r d') ==
               gains (loop_progress validate_batch_calls 10 rate 0 loader) r).
Proof.
  intros Hwb Hrate. pose proof Hwb as (Heval & Htime & Henter & Hexit & Hcrit & Hmodel).
  destruct (new_meters_fresh d) as (d1 & Hnew & Hd1 & He1 & Hs1 & Hm1).
  assert (Hrest : progresses tracked
    (and_then (one_call CallModelEval)
       (and_then
          (and_then (one_call EnterNoGrad)
             (and_then
                (and_then (one_call CallTime)
                   (and_then no_progress
                      (and_then (loop_progress validate_batch_calls 10 rate 0 loader)
                         (and_then no_progress one_line))))
                (one_call ExitNoGrad)))
          (and_then no_progress no_progress)))
    (fun _ : pyval => True)
    (call CallModelEval model_eval ;;
     with_no_grad
       (now <- call CallTime time_time ;;
        modify (set_end now) ;;
        for_enumerate 0 loader
          (fun i batch =>
             _ <- measure (fst batch) (snd batch) ;;
             measure_time ;;
             maybe_display
               (ProgressMeter.mk
                  ("[" ++ ("{:" ++ PyStr.str_nat (String.length (PyStr.str (len loader)))
                                ++ "d}") ++ "/" ++ PyStr.str (len loader) ++ "]")%string
                  [BatchTime; Losses; Top1; Top5] "Test: ") 10 i) ;;
        d <- get ;;
        print (" * Acc@1 " ++ format_number ".3f" (AverageMeter.avg (top1 d))
               ++ " Acc@5 " ++ format_number ".3f" (AverageMeter.avg (top5 d)))%string) ;;
     d <- get ;;
     ret (PyNum (AverageMeter.avg (top1 d))))%eff).
  { eapply progresses_bind; [now apply progresses_call_returns | intros _ _].
    eapply progresses_bind with (P := fun _ => True).
    - apply progresses_with_no_grad; try assumption.
      eapply progresses_bind; [now apply progresses_call_returns | intros now _].
      eapply progresses_bind; [apply progresses_set_end | intros _ _].
      eapply progresses_bind with (P := fun _ => True).
      + apply progresses_for_enumerate. intros i b Hin.
        eapply validate_batch; try eassumption. apply (init_run _ _ _ d1).
      + intros _ _. eapply progresses_bind;
          [apply progresses_pure; [apply succeeds_get | intros ?; reflexivity] | intros d' _].
        apply progresses_print.
    - intros _ _. eapply progresses_bind;
        [apply progresses_pure; [apply succeeds_get | intros ?; reflexivity] | intros d' _].
      now apply progresses_ret. }
  destruct (Hrest d1 Hd1) as (v & d' & Hrun & Hd' & (He & Hl & Hw & Hg) & _).
  assert (Hval : validate loader d = (inr v, d')).
  { unfold validate. unfold bind at 1. rewrite Hnew.
    unfold bind at 1. rewrite init_run. exact Hrun. }
  exists d'. split; [| split; [exact Hd' | split; [| split; [| split]]]].
  - rewrite Hval. f_equal. f_equal.
    pose proof (@validate_value _ _ loader d v) as Hv. rewrite Hval in Hv.
    now apply Hv.
  - rewrite He, He1. cbn [calls and_then one_call no_progress one_line].
    rewrite loop_calls. rewrite !app_nil_r. reflexivity.
  - rewrite Hl, Hs1. cbn [lines and_then one_call no_progress one_line].
    rewrite loop_lines. lia.
  - intros r. rewrite Hw. destruct (Hm1 r) as [-> _].
    cbn [weights and_then one_call no_progress one_line].
    rewrite loop_weights. ring.
  - intros r Hr. rewrite (Hg r Hr). destruct (Hm1 r) as [_ ->].
    cbn [gains and_then one_call no_progress one_line]. ring.
Qed.

(** An epoch of [train], from any state of the driver. *)
Lemma train_run (loader : list (Images * list nat)) (epoch : Z) (d : Driver) :
  well_behaved loader -> optimizer_returns ->
  (forall x t w o (d : Driver) a1 a5,
     In (x, t) loader ->
     fst (model_call x w) = inr o ->
     accuracy o t [1; 5]%nat d = (inr [a1; a5], d) ->
     (tracked Top1 = true -> a1 == rate (x, t) Top1) /\
     (tracked Top5 = true -> a5 == rate (x, t) Top5)) ->
  exists d',
    train loader epoch d = (inr PyNone, d') /\
    meters_settled d' /\
    events d' =
      (events d ++ [CallModelTrain; CallTime]
       ++ flat_map (fun _ => train_batch_calls) loader)%list /\
    length (stdout d') = (length (stdout d) + displayed 50 0 (length loader))%nat /\
    (forall r, AverageMeter.count (deref r d') ==
               if meter_ref_eqb r BatchTime then inject_Z (Z.of_nat (length loader))
               else inject_Z (Z.of_nat (examples loader))) /\
    (forall r, tracked r = true ->
               AverageMeter.sum (deref r d') ==
               gains (loop_progress train_batch_calls 50 rate 0 loader) r).
Proof.
  intros Hwb Hopt Hrate. pose proof Hwb as (_ & Htime & _).
  pose proof Hopt as (Htrain & _).
  destruct (new_meters_fresh d) as (d1 & Hnew & Hd1 & He1 & Hs1 & Hm1).
  assert (Hrest : progresses tracked
    (and_then (one_call CallModelTrain)
       (and_then (one_call CallTime)
          (and_then no_progress
             (and_then (loop_progress train_batch_calls 50 rate 0 loader) no_progress))))
    (fun _ : pyval => True)
    (call CallModelTrain model_train ;;
     now <- call CallTime time_time ;;
     modify (set_end now) ;;
     for_enumerate 0 loader
       (fun i batch =>
          loss <- measure (fst batch) (snd batch) ;;
          call CallZeroGrad optimizer_zero_grad ;;
          call CallBackward (loss_backward loss) ;;
          call CallStep optimizer_step ;;
          measure_time ;;
          maybe_display
            (ProgressMeter.mk
               ("[" ++ ("{:" ++ PyStr.str_nat (String.length (PyStr.str (len loader)))
                             ++ "d}") ++ "/" ++ PyStr.str (len loader) ++ "]")%string
               [BatchTime; Losses; Top1; Top5]
               ("Epoch:[" ++ PyStr.str epoch ++ "]")%string) 50 i) ;;
     ret PyNone)%eff).
  { eapply progresses_bind; [now apply progresses_call_returns | intros _ _].
    eapply progresses_bind; [now apply progresses_call_returns | intros now _].
    eapply progresses_bind; [apply progresses_set_end | intros _ _].
    eapply progresses_bind with (P := fun _ => True);
      [| intros _ _; now apply progresses_ret].
    apply progresses_for_enumerate. intros i b Hin.
    eapply train_batch; try eassumption. apply (init_run _ _ _ d1). }
  destruct (Hrest d1 Hd1) as (v & d' & Hrun & Hd' & (He & Hl & Hw & Hg) & _).
  assert (Hval : train loader epoch d = (inr v, d')).
  { unfold train. unfold bind at 1. rewrite Hnew.
    unfold bind at 1. rewrite epoch_prefix.
    unfold bind at 1. rewrite init_run. exact Hrun. }
  exists d'. split; [| split; [exact Hd' | split; [| split; [| split]]]].
  - rewrite Hval. f_equal. f_equal.
    apply (@train_value _ _ loader epoch d v). now rewrite Hval.
  - rewrite He, He1. cbn [calls and_then one_call no_progress one_line].
    rewrite loop_calls. rewrite !app_nil_r. reflexivity.
  - rewrite Hl, Hs1. cbn [lines and_then one_call no_progress one_line].
    rewrite loop_lines. lia.
  - intros r. rewrite Hw. destruct (Hm1 r) as [-> _].
    cbn [weights and_then one_call no_progress one_line].
    rewrite loop_weights. ring.
  - intros r Hr. rewrite (Hg r Hr). destruct (Hm1 r) as [_ ->].
    cbn [gains and_then one_call no_progress one_line]. ring.
Qed.

End Progress.

(** One line is displayed every [f] batches, from the first batch on:
    among [n] batches, [n / f] rounded up. *)
Lemma ceil_step (f i : Z) :
  (0 < f)%Z -> (0 <= i)%Z ->
  ((i + 1 + (f - 1)) / f - (i + (f - 1)) / f)%Z = if (i mod f =? 0)%Z then 1%Z else 0%Z.
Proof.
  intros Hf Hi. pose proof (Z.div_mod i f ltac:(lia)) as Hdiv.
  pose proof (Z.mod_pos_bound i f Hf) as Hmod.
  destruct (Z.eqb_spec (i mod f) 0) as [Hz | Hz].
  - rewrite <- (Z.div_unique (i + 1 + (f - 1)) f (i / f + 1) 0) by lia.
    rewrite <- (Z.div_unique (i + (f - 1)) f (i / f) (f - 1)) by lia. lia.
  - rewrite <- (Z.div_unique (i + 1 + (f - 1)) f (i / f + 1) (i mod f)) by lia.
    rewrite <- (Z.div_unique (i + (f - 1)) f (i / f + 1) (i mod f - 1)) by lia. lia.
Qed.

Lemma displayed_from (f : Z) (n : nat) : forall i,
  (0 < f)%Z -> (0 <= i)%Z ->
  Z.of_nat (displayed f i n) = ((i + Z.of_nat n + (f - 1)) / f - (i + (f - 1)) / f)%Z.
Proof.
  induction n as [| n IH]; intros i Hf Hi.
  - cbn [displayed]. replace (i + Z.of_nat 0)%Z with i by lia. lia.
  - cbn [displayed]. rewrite Nat2Z.inj_add, (IH (i + 1)%Z) by lia.
    pose proof (ceil_step Hf Hi) as Hstep.
    replace (i + 1 + Z.of_nat n)%Z with (i + Z.of_nat (S n))%Z by lia.
    destruct (i mod f =? 0)%Z; cbn [Z.of_nat]; lia.
Qed.

Lemma displayed_rounds_up (f : Z) (n : nat) :
  (0 < f)%Z -> displayed f 0 n = Z.to_nat ((Z.of_nat n + (f - 1)) / f).
Proof.
  intros Hf. apply Nat2Z.inj. rewrite displayed_from by lia.
  rewrite !Z.add_0_l. rewrite (Z.div_small (f - 1) f) by lia.
  rewrite Z2Nat.id; [lia |]. apply Z.div_pos; lia.
Qed.

Section Epochs.

Context {E : Env} {TK : TopK}.

Lemma untracked_accuracy (r : meter_ref) : untracked r = true -> accuracy_meter r = true.
Proof. discriminate. Qed.

Lemma untracked_rate (loader : list (Images * list nat)) :
  forall x t w o (d : Driver) (a1 a5 : Q),
    In (x, t) loader ->
    fst (model_call x w) = inr o ->
    accuracy o t [1; 5]%nat d = (inr [a1; a5], d) ->
    (untracked Top1 = true -> a1 == 0) /\ (untracked Top5 = true -> a5 == 0).
Proof. intros. split; discriminate. Qed.

Lemma filter_flat_map_const {A B} (f : B -> bool) (l : list B) (xs : list A) :
  filter f (flat_map (fun _ => l) xs) = flat_map (fun _ => filter f l) xs.
Proof.
  induction xs as [| x xs IH]; [reflexivity |].
  cbn [flat_map]. now rewrite filter_app, IH.
Qed.

(** X7. On a well-behaved environment and loader, an epoch of
    [validate] makes these calls in this order, the entries and exits of
    [no_grad] left aside: the switch of the model to evaluation, the
    clock; then for each batch the model, the loss and the clock
    twice. *)
Theorem validate_call_sequence (loader : list (Images * list nat)) (d : Driver) :
  well_behaved loader ->
  exists tr,
    events (snd (validate loader d)) = (events d ++ tr)%list /\
    filter (fun e => negb (autograd_switch e)) tr =
      ([CallModelEval; CallTime]
       ++ flat_map (fun _ => [CallModel; CallCriterion; CallTime; CallTime]) loader)%list.
Proof.
  intros Hwb.
  destruct (validate_run untracked untracked_accuracy (fun _ _ => 0) d Hwb
              (untracked_rate loader))
    as (d' & Hrun & _ & He & _).
  rewrite Hrun. eexists. split; [exact He |].
  change ([CallModelEval; EnterNoGrad; CallTime]
          ++ flat_map (fun _ => validate_batch_calls) loader ++ [ExitNoGrad])%list
    with ([CallModelEval; EnterNoGrad; CallTime]
          ++ (flat_map (fun _ : Images * list nat => validate_batch_calls) loader
              ++ [ExitNoGrad]))%list.
  rewrite !filter_app, filter_flat_map_const. cbn [filter negb autograd_switch app
    validate_batch_calls].
  now rewrite app_nil_r.
Qed.

(** X8. On a well-behaved environment and loader, an epoch of [train]
    makes these calls in this order, the entries and exits of [no_grad]
    left aside: the switch of the model to training, the clock; then for
    each batch the model, the loss, the optimizer's zero-gradient, the
    backward pass of the loss, the optimizer's step and the clock
    twice. *)
Theorem train_call_sequence (loader : list (Images * list nat)) (epoch : Z) (d : Driver) :
  well_behaved loader -> optimizer_returns ->
  exists tr,
    events (snd (train loader epoch d)) = (events d ++ tr)%list /\
    filter (fun e => negb (autograd_switch e)) tr =
      ([CallModelTrain; CallTime]
       ++ flat_map (fun _ => [CallModel; CallCriterion; CallZeroGrad; CallBackward; CallStep;
                              CallTime; CallTime]) loader)%list.
Proof.
  intros Hwb Hopt.
  destruct (train_run untracked untracked_accuracy (fun _ _ => 0) epoch d Hwb Hopt
              (untracked_rate loader))
    as (d' & Hrun & _ & He & _).
  rewrite Hrun. eexists. split; [exact He |].
  rewrite !filter_app, filter_flat_map_const. reflexivity.
Qed.

(** X9. After an epoch of [validate] or of [train] on a well-behaved
    environment and loader, whatever the meters held before, the loss and
    the two accuracy meters count the examples of the loader and the time
    meter counts its batches. *)
Theorem epoch_meter_counts (loader : list (Images * list nat)) (epoch : Z) (d : Driver) :
  well_behaved loader ->
  (let d' := snd (validate loader d) in
   AverageMeter.count (batch_time d') == inject_Z (Z.of_nat (length loader)) /\
   AverageMeter.count (losses d') == inject_Z (Z.of_nat (examples loader)) /\
   AverageMeter.count (top1 d') == inject_Z (Z.of_nat (examples loader)) /\
   AverageMeter.count (top5 d') == inject_Z (Z.of_nat (examples loader))) /\
  (optimizer_returns ->
   let d' := snd (train loader epoch d) in
   AverageMeter.count (batch_time d') == inject_Z (Z.of_nat (length loader)) /\
   AverageMeter.count (losses d') == inject_Z (Z.of_nat (examples loader)) /\
   AverageMeter.count (top1 d') == inject_Z (Z.of_nat (examples loader)) /\
   AverageMeter.count (top5 d') == inject_Z (Z.of_nat (examples loader))).
Proof.
  intros Hwb. split.
  - destruct (validate_run untracked untracked_accuracy (fun _ _ => 0) d Hwb
                (untracked_rate loader))
      as (d' & Hrun & _ & _ & _ & Hw & _).
    rewrite Hrun. cbn [snd].
    split; [exact (Hw BatchTime) |]. split; [exact (Hw Losses) |].
    split; [exact (Hw Top1) | exact (Hw Top5)].
  - intros Hopt.
    destruct (train_run untracked untracked_accuracy (fun _ _ => 0) epoch d Hwb Hopt
                (untracked_rate loader))
      as (d' & Hrun & _ & _ & _ & Hw & _).
    rewrite Hrun. cbn [snd].
    split; [exact (Hw BatchTime) |]. split; [exact (Hw Losses) |].
    split; [exact (Hw Top1) | exact (Hw Top5)].
Qed.

(** X10. On a well-behaved environment and loader of [n] batches,
    [validate] prints [n / 10] rounded up progress lines and one summary
    line, and [train] prints [n / 50] rounded up progress lines: a line
    for the first batch and for every tenth (fiftieth) after it. *)
Theorem epoch_printed_lines (loader : list (Images * list nat)) (epoch : Z) (d : Driver) :
  well_behaved loader ->
  length (stdout (snd (validate loader d))) =
    (length (stdout d) + Z.to_nat ((len loader + 9) / 10) + 1)%nat /\
  (optimizer_returns ->
   length (stdout (snd (train loader epoch d))) =
     (length (stdout d) + Z.to_nat ((len loader + 49) / 50))%nat).
Proof.
  intros Hwb. split.
  - destruct (validate_run untracked untracked_accuracy (fun _ _ => 0) d Hwb (untracked_rate loader))
      as (d' & Hrun & _ & _ & Hl & _).
    rewrite Hrun. cbn [snd]. rewrite Hl, displayed_rounds_up by lia.
    unfold len. change (10 - 1)%Z with 9%Z. lia.
  - intros Hopt.
    destruct (train_run untracked untracked_accuracy (fun _ _ => 0) epoch d Hwb Hopt
                (untracked_rate loader))
      as (d' & Hrun & _ & _ & Hl & _).
    rewrite Hrun. cbn [snd]. rewrite Hl, displayed_rounds_up by lia.
    unfold len. change (50 - 1)%Z with 49%Z. lia.
Qed.

Lemma stable_validate_body (loader : list (Images * list nat))
    (progress : ProgressMeter.t meter_ref) :
  stable untouched
    (now <- call CallTime time_time ;;
     modify (set_end now) ;;
     for_enumerate 0 loader
       (fun i batch =>
          _ <- measure (fst batch) (snd batch) ;;
          measure_time ;;
          maybe_display progress 10 i) ;;
     d <- get ;;
     print (" * Acc@1 " ++ format_number ".3f" (AverageMeter.avg (top1 d))
            ++ " Acc@5 " ++ format_number ".3f" (AverageMeter.avg (top5 d)))%string)%eff.
Proof.
  apply stable_bind; [exact untouched_trans | | intros now].
  { apply stable_call; [reflexivity | intros H; apply H]. }
  apply stable_bind; [exact untouched_trans | apply stable_set_end | intros _].
  apply stable_bind; [exact untouched_trans | | intros _].
  { apply stable_for_enumerate. intros i b.
    apply stable_bind; [exact untouched_trans | apply stable_measure | intros _].
    apply stable_bind; [exact untouched_trans | apply stable_measure_time | intros _].
    apply stable_maybe_display. }
  apply stable_bind; [exact untouched_trans | | intros d'].
  { apply stable_get. exact untouched_refl. }
  apply stable_print.
Qed.

Lemma bind_run {St A B} (c : Eff St A) (k : A -> Eff St B) (s s' : St) (a : A) :
  c s = (inr a, s') -> bind c k s = k a s'.
Proof. intros H. unfold bind. now rewrite H. Qed.

(** [with torch.no_grad(): body], however the body ends. *)
Lemma with_no_grad_exits {A} (body : Eff Driver A) (d : Driver) :
  returns no_grad_enter -> stable untouched body ->
  exists prev tr w r d',
    fst (no_grad_enter (world d)) = inr prev /\
    with_no_grad body d = (r, d') /\
    events d' = (events d ++ [EnterNoGrad] ++ tr ++ [ExitNoGrad])%list /\
    world d' = snd (no_grad_exit prev w).
Proof.
  intros Henter Hbody. unfold with_no_grad, bind, call.
  destruct (Henter (world d)) as [prev Hprev].
  destruct (no_grad_enter (world d)) as [r3 w3]. cbn [fst] in Hprev. subst r3.
  exists prev.
  pose proof (Hbody (set_world w3 (log EnterNoGrad d))) as Hd4.
  destruct (body (set_world w3 (log EnterNoGrad d))) as [r4 d4].
  cbn [snd] in Hd4. destruct Hd4 as [(tr & He4 & _) _]. cbn [events set_world log] in He4.
  exists tr, (world d4).
  destruct (no_grad_exit prev (world d4)) as [r5 w5]. cbn [snd].
  assert (Hev : events (set_world w5 (log ExitNoGrad d4)) =
                (events d ++ [EnterNoGrad] ++ tr ++ [ExitNoGrad])%list).
  { cbn [events set_world log]. rewrite He4. rewrite <- !app_assoc. reflexivity. }
  destruct r5 as [e | u]; eexists _, _;
    (split; [reflexivity |]); (split; [reflexivity |]); (split; [exact Hev | reflexivity]).
Qed.

(** X12. Whatever the loader and however the loop over it ends, also
    with an exception, a run of [validate] in which the switch to
    evaluation and the entry of [no_grad] return ends with the exit of
    [no_grad], called with what the entry returned: the last call logged
    is that exit, and it is the last to write the environment. *)
Theorem validate_leaves_no_grad (loader : list (Images * list nat)) (d : Driver) :
  returns model_eval -> returns no_grad_enter ->
  exists prev tr w,
    fst (no_grad_enter (snd (model_eval (world d)))) = inr prev /\
    events (snd (validate loader d)) =
      (events d ++ [CallModelEval; EnterNoGrad] ++ tr ++ [ExitNoGrad])%list /\
    world (snd (validate loader d)) = snd (no_grad_exit prev w).
Proof.
  intros Heval Henter.
  destruct (new_meters_fresh d) as (d1 & Hnew & _ & He1 & _).
  assert (Hw1 : world d1 = world d).
  { apply (f_equal snd) in Hnew. cbn [snd] in Hnew. subst d1. reflexivity. }
  unfold validate. rewrite (@bind_run _ _ _ _ _ _ _ _ Hnew).
  rewrite (@bind_run _ _ _ _ _ _ _ _ (init_run _ _ _ d1)).
  destruct (Heval (world d)) as [u Hu].
  assert (Hcall : call CallModelEval model_eval d1 =
                  (inr u, set_world (snd (model_eval (world d))) (log CallModelEval d1))).
  { unfold call. rewrite Hw1. destruct (model_eval (world d)) as [r2 w2].
    cbn [fst snd] in *. now subst r2. }
  rewrite (@bind_run _ _ _ _ _ _ _ _ Hcall).
  match goal with
  | |- context [with_no_grad ?body] =>
      destruct (@with_no_grad_exits _ body
                  (set_world (snd (model_eval (world d))) (log CallModelEval d1)) Henter
                  (stable_validate_body loader _))
        as (prev & tr & w & r & d' & Hprev & Hrun & Hev & Hw)
  end.
  cbn [world set_world] in Hprev. cbn [events set_world log] in Hev.
  exists prev, tr, w. split; [exact Hprev |].
  match goal with
  | |- context [bind (with_no_grad ?b) ?k ?s] =>
      assert (Hend : snd (bind (with_no_grad b) k s) = d')
        by (unfold bind at 1; rewrite Hrun; destruct r; reflexivity)
  end.
  rewrite Hend. split; [rewrite Hev, He1, <- !app_assoc; reflexivity | exact Hw].
Qed.

End Epochs.

(** *** On the small environment *)

Lemma validate_call_sequence_witness :
  exists tr,
    events (snd (validate (E := Toy.env) (TK := topk_stable) Toy.loader Toy.start)) = tr /\
    filter (fun e => negb (autograd_switch e)) tr =
      [CallModelEval; CallTime;
       CallModel; CallCriterion; CallTime; CallTime;
       CallModel; CallCriterion; CallTime; CallTime].
Proof.
  exact (validate_call_sequence (E := Toy.env) (TK := topk_stable) Toy.start toy_well_behaved).
Defined.

Lemma train_call_sequence_witness :
  exists tr,
    events (snd (train (E := Toy.env) (TK := topk_stable) Toy.loader 3 Toy.start)) = tr /\
    filter (fun e => negb (autograd_switch e)) tr =
      [CallModelTrain; CallTime;
       CallModel; CallCriterion; CallZeroGrad; CallBackward; CallStep; CallTime; CallTime;
       CallModel; CallCriterion; CallZeroGrad; CallBackward; CallStep; CallTime; CallTime].
Proof.
  exact (train_call_sequence (E := Toy.env) (TK := topk_stable) 3 Toy.start
           toy_well_behaved toy_optimizer_returns).
Defined.

Lemma epoch_meter_counts_witness :
  AverageMeter.count
    (batch_time (snd (validate (E := Toy.env) (TK := topk_stable) Toy.loader Toy.start))) == 2 /\
  AverageMeter.count
    (top1 (snd (train (E := Toy.env) (TK := topk_stable) Toy.loader 3 Toy.start))) == 3.
Proof.
  destruct (epoch_meter_counts (E := Toy.env) (TK := topk_stable) 3 Toy.start toy_well_behaved)
    as [Hv Ht].
  split; [exact (proj1 Hv) | exact (proj1 (proj2 (proj2 (Ht toy_optimizer_returns))))].
Defined.

Lemma epoch_printed_lines_witness :
  length (stdout (snd (validate (E := Toy.env) (TK := topk_stable) Toy.loader Toy.start))) = 2%nat /\
  length (stdout (snd (train (E := Toy.env) (TK := topk_stable) Toy.loader 3 Toy.start))) = 1%nat.
Proof.
  destruct (epoch_printed_lines (E := Toy.env) (TK := topk_stable) 3 Toy.start toy_well_behaved)
    as [Hv Ht].
  split; [exact Hv | exact (Ht toy_optimizer_returns)].
Defined.

Lemma validate_leaves_no_grad_witness :
  fst (validate (E := Toy.env) (TK := topk_stable) [([[1; 2; 3; 4; 5]], [])] Toy.start)
    = inl RuntimeError /\
  exists prev tr w,
    fst (no_grad_enter (snd (model_eval (world Toy.start)))) = inr prev /\
    events (snd (validate (E := Toy.env) (TK := topk_stable)
                   [([[1; 2; 3; 4; 5]], [])] Toy.start)) =
      (events Toy.start ++ [CallModelEval; EnterNoGrad] ++ tr ++ [ExitNoGrad])%list /\
    world (snd (validate (E := Toy.env) (TK := topk_stable)
                  [([[1; 2; 3; 4; 5]], [])] Toy.start)) = snd (no_grad_exit prev w).
Proof.
  split; [vm_compute; reflexivity |].
  apply (validate_leaves_no_grad (E := Toy.env) (TK := topk_stable)); intros w;
    eexists; reflexivity.
Defined.

End DriverProgress.

(** ** The training loop of the floating-point model *)

Module TrainingLoop.

Import DriverRuns DriverProgress.

Lemma py_gt_true (a b : Q) : py_gt a b = true -> b < a.
Proof.
  unfold py_gt. intros H. apply Bool.negb_true_iff in H.
  apply Qnot_le_lt. intros Hle. apply Qle_bool_iff in Hle. congruence.
Qed.

Lemma py_gt_false (a b : Q) : py_gt a b = false -> a <= b.
Proof.
  unfold py_gt. intros H. apply Bool.negb_false_iff in H. now apply Qle_bool_iff.
Qed.

Lemma py_max2_cases (a b : Q) :
  (py_gt a b = true -> py_max2 a b = a) /\
  (py_gt a b = false -> py_max2 a b == b) /\
  a <= py_max2 a b /\ b <= py_max2 a b.
Proof.
  unfold py_max2. destruct (py_gt b a) eqn:Hba.
  - apply py_gt_true in Hba. split; [| split; [| split]].
    + intros Hab. apply py_gt_true in Hab.
      exfalso. apply (Qlt_irrefl a). now apply Qlt_trans with b.
    + reflexivity.
    + now apply Qlt_le_weak.
    + apply Qle_refl.
  - apply py_gt_false in Hba. split; [| split; [| split]].
    + reflexivity.
    + intros Hab. apply py_gt_false in Hab. now apply Qle_antisym.
    + apply Qle_refl.
    + exact Hba.
Qed.

Section Loop.

Context {E : Env} {TK : TopK}.

Variables train_loader val_loader : list (Images * list nat).

Hypothesis train_behaved : well_behaved train_loader.
Hypothesis val_behaved : well_behaved val_loader.
Hypothesis optimizer_behaved : optimizer_returns.

(** One turn on a well-behaved environment. *)
Lemma epoch_body_run (epoch : Z) (s : Loop) :
  exists d a,
    validate val_loader (snd (train train_loader epoch (driver s))) = (inr (PyNum a), d) /\
    epoch_body train_loader val_loader epoch s =
      (inr tt,
       mkLoop d (PyNum a) (py_max2 a (best_acc1 s)) (py_gt a (best_acc1 s))
         (if py_gt a (best_acc1 s) then Some (parameters (world d), a)
          else checkpoint_file s)).
Proof.
  unfold epoch_body.
  destruct (train_run untracked untracked_accuracy (fun _ _ => 0) epoch (driver s)
              train_behaved optimizer_behaved (untracked_rate train_loader))
    as (d1 & Htrain & _).
  rewrite Htrain. cbn [snd].
  destruct (validate_run untracked untracked_accuracy (fun _ _ => 0) d1
              val_behaved (untracked_rate val_loader))
    as (d2 & Hval & _).
  rewrite Hval. eexists _, _. split; reflexivity.
Qed.

Lemma epoch_body_keeps (s0 : Loop) (epoch : Z) (s : Loop) :
  checkpoint_tracks_best s0 s ->
  exists s', epoch_body train_loader val_loader epoch s = (inr tt, s') /\
             checkpoint_tracks_best s0 s' /\ last_epoch_recorded s'.
Proof.
  intros [Hpos Hfile].
  destruct (epoch_body_run epoch s) as (d & a & _ & Hrun).
  rewrite Hrun. eexists. split; [reflexivity |].
  destruct (py_max2_cases a (best_acc1 s)) as (Hgt & Hle & Ha & Hb).
  split; [split |].
  - cbn [best_acc1]. now apply Qle_trans with (best_acc1 s).
  - cbn [best_acc1 checkpoint_file].
    destruct (py_gt a (best_acc1 s)) eqn:Hbest.
    + right. exists (parameters (world d)), a.
      split; [reflexivity |]. rewrite (Hgt eq_refl). split; [reflexivity |].
      apply py_gt_true in Hbest. now apply Qle_lt_trans with (best_acc1 s).
    + specialize (Hle eq_refl). destruct Hfile as [[Hsame Hzero] | (p & a0 & Hsome & Ha0 & Hpos0)].
      * left. split; [exact Hsame |]. now rewrite Hle.
      * right. exists p, a0. split; [exact Hsome |]. split; [| exact Hpos0].
        now rewrite Hle.
  - exists a. cbn [acc1 best_acc1 is_best checkpoint_file driver].
    split; [reflexivity |]. split; [exact Ha |].
    intros Hbest. rewrite Hbest. rewrite (Hgt Hbest). split; reflexivity.
Qed.

Lemma epochs_from_keeps (s0 : Loop) (n : nat) : forall (epoch : Z) (s : Loop),
  checkpoint_tracks_best s0 s ->
  exists s', epochs_from n epoch (epoch_body train_loader val_loader) s = (inr tt, s') /\
             checkpoint_tracks_best s0 s' /\
             ((0 < n)%nat -> last_epoch_recorded s').
Proof.
  induction n as [| n IH]; intros epoch s Hs; cbn [epochs_from].
  - exists s. split; [reflexivity |]. split; [exact Hs | lia].
  - destruct (epoch_body_keeps epoch Hs) as (s1 & Hrun & Hs1 & Hlast1).
    rewrite Hrun. destruct (IH (epoch + 1)%Z s1 Hs1) as (s' & Hrest & Hs' & Hlast').
    exists s'. split; [exact Hrest |]. split; [exact Hs' |]. intros _.
    destruct n as [| n']; [| apply Hlast'; lia].
    cbn [epochs_from] in Hrest. injection Hrest as <-. exact Hlast1.
Qed.

(** X13. On a well-behaved environment and loaders, the training loop
    runs through and returns [best_acc1], which is not negative. Either
    the value returned is zero and the checkpoint file is as it was
    before the loop; or the file holds a checkpoint whose recorded
    accuracy is the value returned, above zero. *)
Theorem training_loop_checkpoint (epochs : Z) (s : Loop) :
  exists best s',
    fp32_training_loop epochs train_loader val_loader s = (inr best, s') /\
    best = best_acc1 s' /\
    0 <= best /\
    ((checkpoint_file s' = checkpoint_file s /\ best == 0) \/
     (exists p a, checkpoint_file s' = Some (p, a) /\ a == best /\ 0 < a)).
Proof.
  unfold fp32_training_loop.
  set (s0 := mkLoop (driver s) (acc1 s) 0 (is_best s) (checkpoint_file s)).
  assert (Hs0 : checkpoint_tracks_best s0 s0).
  { split; [apply Qle_refl |]. left. split; reflexivity. }
  destruct (epochs_from_keeps (Z.to_nat epochs) 0 Hs0) as (s' & Hrun & [Hpos Hfile] & _).
  cbv zeta. rewrite Hrun. exists (best_acc1 s'), s'.
  split; [reflexivity |]. split; [reflexivity |]. split; [exact Hpos | exact Hfile].
Qed.

(** X14. After at least one epoch on a well-behaved environment and
    loaders, the accuracy of the last epoch is at most the value
    returned; and when the last epoch was the best, its accuracy is the
    value returned and the checkpoint file holds the parameters of the
    model as it is in memory, with that accuracy. *)
Theorem training_loop_last_epoch (epochs : Z) (s : Loop) :
  (0 < epochs)%Z ->
  exists best s' a,
    fp32_training_loop epochs train_loader val_loader s = (inr best, s') /\
    acc1 s' = PyNum a /\ a <= best /\
    (is_best s' = true ->
     a == best /\ checkpoint_file s' = Some (parameters (world (driver s')), a)).
Proof.
  intros Hepochs. unfold fp32_training_loop.
  set (s0 := mkLoop (driver s) (acc1 s) 0 (is_best s) (checkpoint_file s)).
  assert (Hs0 : checkpoint_tracks_best s0 s0).
  { split; [apply Qle_refl |]. left. split; reflexivity. }
  destruct (epochs_from_keeps (Z.to_nat epochs) 0 Hs0) as (s' & Hrun & _ & Hlast).
  destruct Hlast as (a & Hacc & Hle & Hbest); [lia |].
  cbv zeta. rewrite Hrun. exists (best_acc1 s'), s', a.
  split; [reflexivity |]. split; [exact Hacc |]. split; [exact Hle | exact Hbest].
Qed.

End Loop.

(** *** On the small environment: two epochs, the first the best *)

Lemma training_loop_checkpoint_witness :
  exists best s',
    fp32_training_loop (E := Toy.env) (TK := topk_stable) 2 Toy.loader Toy.loader
      (mkLoop Toy.start PyNone 7 false None) = (inr best, s') /\
    best = best_acc1 s' /\
    0 <= best /\
    ((checkpoint_file s' = None /\ best == 0) \/
     (exists p a, checkpoint_file s' = Some (p, a) /\ a == best /\ 0 < a)).
Proof.
  exact (training_loop_checkpoint (E := Toy.env) (TK := topk_stable)
           toy_well_behaved toy_well_behaved toy_optimizer_returns 2
           (mkLoop Toy.start PyNone 7 false None)).
Defined.

Lemma training_loop_last_epoch_witness :
  exists best s' a,
    fp32_training_loop (E := Toy.env) (TK := topk_stable) 2 Toy.loader Toy.loader
      (mkLoop Toy.start PyNone 7 false None) = (inr best, s') /\
    acc1 s' = PyNum a /\ a <= best /\
    (is_best s' = true ->
     a == best /\ checkpoint_file s' = Some (parameters (world (driver s')), a)).
Proof.
  apply (training_loop_last_epoch (E := Toy.env) (TK := topk_stable)
           toy_well_behaved toy_well_behaved toy_optimizer_returns
           (mkLoop Toy.start PyNone 7 false None)).
  reflexivity.
Defined.

(** The checkpoint is of the first epoch, the parameters in memory are
    of the second. *)
Example training_loop_two_epochs :
  let s' := snd (fp32_training_loop (E := Toy.env) (TK := topk_stable) 2 Toy.loader Toy.loader
                   (mkLoop Toy.start PyNone 7 false None)) in
  is_best s' = false /\
  (exists a, checkpoint_file s' = Some (2, a)) /\
  parameters (world (driver s')) == 4.
Proof.
  vm_compute. split; [reflexivity |]. split; [eexists; reflexivity | reflexivity].
Qed.

End TrainingLoop.

(** ** The preparation of the validation set *)

Module PrepareFacts.

Local Open Scope string_scope.

Lemma occurs_cons (c d : ascii) (s : string) :
  occurs c (String d s) = Ascii.eqb c d || occurs c s.
Proof. reflexivity. Qed.

Lemma str_split_not_nil (sep : ascii) (s : string) : str_split sep s <> [].
Proof.
  destruct s as [| c s]; cbn [str_split]; [discriminate |].
  destruct (Ascii.eqb c sep); [discriminate |].
  destruct (str_split sep s); discriminate.
Qed.

(** Without the separator, the string is the one piece. *)
Lemma str_split_whole (sep : ascii) (s : string) :
  occurs sep s = false -> str_split sep s = [s].
Proof.
  induction s as [| c s IH]; intros Hs; [reflexivity |].
  rewrite occurs_cons in Hs. apply Bool.orb_false_iff in Hs. destruct Hs as [Hc Hs].
  cbn [str_split]. rewrite Ascii.eqb_sym, Hc. now rewrite (IH Hs).
Qed.

(** With the separator, the first piece is what stands before its first
    occurrence, and the other pieces are those of what follows it. *)
Lemma str_split_first (sep : ascii) (s : string) :
  occurs sep s = true ->
  exists piece rest,
    s = piece ++ String sep rest /\ occurs sep piece = false /\
    str_split sep s = piece :: str_split sep rest.
Proof.
  induction s as [| c s IH]; intros Hs; [discriminate Hs |].
  rewrite occurs_cons in Hs. cbn [str_split].
  destruct (Ascii.eqb c sep) eqn:Hc.
  - apply Ascii.eqb_eq in Hc. subst c.
    exists EmptyString, s. split; [reflexivity |]. split; reflexivity.
  - rewrite Ascii.eqb_sym, Hc in Hs. cbn [orb] in Hs.
    destruct (IH Hs) as (piece & rest & Heq & Hpiece & Hsplit).
    exists (String c piece), rest. split; [cbn; now rewrite <- Heq |]. split.
    + rewrite occurs_cons, Ascii.eqb_sym, Hc. exact Hpiece.
    + now rewrite Hsplit.
Qed.

(** X15. The image and the label of an annotation line are its first
    two tab-separated fields, whatever follows them. A line without a tab
    cannot be unpacked: ValueError. When the line has a single tab, the
    label is all the rest of the line, its end of line included. *)
Theorem annotation_of_line (line : string) :
  if occurs tab_char line
  then exists image_filename image_label rest,
         unpack_fields (annotation_fields line) = inr (image_filename, image_label) /\
         occurs tab_char image_filename = false /\
         occurs tab_char image_label = false /\
         line = image_filename ++ String tab_char (image_label ++ rest) /\
         (rest = EmptyString \/ exists more, rest = String tab_char more)
  else unpack_fields (annotation_fields line) = inl ValueError.
Proof.
  unfold annotation_fields. destruct (occurs tab_char line) eqn:Hline.
  - destruct (str_split_first _ _ Hline) as (f & rest & Heq & Hf & Hsplit).
    rewrite Hsplit. destruct (occurs tab_char rest) eqn:Hrest.
    + destruct (str_split_first _ _ Hrest) as (l & more & Heq' & Hl & Hsplit').
      rewrite Hsplit'. exists f, l, (String tab_char more).
      split; [reflexivity |]. split; [exact Hf |]. split; [exact Hl |].
      split; [now rewrite <- Heq' | right; now exists more].
    + rewrite (str_split_whole _ _ Hrest). exists f, rest, EmptyString.
      split; [reflexivity |]. split; [exact Hf |]. split; [exact Hrest |].
      split; [| now left].
      rewrite Heq. f_equal. f_equal. clear. induction rest as [| c r IH]; [reflexivity |].
      cbn. now rewrite <- IH.
  - now rewrite (str_split_whole _ _ Hline).
Qed.

Lemma unpack_with_tab (line : string) :
  occurs tab_char line = true ->
  exists fields, unpack_fields (annotation_fields line) = inr fields.
Proof.
  intros Hline. unfold annotation_fields.
  destruct (str_split_first _ _ Hline) as (f & rest & _ & _ & Hsplit). rewrite Hsplit.
  pose proof (str_split_not_nil tab_char rest) as Hne.
  destruct (str_split tab_char rest) as [| l more]; [contradiction |].
  now exists (f, l).
Qed.

Lemma unpack_without_tab (line : string) :
  occurs tab_char line = false ->
  unpack_fields (annotation_fields line) = inl ValueError.
Proof.
  intros Hline. unfold annotation_fields. now rewrite (str_split_whole _ _ Hline).
Qed.

Lemma run_bind_inr {X St A B} (c : Run X St A) (k : A -> Run X St B) (s s' : St) (a : A) :
  c s = (inr a, s') -> run_bind c k s = k a s'.
Proof. intros H. unfold run_bind. now rewrite H. Qed.

Lemma run_bind_inl {X St A B} (c : Run X St A) (k : A -> Run X St B) (s s' : St) (x : X) :
  c s = (inl x, s') -> run_bind c k s = (inl x, s').
Proof. intros H. unfold run_bind. now rewrite H. Qed.

Section Runs.

Context {FS : FileSystem}.

(** A call is one more entry in the log, however it ends. *)
Lemma fs_call_logs {A} (e : FsCall) (op : Disk -> (OSError + A) * Disk) (s : Files) :
  fs_calls (snd (fs_call e op s)) = (fs_calls s ++ [e])%list.
Proof. unfold fs_call. destruct (op (disk s)) as [r k]. reflexivity. Qed.

Lemma fs_call_returns {A} (e : FsCall) (op : Disk -> (OSError + A) * Disk) (s : Files) (a : A) :
  fst (op (disk s)) = inr a -> fst (fs_call e op s) = inr a.
Proof. unfold fs_call. destruct (op (disk s)) as [r k]. cbn [fst]. now intros ->. Qed.

Variables val_data_dir val_images_dir : Path.

(** The move of one line. *)
Lemma move_image_calls (line : string) (s : Files) :
  exists tr,
    fs_calls (snd (move_image val_data_dir val_images_dir line s)) = (fs_calls s ++ tr)%list /\
    existsb removes tr = false /\
    (forall e, unpack_fields (annotation_fields line) = inl e ->
       fst (move_image val_data_dir val_images_dir line s) = inl (PyRaised e) /\ tr = []) /\
    (fst (move_image val_data_dir val_images_dir line s) = inr tt ->
     exists fields,
       unpack_fields (annotation_fields line) = inr fields /\
       filter is_rename tr =
         [CallRename (joinpath val_images_dir (fst fields))
            (joinpath (joinpath val_data_dir (snd fields)) (fst fields))]).
Proof.
  unfold move_image.
  destruct (unpack_fields (annotation_fields line)) as [e | [f l]].
  - exists []. cbn. rewrite app_nil_r. split; [reflexivity |]. split; [reflexivity |].
    split; [intros e' [= <-]; split; reflexivity | intros; discriminate].
  - pose proof (fs_call_logs (CallExists (joinpath val_data_dir l))
                  (fs_exists (joinpath val_data_dir l)) s) as Hlog1.
    destruct (fs_call (CallExists (joinpath val_data_dir l))
                (fs_exists (joinpath val_data_dir l)) s) as [[x | there] s1] eqn:Hcall1;
      cbn [snd] in Hlog1.
    { rewrite (@run_bind_inl _ _ _ _ _ _ _ _ _ Hcall1). exists [CallExists (joinpath val_data_dir l)].
      cbn [fst snd]. split; [exact Hlog1 |]. split; [reflexivity |].
      split; intros; discriminate. }
    rewrite (@run_bind_inr _ _ _ _ _ _ _ _ _ Hcall1).
    assert (Hmk : exists r s2 tr2,
               (if negb there
                then fs_call (CallMkdir (joinpath val_data_dir l))
                       (fs_mkdir (joinpath val_data_dir l))
                else run_ret tt) s1 = (r, s2) /\
               fs_calls s2 = (fs_calls s1 ++ tr2)%list /\
               existsb removes tr2 = false /\ filter is_rename tr2 = []).
    { destruct there; cbn [negb].
      - exists (inr tt), s1, []. rewrite app_nil_r. repeat split.
      - pose proof (fs_call_logs (CallMkdir (joinpath val_data_dir l))
                      (fs_mkdir (joinpath val_data_dir l)) s1) as Hlog2.
        destruct (fs_call _ _ s1) as [r s2]. cbn [snd] in Hlog2.
        exists r, s2, [CallMkdir (joinpath val_data_dir l)]. repeat split. exact Hlog2. }
    destruct Hmk as (r & s2 & tr2 & Hcall2 & Hlog2 & Hrem2 & Hren2).
    destruct r as [x | []].
    { rewrite (@run_bind_inl _ _ _ _ _ _ _ _ _ Hcall2). exists (CallExists (joinpath val_data_dir l) :: tr2).
      cbn [fst snd]. rewrite Hlog2, Hlog1, <- app_assoc.
      split; [reflexivity |]. split; [exact Hrem2 |]. split; intros; discriminate. }
    rewrite (@run_bind_inr _ _ _ _ _ _ _ _ _ Hcall2).
    pose proof (fs_call_logs
                  (CallRename (joinpath val_images_dir f)
                     (joinpath (joinpath val_data_dir l) f))
                  (fs_rename (joinpath val_images_dir f)
                     (joinpath (joinpath val_data_dir l) f)) s2) as Hlog3.
    destruct (fs_call _ _ s2) as [r s3]. cbn [fst snd] in *.
    exists (CallExists (joinpath val_data_dir l)
            :: tr2 ++ [CallRename (joinpath val_images_dir f)
                         (joinpath (joinpath val_data_dir l) f)])%list.
    rewrite Hlog3, Hlog2, Hlog1, <- !app_assoc.
    split; [reflexivity |]. split; [| split; [intros; discriminate |]].
    + cbn [existsb removes orb]. rewrite existsb_app, Hrem2. reflexivity.
    + intros _. exists (f, l). split; [reflexivity |].
      cbn [filter is_rename fst snd]. rewrite filter_app, Hren2. reflexivity.
Qed.

Lemma for_in_calls (lines : list string) : forall s : Files,
  exists tr,
    fs_calls (snd (for_in lines (move_image val_data_dir val_images_dir) s))
      = (fs_calls s ++ tr)%list /\
    existsb removes tr = false /\
    (fst (for_in lines (move_image val_data_dir val_images_dir) s) = inr tt ->
     exists moves,
       map (fun line => unpack_fields (annotation_fields line)) lines = map inr moves /\
       filter is_rename tr =
         map (fun fields =>
                CallRename (joinpath val_images_dir (fst fields))
                  (joinpath (joinpath val_data_dir (snd fields)) (fst fields))) moves).
Proof.
  induction lines as [| line lines IH]; intros s; cbn [for_in].
  - exists []. cbn. rewrite app_nil_r. split; [reflexivity |]. split; [reflexivity |].
    intros _. now exists [].
  - destruct (move_image_calls line s) as (tr1 & Hlog1 & Hrem1 & _ & Hok1).
    destruct (move_image val_data_dir val_images_dir line s) as [[x | []] s1] eqn:Hmove;
      cbn [fst snd] in *.
    + rewrite (@run_bind_inl _ _ _ _ _ _ _ _ _ Hmove). exists tr1. cbn [fst snd].
      split; [exact Hlog1 |]. split; [exact Hrem1 | intros; discriminate].
    + rewrite (@run_bind_inr _ _ _ _ _ _ _ _ _ Hmove).
      destruct (IH s1) as (tr2 & Hlog2 & Hrem2 & Hok2).
      exists (tr1 ++ tr2)%list. rewrite Hlog2, Hlog1, <- app_assoc.
      split; [reflexivity |]. split; [rewrite existsb_app, Hrem1, Hrem2; reflexivity |].
      intros Hfin. destruct (Hok1 eq_refl) as (fields & Hfields & Hren1).
      destruct (Hok2 Hfin) as (moves & Hmoves & Hren2).
      exists (fields :: moves). cbn [map]. rewrite Hfields, Hmoves.
      split; [reflexivity |]. now rewrite filter_app, Hren1, Hren2.
Qed.

Hypothesis os_returns : fs_returns.

Lemma move_image_returns (line : string) (s : Files) :
  occurs tab_char line = true ->
  fst (move_image val_data_dir val_images_dir line s) = inr tt.
Proof.
  intros Hline. destruct os_returns as (_ & Hexists & Hmkdir & Hrename & _).
  unfold move_image. destruct (unpack_with_tab _ Hline) as [[f l] ->].
  destruct (Hexists (joinpath val_data_dir l) (disk s)) as [there Hthere].
  pose proof (fs_call_returns (CallExists (joinpath val_data_dir l)) _ s Hthere) as Hcall1.
  destruct (fs_call (CallExists (joinpath val_data_dir l)) _ s) as [r1 s1] eqn:Heq1.
  cbn [fst] in Hcall1. subst r1. rewrite (@run_bind_inr _ _ _ _ _ _ _ _ _ Heq1).
  assert (Hmk : exists s2,
             (if negb there
              then fs_call (CallMkdir (joinpath val_data_dir l))
                     (fs_mkdir (joinpath val_data_dir l))
              else run_ret tt) s1 = (inr tt, s2)).
  { destruct there; cbn [negb]; [now exists s1 |].
    pose proof (fs_call_returns (CallMkdir (joinpath val_data_dir l)) _ s1
                  (Hmkdir (joinpath val_data_dir l) (disk s1))) as Hcall2.
    destruct (fs_call _ _ s1) as [r2 s2]. cbn [fst] in Hcall2. subst r2. now exists s2. }
  destruct Hmk as [s2 Heq2]. rewrite (@run_bind_inr _ _ _ _ _ _ _ _ _ Heq2).
  apply fs_call_returns. apply Hrename.
Qed.

Lemma for_in_returns (lines : list string) : forall s : Files,
  forallb (occurs tab_char) lines = true ->
  fst (for_in lines (move_image val_data_dir val_images_dir) s) = inr tt.
Proof.
  induction lines as [| line lines IH]; intros s Hall; [reflexivity |].
  cbn [forallb] in Hall. apply Bool.andb_true_iff in Hall. destruct Hall as [Hline Hall].
  cbn [for_in]. pose proof (@move_image_returns line s Hline) as Hmove.
  destruct (move_image val_data_dir val_images_dir line s) as [r s1] eqn:Heq.
  cbn [fst] in Hmove. subst r. rewrite (@run_bind_inr _ _ _ _ _ _ _ _ _ Heq). now apply IH.
Qed.

Lemma for_in_stops (good : list string) (bad : string) (rest : list string) :
  forall s : Files,
    forallb (occurs tab_char) good = true -> occurs tab_char bad = false ->
    fst (for_in (good ++ bad :: rest) (move_image val_data_dir val_images_dir) s)
      = inl (PyRaised ValueError) /\
    exists tr,
      fs_calls (snd (for_in (good ++ bad :: rest) (move_image val_data_dir val_images_dir) s))
        = (fs_calls s ++ tr)%list /\
      length (filter is_rename tr) = length good.
Proof.
  induction good as [| line good IH]; intros s Hgood Hbad.
  - cbn [app for_in length].
    destruct (move_image_calls bad s) as (tr & Hlog & _ & Hfail & _).
    destruct (Hfail ValueError (unpack_without_tab _ Hbad)) as [Hraise ->].
    destruct (move_image val_data_dir val_images_dir bad s) as [r s1] eqn:Heq.
    cbn [fst snd] in *. subst r. rewrite (@run_bind_inl _ _ _ _ _ _ _ _ _ Heq).
    cbn [fst snd]. split; [reflexivity |]. exists []. split; [exact Hlog | reflexivity].
  - cbn [forallb] in Hgood. apply Bool.andb_true_iff in Hgood. destruct Hgood as [Hline Hgood].
    cbn [app for_in length].
    pose proof (@move_image_returns line s Hline) as Hmove.
    destruct (move_image_calls line s) as (tr1 & Hlog1 & _ & _ & Hok1).
    destruct (move_image val_data_dir val_images_dir line s) as [r s1] eqn:Heq.
    cbn [fst snd] in *. subst r. rewrite (@run_bind_inr _ _ _ _ _ _ _ _ _ Heq).
    destruct (Hok1 eq_refl) as (fields & _ & Hren1).
    destruct (IH s1 Hgood Hbad) as (Hraise & tr2 & Hlog2 & Hlen2).
    split; [exact Hraise |]. exists (tr1 ++ tr2)%list.
    rewrite Hlog2, Hlog1, <- app_assoc. split; [reflexivity |].
    rewrite filter_app, length_app, Hren1, Hlen2. reflexivity.
Qed.

End Runs.

Section Prepared.

Context {FS : FileSystem}.

Lemma fs_call_run {A} (e : FsCall) (op : Disk -> (OSError + A) * Disk) (s s' : Files) (a : A) :
  fs_call e op s = (inr a, s') -> fst (op (disk s)) = inr a.
Proof.
  unfold fs_call. destruct (op (disk s)) as [[x | a'] k]; [discriminate |].
  now intros [= <- _].
Qed.

(** X16. In every run of [prepare_tiny_imagenet_200], however it ends,
    the annotation file and the images directory are removed last and
    only after the annotations were read, every line of them gave an
    image and a label, and every image was renamed, in the order of the
    lines, from [val/images/<image>] to [val/<label>/<image>]. A run that
    returns has removed both. *)
Theorem annotations_removed_last (dataset_dir : Path) (s : Files) :
  let val_data_dir := joinpath dataset_dir "val" in
  let val_annotations_file := joinpath val_data_dir "val_annotations.txt" in
  let val_images_dir := joinpath val_data_dir "images" in
  exists before after,
    fs_calls (snd (prepare_tiny_imagenet_200 dataset_dir s))
      = (fs_calls s ++ before ++ after)%list /\
    existsb removes before = false /\
    (after = [] \/ after = [CallUnlink val_annotations_file] \/
     after = [CallUnlink val_annotations_file; CallRmdir val_images_dir]) /\
    (after <> [] ->
     exists lines moves,
       fst (fs_readlines val_annotations_file (disk s)) = inr lines /\
       map (fun line => unpack_fields (annotation_fields line)) lines = map inr moves /\
       filter is_rename before = map (move_of dataset_dir) moves) /\
    (fst (prepare_tiny_imagenet_200 dataset_dir s) = inr tt ->
     after = [CallUnlink val_annotations_file; CallRmdir val_images_dir]).
Proof.
  intros val_data_dir val_annotations_file val_images_dir.
  unfold prepare_tiny_imagenet_200.
  fold val_data_dir. fold val_annotations_file. fold val_images_dir.
  pose proof (fs_call_logs (CallReadlines val_annotations_file)
                (fs_readlines val_annotations_file) s) as Hlog0.
  destruct (fs_call (CallReadlines val_annotations_file)
              (fs_readlines val_annotations_file) s) as [[x | lines] s0] eqn:Hread;
    cbn [snd] in Hlog0.
  { rewrite (@run_bind_inl _ _ _ _ _ _ _ _ _ Hread).
    exists [CallReadlines val_annotations_file], []. cbn [fst snd]. rewrite app_nil_r.
    split; [exact Hlog0 |]. split; [reflexivity |]. split; [now left |].
    split; [intros H; now contradiction H | discriminate]. }
  rewrite (@run_bind_inr _ _ _ _ _ _ _ _ _ Hread).
  apply fs_call_run in Hread.
  destruct (for_in_calls val_data_dir val_images_dir lines s0) as (tr & Hlog1 & Hrem1 & Hok1).
  destruct (for_in lines (move_image val_data_dir val_images_dir) s0)
    as [[x | []] s1] eqn:Hloop; cbn [fst snd] in Hlog1, Hok1.
  { rewrite (@run_bind_inl _ _ _ _ _ _ _ _ _ Hloop).
    exists (CallReadlines val_annotations_file :: tr), []. cbn [fst snd].
    rewrite Hlog1, Hlog0, app_nil_r, <- app_assoc.
    split; [reflexivity |]. split; [exact Hrem1 |]. split; [now left |].
    split; [intros H; now contradiction H | discriminate]. }
  rewrite (@run_bind_inr _ _ _ _ _ _ _ _ _ Hloop).
  destruct (Hok1 eq_refl) as (moves & Hmoves & Hren).
  assert (Hdone : exists lines moves,
             fst (fs_readlines val_annotations_file (disk s)) = inr lines /\
             map (fun line => unpack_fields (annotation_fields line)) lines = map inr moves /\
             filter is_rename (CallReadlines val_annotations_file :: tr)
               = map (move_of dataset_dir) moves).
  { exists lines, moves. split; [exact Hread |]. split; [exact Hmoves | exact Hren]. }
  pose proof (fs_call_logs (CallUnlink val_annotations_file)
                (fs_unlink val_annotations_file) s1) as Hlog2.
  destruct (fs_call (CallUnlink val_annotations_file) (fs_unlink val_annotations_file) s1)
    as [[x | []] s2] eqn:Hunlink; cbn [snd] in Hlog2.
  { rewrite (@run_bind_inl _ _ _ _ _ _ _ _ _ Hunlink).
    exists (CallReadlines val_annotations_file :: tr), [CallUnlink val_annotations_file].
    cbn [fst snd]. rewrite Hlog2, Hlog1, Hlog0, <- !app_assoc.
    split; [reflexivity |]. split; [exact Hrem1 |]. split; [right; now left |].
    split; [intros _; exact Hdone | discriminate]. }
  rewrite (@run_bind_inr _ _ _ _ _ _ _ _ _ Hunlink).
  pose proof (fs_call_logs (CallRmdir val_images_dir) (fs_rmdir val_images_dir) s2) as Hlog3.
  destruct (fs_call (CallRmdir val_images_dir) (fs_rmdir val_images_dir) s2) as [r s3].
  cbn [fst snd] in *.
  exists (CallReadlines val_annotations_file :: tr),
         [CallUnlink val_annotations_file; CallRmdir val_images_dir].
  rewrite Hlog3, Hlog2, Hlog1, Hlog0, <- !app_assoc.
  split; [reflexivity |]. split; [exact Hrem1 |]. split; [right; now right |].
  split; [intros _; exact Hdone | reflexivity].
Qed.

(** X17. When the calls to the file system return: if every line of
    the annotations has a tab, [prepare_tiny_imagenet_200] returns; if
    not, it raises ValueError at the first line without one, after it
    has asked for the renaming of the images of the lines before it and
    of those only, and it asks for no removal. *)
Theorem prepare_outcome (dataset_dir : Path) (s : Files) (lines : list string) :
  fs_returns ->
  fst (fs_readlines (joinpath (joinpath dataset_dir "val") "val_annotations.txt") (disk s))
    = inr lines ->
  (forallb (occurs tab_char) lines = true ->
   fst (prepare_tiny_imagenet_200 dataset_dir s) = inr tt) /\
  (forall good bad rest,
     lines = (good ++ bad :: rest)%list ->
     forallb (occurs tab_char) good = true -> occurs tab_char bad = false ->
     fst (prepare_tiny_imagenet_200 dataset_dir s) = inl (PyRaised ValueError) /\
     exists tr,
       fs_calls (snd (prepare_tiny_imagenet_200 dataset_dir s)) = (fs_calls s ++ tr)%list /\
       length (filter is_rename tr) = length good /\
       existsb removes tr = false).
Proof.
  intros Hos Hlines. pose proof Hos as (_ & _ & _ & _ & Hunlink & Hrmdir).
  unfold prepare_tiny_imagenet_200.
  set (val_data_dir := joinpath dataset_dir "val") in *.
  set (val_annotations_file := joinpath val_data_dir "val_annotations.txt") in *.
  set (val_images_dir := joinpath val_data_dir "images").
  pose proof (fs_call_returns (CallReadlines val_annotations_file) _ s Hlines) as Hcall0.
  pose proof (fs_call_logs (CallReadlines val_annotations_file)
                (fs_readlines val_annotations_file) s) as Hlog0.
  destruct (fs_call (CallReadlines val_annotations_file)
              (fs_readlines val_annotations_file) s) as [r0 s0] eqn:Hread.
  cbn [fst snd] in Hcall0, Hlog0. subst r0.
  rewrite (@run_bind_inr _ _ _ _ _ _ _ _ _ Hread). split.
  - intros Hall.
    pose proof (for_in_returns val_data_dir val_images_dir Hos lines s0 Hall) as Hloop.
    destruct (for_in lines (move_image val_data_dir val_images_dir) s0) as [r1 s1] eqn:Heq1.
    cbn [fst] in Hloop. subst r1. rewrite (@run_bind_inr _ _ _ _ _ _ _ _ _ Heq1).
    pose proof (fs_call_returns (CallUnlink val_annotations_file) _ s1
                  (Hunlink val_annotations_file (disk s1))) as Hcall2.
    destruct (fs_call (CallUnlink val_annotations_file) _ s1) as [r2 s2] eqn:Heq2.
    cbn [fst] in Hcall2. subst r2. rewrite (@run_bind_inr _ _ _ _ _ _ _ _ _ Heq2).
    apply fs_call_returns. apply Hrmdir.
  - intros good bad rest -> Hgood Hbad.
    destruct (for_in_stops val_data_dir val_images_dir Hos good bad rest s0 Hgood Hbad)
      as (Hraise & tr & Hlog1 & Hlen).
    destruct (for_in_calls val_data_dir val_images_dir (good ++ bad :: rest) s0)
      as (tr' & Hlog1' & Hrem & _).
    assert (tr' = tr) by (rewrite Hlog1 in Hlog1'; now apply app_inv_head in Hlog1').
    subst tr'.
    destruct (for_in (good ++ bad :: rest) (move_image val_data_dir val_images_dir) s0)
      as [r1 s1] eqn:Heq1.
    cbn [fst snd] in *. subst r1. rewrite (@run_bind_inl _ _ _ _ _ _ _ _ _ Heq1).
    cbn [fst snd]. split; [reflexivity |].
    exists (CallReadlines val_annotations_file :: tr).
    rewrite Hlog1, Hlog0, <- app_assoc.
    split; [reflexivity |]. split; [exact Hlen | exact Hrem].
Qed.

End Prepared.

(** *** On the small file system *)

Lemma toy_fs_returns : fs_returns (FS := ToyFiles.fs).
Proof.
  split; [intros p k; now exists k |]. split; [intros p k; now exists false |].
  repeat split.
Qed.

Lemma prepare_outcome_witness :
  fst (prepare_tiny_imagenet_200 (FS := ToyFiles.fs) ToyFiles.dataset_dir
         (ToyFiles.start (firstn 2 ToyFiles.annotations))) = inr tt /\
  fst (prepare_tiny_imagenet_200 (FS := ToyFiles.fs) ToyFiles.dataset_dir
         (ToyFiles.start ToyFiles.annotations)) = inl (PyRaised ValueError).
Proof.
  split.
  - apply (prepare_outcome (FS := ToyFiles.fs) ToyFiles.dataset_dir
             (ToyFiles.start (firstn 2 ToyFiles.annotations)) toy_fs_returns eq_refl).
    reflexivity.
  - apply (proj2 (prepare_outcome (FS := ToyFiles.fs) ToyFiles.dataset_dir
                    (ToyFiles.start ToyFiles.annotations) toy_fs_returns eq_refl)
             (firstn 2 ToyFiles.annotations) (nth 2 ToyFiles.annotations EmptyString) []);
      reflexivity.
Defined.

(** The calls of a run on two well-formed lines. *)
Example prepare_two_images :
  fs_calls (snd (prepare_tiny_imagenet_200 (FS := ToyFiles.fs) ["d"]
                   (ToyFiles.start (firstn 2 ToyFiles.annotations)))) =
  [ CallReadlines (FS := ToyFiles.fs) ["d"; "val"; "val_annotations.txt"];
    CallExists (FS := ToyFiles.fs) ["d"; "val"; "n03444034"];
    CallMkdir (FS := ToyFiles.fs) ["d"; "val"; "n03444034"];
    CallRename (FS := ToyFiles.fs)
      ["d"; "val"; "images"; "val_0.JPEG"] ["d"; "val"; "n03444034"; "val_0.JPEG"];
    CallExists (FS := ToyFiles.fs) ["d"; "val"; "n04067472"];
    CallMkdir (FS := ToyFiles.fs) ["d"; "val"; "n04067472"];
    CallRename (FS := ToyFiles.fs)
      ["d"; "val"; "images"; "val_1.JPEG"] ["d"; "val"; "n04067472"; "val_1.JPEG"];
    CallUnlink (FS := ToyFiles.fs) ["d"; "val"; "val_annotations.txt"];
    CallRmdir (FS := ToyFiles.fs) ["d"; "val"; "images"] ].
Proof. reflexivity. Qed.

End PrepareFacts.

(** ** The drivers on an empty loader *)

Module EmptyLoader.

Import ProgressMeterFacts DriverRuns DriverProgress.

Section Empty.

Context {E : Env} {TK : TopK}.

Lemma call_run {A} (e : Event) (op : Eff World A) (d : Driver) :
  returns op -> exists a w, call e op d = (inr a, set_world w (log e d)).
Proof.
  intros Hop. unfold call. destruct (Hop (world d)) as [a Ha].
  destruct (op (world d)) as [r w]. cbn [fst] in Ha. subst r. now exists a, w.
Qed.

(** X18. On a loader without batches, when the calls to the
    environment return, [validate] divides nothing: it returns 0, the
    average of a meter that was never updated, and prints the summary
    line alone, with 0 for both accuracies. *)
Theorem validate_empty_loader (d : Driver) :
  returns model_eval -> returns time_time ->
  returns no_grad_enter -> (forall b, returns (no_grad_exit b)) ->
  fst (validate [] d) = inr (PyNum 0) /\
  stdout (snd (validate [] d)) =
    (" * Acc@1 " ++ format_number ".3f" 0 ++ " Acc@5 " ++ format_number ".3f" 0)%string
    :: stdout d.
Proof.
  intros Heval Htime Henter Hexit.
  destruct (new_meters_fresh d) as (d1 & Hnew & _).
  assert (Hd1 : d1 = snd (new_meters d)) by now rewrite Hnew.
  unfold validate.
  rewrite (@bind_run _ _ _ _ _ _ _ _ Hnew).
  rewrite (@bind_run _ _ _ _ _ _ _ _ (init_run _ _ _ d1)).
  destruct (call_run CallModelEval d1 Heval) as (u & w2 & Hcall2).
  rewrite (@bind_run _ _ _ _ _ _ _ _ Hcall2).
  set (d2 := set_world w2 (log CallModelEval d1)) in *.
  unfold with_no_grad.
  destruct (call_run EnterNoGrad d2 Henter) as (prev & w3 & Hcall3).
  set (d3 := set_world w3 (log EnterNoGrad d2)) in *.
  destruct (call_run CallTime d3 Htime) as (now & w4 & Hcall4).
  set (d4 := set_world w4 (log CallTime d3)) in *.
  match goal with
  | |- context [bind (bind (call EnterNoGrad no_grad_enter) ?k) ?k'] =>
      assert (Hrun : exists w6 d6,
                 bind (call EnterNoGrad no_grad_enter) k d2 = (inr tt, d6) /\
                 top1 d6 = top1 d1 /\ top5 d6 = top5 d1 /\
                 stdout d6 =
                   (" * Acc@1 " ++ format_number ".3f" (AverageMeter.avg (top1 d1))
                    ++ " Acc@5 " ++ format_number ".3f" (AverageMeter.avg (top5 d1)))%string
                   :: stdout d1 /\
                 world d6 = w6)
  end.
  { rewrite (@bind_run _ _ _ _ _ _ _ _ Hcall3).
    rewrite (@bind_run _ _ _ _ _ _ _ _ Hcall4).
    cbn [for_enumerate bind modify ret get print].
    match goal with
    | |- context [call ExitNoGrad (no_grad_exit prev) ?d5] =>
        destruct (call_run ExitNoGrad d5 (Hexit prev)) as ([] & w6 & Hcall6)
    end.
    rewrite Hcall6. eexists _, _. split; [reflexivity |].
    repeat split. }
  destruct Hrun as (w6 & d6 & Hrun & Htop1 & Htop5 & Hout & _).
  rewrite (@bind_run _ _ _ _ _ _ _ _ Hrun).
  cbn [bind get ret fst snd]. rewrite Hout, Htop1. rewrite Hd1. split; reflexivity.
Qed.

End Empty.

Lemma validate_empty_loader_witness :
  fst (validate (E := Toy.env) (TK := topk_stable) [] Toy.start) = inr (PyNum 0).
Proof.
  apply (validate_empty_loader (E := Toy.env) (TK := topk_stable) Toy.start);
    intros; intros w; eexists; reflexivity.
Defined.

End EmptyLoader.
